(** * PinterestBulkPostBot: a shallow embedding of [main.py]

    The script drives a browser to post a folder of images.  Its pure
    parts (string helpers, configuration merging, metadata loading,
    image discovery, field resolution) are embedded as functions; its
    effectful parts (logging, printing, prompting, browser calls,
    sleeping, [sys.exit], exceptions) are embedded in a small
    state-and-exception monad whose state is a clock and the trace of
    observable events.  Everything the script reads from outside (files,
    the operator, the browser) is an explicit oracle in a [world]. *)

From Stdlib Require Import ZArith Lia Ascii String Sorted.
From stdpp Require Import base option list strings gmap sorting pretty.

Local Open Scope string_scope.
Local Open Scope Z_scope.
Set Warnings "-register-all".

(** ** Python strings

    A [str] is modelled by the bytes of its UTF-8 encoding.  Bytewise
    comparison agrees with Python's code-point comparison.  [lower]
    lowers the ASCII letters: the script compares lower-cased text
    with ASCII literals only, and no other text lowers to these.
    [strip] removes every character [str.strip()] removes, in whatever
    number of bytes it is encoded. *)

Module PyStr.

Definition is_upper (c : ascii) : bool :=
  let n := nat_of_ascii c in (65 <=? n)%nat && (n <=? 90)%nat.

Definition lower_char (c : ascii) : ascii :=
  if is_upper c then ascii_of_nat (nat_of_ascii c + 32) else c.

(** [s.lower()] *)
Fixpoint lower (s : string) : string :=
  match s with
  | EmptyString => EmptyString
  | String c r => String (lower_char c) (lower r)
  end.

(** The characters [str.strip()] removes are those [str.isspace()]
    accepts.  In one byte: TAB, LF, VT, FF, CR, FS, GS, RS, US and the
    space. *)
Definition is_space (c : ascii) : bool :=
  let n := nat_of_ascii c in
  ((9 <=? n)%nat && (n <=? 13)%nat) || ((28 <=? n)%nat && (n <=? 32)%nat).

(** In two bytes: U+0085 (C2 85) and U+00A0 (C2 A0). *)
Definition is_space2 (a b : ascii) : bool :=
  let a := nat_of_ascii a in
  let b := nat_of_ascii b in
  (a =? 194)%nat && ((b =? 133)%nat || (b =? 160)%nat).

(** In three bytes: U+1680 (E1 9A 80), U+2000 to U+200A (E2 80 80 to
    E2 80 8A), U+2028, U+2029, U+202F (E2 80 A8, A9, AF), U+205F
    (E2 81 9F) and U+3000 (E3 80 80). *)
Definition is_space3 (a b c : ascii) : bool :=
  let a := nat_of_ascii a in
  let b := nat_of_ascii b in
  let c := nat_of_ascii c in
  ((a =? 225)%nat && (b =? 154)%nat && (c =? 128)%nat)
  || ((a =? 226)%nat && (b =? 128)%nat
      && (((128 <=? c)%nat && (c <=? 138)%nat)
          || (c =? 168)%nat || (c =? 169)%nat || (c =? 175)%nat))
  || ((a =? 226)%nat && (b =? 129)%nat && (c =? 159)%nat)
  || ((a =? 227)%nat && (b =? 128)%nat && (c =? 128)%nat).

(** The string is one such character. *)
Definition is_whitespace (s : string) : bool :=
  match s with
  | String a EmptyString => is_space a
  | String a (String b EmptyString) => is_space2 a b
  | String a (String b (String c EmptyString)) => is_space3 a b c
  | _ => false
  end.

(** [s.lstrip()] *)
Fixpoint lstrip (s : string) : string :=
  match s with
  | EmptyString => EmptyString
  | String a r =>
      if is_space a then lstrip r
      else
        match r with
        | EmptyString => s
        | String b r' =>
            if is_space2 a b then lstrip r'
            else
              match r' with
              | EmptyString => s
              | String c r'' => if is_space3 a b c then lstrip r'' else s
              end
        end
  end.

(** [s.rstrip()]: what is left of the tail is looked at together with
    the byte before it. *)
Fixpoint rstrip (s : string) : string :=
  match s with
  | EmptyString => EmptyString
  | String a r =>
      let t := String a (rstrip r) in
      if is_whitespace t then EmptyString else t
  end.

(** [s.strip()] *)
Definition strip (s : string) : string := rstrip (lstrip s).

(** [sub in s] *)
Fixpoint contains (sub s : string) : bool :=
  String.prefix sub s ||
  match s with
  | EmptyString => false
  | String _ r => contains sub r
  end.

(** [s.startswith(p)] and [s.endswith(p)] *)
Definition startswith (p s : string) : bool := String.prefix p s.

Fixpoint endswith (p s : string) : bool :=
  String.eqb p s ||
  match s with
  | EmptyString => false
  | String _ r => endswith p r
  end.

(** [s.rfind(c)], [None] standing for -1 *)
Fixpoint rfind (c : ascii) (s : string) : option nat :=
  match s with
  | EmptyString => None
  | String a r =>
      match rfind c r with
      | Some i => Some (S i)
      | None => if Ascii.eqb a c then Some 0%nat else None
      end
  end.

(** [s[i:]] *)
Fixpoint drop (i : nat) (s : string) : string :=
  match i, s with
  | O, _ => s
  | S i', String _ r => drop i' r
  | S _, EmptyString => EmptyString
  end.

(** truthiness of a [str] *)
Definition nonempty (s : string) : bool :=
  match s with EmptyString => false | _ => true end.

End PyStr.

(** ** [os.path] and [pathlib] (POSIX flavour) *)

Module PyPath.
Import PyStr.

Definition slash : ascii := "/"%char.
Definition dot : ascii := "."%char.

(** [os.path.basename(p)]: [p[p.rfind('/') + 1:]] *)
Definition basename (p : string) : string :=
  match rfind slash p with
  | Some i => drop (S i) p
  | None => p
  end.

(** [os.path.isabs(p)] *)
Definition isabs (p : string) : bool := startswith "/" p.

(** [os.path.join(a, b)] *)
Definition join (a b : string) : string :=
  if startswith "/" b then b
  else if negb (nonempty a) || endswith "/" a then a ++ b
  else a ++ "/" ++ b.

(** [PurePath.name] of a path given by its [str]: the final component. *)
Definition name (p : string) : string := basename p.

(** [PurePath.suffix]: [name[i:]] with [i = name.rfind('.')] when
    [0 < i < len(name) - 1], else the empty string. *)
Definition suffix (p : string) : string :=
  let n := name p in
  match rfind dot n with
  | Some i => if (0 <? i)%nat && (S i <? String.length n)%nat then drop i n else ""
  | None => ""
  end.

End PyPath.

(** ** Python values, exceptions and the effect monad *)

(** The values [json.load] can return (floats left out), which are also
    the values a configuration entry can hold. *)
Inductive pyval : Type :=
| PNone
| PBool (b : bool)
| PInt (n : Z)
| PStr (s : string)
| PList (l : list pyval)
| PDict (items : list (string * pyval)).

(** Python truthiness, as used by [or], [not] and [if]. *)
Definition truthy (v : pyval) : bool :=
  match v with
  | PNone => false
  | PBool b => b
  | PInt n => negb (n =? 0)
  | PStr s => PyStr.nonempty s
  | PList l => match l with [] => false | _ => true end
  | PDict items => match items with [] => false | _ => true end
  end.

(** [a or b] *)
Definition py_or (a b : pyval) : pyval := if truthy a then a else b.

(** The interpreter does not write an [int] of more than this many
    digits (the default of [sys.set_int_max_str_digits]). *)
Definition MAX_STR_DIGITS : Z := 4300.

(** Can [str(v)] be built? *)
Fixpoint printable (v : pyval) : bool :=
  match v with
  | PInt n => Z.abs n <? 10 ^ MAX_STR_DIGITS
  | PList l => forallb printable l
  | PDict items => forallb (fun kv => printable kv.2) items
  | _ => true
  end.

(** Exceptions deriving from [Exception] that the script can meet.
    [IOError] is [OSError] with its subclasses ([PermissionError],
    ...). *)
Inductive error : Type :=
| TypeError | ValueError | IOError | AttributeError | CsvError | WebDriverError
| EOFError | OverflowError.

(** Everything that can be raised: [KeyboardInterrupt] and [SystemExit]
    derive from [BaseException] only, so [except Exception] lets them
    through. *)
Inductive exn : Type :=
| Err (e : error)
| KeyboardInterrupt
| SystemExit (code : Z).

Inductive res (A : Type) : Type :=
| Ret (a : A)
| Raise (x : exn).
Arguments Ret {A} a.
Arguments Raise {A} x.

Inductive field : Type := Title | Description | Link.

Inductive prompt : Type :=
| AskTitle | AskDescription | AskLink | AskBoard | AskLoggedIn.

Inductive level : Type := INFO | WARNING | ERROR.

(** Log records, one constructor per [logger] call of the script. *)
Inductive message : Type :=
| ConfigLoaded (path : string)
| ConfigNotRead (e : error)
| MetadataLoaded (n : nat) (path : string)
| CsvNotRead (e : error)
| FolderNotFound (folder : string)
| NoImagesFound (folder : string)
| FoundImages (n : nat) (folder : string)
| StartingChrome
| ChromeFailed
| ChromeHint
| LoginPageOpened
| LoginDetected
| LoginNotConfirmed
| CouldNotFill (f : field)
| BoardButtonNotFound
| CouldNotSelectBoard (board : pyval)
| PublishTimeout
| Posting (i total : nat) (filename : string)
| PinPosted (i total : nat)
| PinFailed (i total : nat) (filename : string)
| InterruptedByUser
| BrowserClosed.

(** Lines written by [print]. *)
Inductive output : Type :=
| Banner
| Blank
| PleaseLogIn
| YouHaveSeconds (timeout : pyval)
| EnterDefaults
| LeaveBlank
| StartingToPost (total : nat)
| Rule
| Completed (successful failed total : nat).

(** Observable actions, in program order. *)
Inductive event : Type :=
| Log (l : level) (m : message)
| Print (o : output)
| Input (p : prompt)
| LaunchChrome (headless : bool)
| Get (url : string)
| SendFile (path : string)
| Fill (f : field) (text : string)
| SearchBoard (board : pyval)
| ClickBoard
| ClickSave
| Quit.

Record state : Type := mkState { clock : Z; trace : list event }.

Definition M (A : Type) : Type := state -> res A * state.

Definition ret {A} (a : A) : M A := fun s => (Ret a, s).

Definition bind {A B} (m : M A) (k : A -> M B) : M B :=
  fun s => match m s with
           | (Ret a, s') => k a s'
           | (Raise x, s') => (Raise x, s')
           end.

Definition raise {A} (x : exn) : M A := fun s => (Raise x, s).

Definition emit (e : event) : M unit :=
  fun s => (Ret tt, mkState (clock s) (trace s ++ [e])).

(** [time.time()] and [time.sleep(d)] on an idealised clock: only
    sleeping takes time. *)
Definition time_time : M Z := fun s => (Ret (clock s), s).

Definition advance (d : Z) : M unit :=
  fun s => (Ret tt, mkState (clock s + d) (trace s)).

(** [try: m  except <classes>: h]; [handles] says which raised values
    the clause matches. *)
Definition try_except {A} (m : M A) (handles : exn -> bool) (h : exn -> M A) : M A :=
  fun s => match m s with
           | (Ret a, s') => (Ret a, s')
           | (Raise x, s') => if handles x then h x s' else (Raise x, s')
           end.

(** [try: m  finally: f] *)
Definition try_finally {A} (m : M A) (f : M unit) : M A :=
  fun s => match m s with
           | (r, s') =>
               match f s' with
               | (Ret _, s'') => (r, s'')
               | (Raise x, s'') => (Raise x, s'')
               end
           end.

Declare Scope py_scope.
Delimit Scope py_scope with py.
Notation "x <- m ;; k" := (bind m (fun x => k))
  (at level 100, m at next level, right associativity) : py_scope.
Notation "m ;;; k" := (bind m (fun _ => k))
  (at level 100, right associativity) : py_scope.
Local Open Scope py_scope.

(** [except Exception] *)
Definition is_Exception (x : exn) : bool :=
  match x with Err _ => true | _ => false end.

(** [except KeyboardInterrupt] *)
Definition is_KeyboardInterrupt (x : exn) : bool :=
  match x with KeyboardInterrupt => true | _ => false end.

Definition logger_info (m : message) : M unit := emit (Log INFO m).
Definition logger_warning (m : message) : M unit := emit (Log WARNING m).
Definition logger_error (m : message) : M unit := emit (Log ERROR m).
Definition print (o : output) : M unit := emit (Print o).
Definition sys_exit {A} (code : Z) : M A := raise (SystemExit code).

(** [f"{v}"]: the text is not modelled, only whether it can be
    built. *)
Definition format (v : pyval) : M unit :=
  if printable v then ret tt else raise (Err ValueError).

(** A browser call either completes, raises a WebDriver exception, or is
    cut by the operator's Ctrl-C.  Ctrl-C is modelled where the script
    waits for the outside: at the browser calls and at the prompts. *)
Inductive reply (A : Type) : Type :=
| Done (a : A)
| Fails
| Interrupts.
Arguments Done {A} a.
Arguments Fails {A}.
Arguments Interrupts {A}.

Definition call {A} (r : reply A) : M A :=
  match r with
  | Done a => ret a
  | Fails => raise (Err WebDriverError)
  | Interrupts => raise KeyboardInterrupt
  end.

(** ** Constants *)

Definition PINTEREST_LOGIN_URL : string := "https://www.pinterest.com/login/".
Definition PINTEREST_PIN_BUILDER_URL : string := "https://www.pinterest.com/pin-builder/".
Definition SUPPORTED_EXTENSIONS : list string :=
  [".jpg"; ".jpeg"; ".png"; ".gif"; ".webp"; ".bmp"; ".tiff"].
Definition DEFAULT_IMAGES_FOLDER : string := "bulk_post_pinterest".
Definition DEFAULT_CONFIG_FILE : string := "config.json".
Definition DEFAULT_TIMEOUT : Z := 30.

(** ** Configuration: [load_config] *)

(** Dictionary keys.  [True] and [1] (and [False] and [0]) are the same
    key in Python, so booleans are read as integers. *)
Inductive pykey : Type :=
| KNone
| KInt (n : Z)
| KStr (s : string).

#[global] Instance pykey_eq_dec : EqDecision pykey.
Proof. solve_decision. Defined.

#[global] Instance pykey_countable : Countable pykey.
Proof.
  refine (inj_countable'
    (fun k => match k with
              | KNone => inl tt
              | KInt n => inr (inl n)
              | KStr s => inr (inr s)
              end)
    (fun x => match x with
              | inl _ => KNone
              | inr (inl n) => KInt n
              | inr (inr s) => KStr s
              end) _).
  intros []; reflexivity.
Defined.

(** The key a value hashes to; lists and dicts are unhashable. *)
Definition as_key (v : pyval) : option pykey :=
  match v with
  | PNone => Some KNone
  | PBool b => Some (KInt (if b then 1 else 0))
  | PInt n => Some (KInt n)
  | PStr s => Some (KStr s)
  | PList _ | PDict _ => None
  end.

(** The distinct keys of a dict's items, in insertion order: [list(d)]. *)
Fixpoint dict_keys (seen : list string) (items : list (string * pyval)) : list string :=
  match items with
  | [] => []
  | (k, _) :: rest =>
      if bool_decide (k ∈ seen) then dict_keys seen rest
      else k :: dict_keys (k :: seen) rest
  end.

(** The characters of a string, each as a one-character [str]. *)
Fixpoint chars (s : string) : list pyval :=
  match s with
  | EmptyString => []
  | String c r => PStr (String c EmptyString) :: chars r
  end.

(** What [dict.update] makes of one element of a non-mapping argument:
    a two-element sequence, else [TypeError] (not a sequence) or
    [ValueError] (wrong length). *)
Definition as_pair (item : pyval) : error + (pyval * pyval) :=
  let two (l : list pyval) :=
    match l with
    | [k; v] => inr (k, v)
    | _ => inl ValueError
    end in
  match item with
  | PNone | PBool _ | PInt _ => inl TypeError
  | PStr s => two (chars s)
  | PList l => two l
  | PDict items => two (map PStr (dict_keys [] items))
  end.

Abbreviation config := (gmap pykey pyval).

(** [d.update(items)] for the items of a mapping. *)
Definition update_items (d : config) (items : list (string * pyval)) : config :=
  foldl (fun acc kv => <[KStr kv.1 := kv.2]> acc) d items.

(** [d.update(seq)] for a sequence of pairs: entries are stored one by
    one, so an error leaves the earlier ones in place. *)
Fixpoint update_pairs (d : config) (seq : list pyval) : config * option error :=
  match seq with
  | [] => (d, None)
  | item :: rest =>
      match as_pair item with
      | inl e => (d, Some e)
      | inr (k, v) =>
          match as_key k with
          | None => (d, Some TypeError)
          | Some key => update_pairs (<[key := v]> d) rest
          end
      end
  end.

(** [d.update(other)]: the dict after the call and the exception it
    raised, if any. *)
Definition dict_update (d : config) (other : pyval) : config * option error :=
  match other with
  | PDict items => (update_items d items, None)
  | PNone | PBool _ | PInt _ => (d, Some TypeError)
  | PStr s => update_pairs d (chars s)
  | PList l => update_pairs d l
  end.

(** [d.get(k, default)] *)
Definition dict_get (d : config) (k : string) (default : pyval) : pyval :=
  match d !! KStr k with
  | Some v => v
  | None => default
  end.

(** What is found at the configuration path. *)
Inductive config_source : Type :=
| ConfigAbsent                  (* [os.path.isfile] is false *)
| ConfigUnreadable (e : error)  (* [open] or [json.load] raises [e] *)
| ConfigDocument (v : pyval).   (* [json.load] returns [v] *)

Definition defaults : config :=
  <[KStr "board_name" := PStr ""]>
  (<[KStr "login_wait_seconds" := PInt 60]>
  (<[KStr "delay_between_pins" := PInt 2]>
  (<[KStr "images_folder" := PStr DEFAULT_IMAGES_FOLDER]>
  (<[KStr "headless" := PBool false]> ∅)))).

(** [except (ValueError, IOError)] *)
Definition is_ValueError_or_IOError (x : exn) : bool :=
  match x with
  | Err ValueError | Err IOError => true
  | _ => false
  end.

Definition error_of (x : exn) : error :=
  match x with Err e => e | _ => TypeError end.

(** [load_config(config_path)], lines 78-95.  The dict [defaults] is
    updated in place, so the handler returns whatever [update] had
    stored before it raised. *)
Definition load_config (read : string -> config_source) (config_path : string) : M config :=
  if PyStr.nonempty config_path then
    match read config_path with
    | ConfigAbsent => ret defaults
    | ConfigUnreadable e =>
        try_except (raise (Err e)) is_ValueError_or_IOError
          (fun x => logger_warning (ConfigNotRead (error_of x));;; ret defaults)
    | ConfigDocument user_config =>
        match dict_update defaults user_config with
        | (d, None) => logger_info (ConfigLoaded config_path);;; ret d
        | (d, Some e) =>
            try_except (raise (Err e)) is_ValueError_or_IOError
              (fun x => logger_warning (ConfigNotRead (error_of x));;; ret d)
        end
    end
  else ret defaults.

(** ** Per-image metadata: [load_csv_metadata] *)

(** A row as [csv.DictReader] yields it: column name to cell, where a
    cell is [None] when the line has fewer fields than the header. *)
Abbreviation csv_row := (gmap string (option string)).

(** What is found at the CSV path: nothing, or the rows the reader
    yields, possibly cut short by an exception ([open] failing is the
    empty list of rows followed by [IOError]). *)
Inductive csv_source : Type :=
| CsvAbsent
| CsvStream (rows : list csv_row) (failure : option error).

Record pin_meta : Type := mkMeta {
  meta_title : string;
  meta_description : string;
  meta_link : string;
  meta_board : string
}.

Abbreviation metadata := (gmap string pin_meta).

(** [row.get(column, "").strip()]; on a [None] cell [.strip] does not
    exist. *)
Definition cell (row : csv_row) (column : string) : error + string :=
  match row !! column with
  | None => inr (PyStr.strip "")
  | Some (Some s) => inr (PyStr.strip s)
  | Some None => inl AttributeError
  end.

(** The body of the [for row in reader] loop, lines 112-119. *)
Definition load_row (md : metadata) (row : csv_row) : error + metadata :=
  match cell row "filename" with
  | inl e => inl e
  | inr name =>
      let key := PyPath.basename name in
      if PyStr.nonempty key then
        match cell row "title" with
        | inl e => inl e
        | inr title =>
        match cell row "description" with
        | inl e => inl e
        | inr description =>
        match cell row "link" with
        | inl e => inl e
        | inr link =>
        match cell row "board" with
        | inl e => inl e
        | inr board => inr (<[key := mkMeta title description link board]> md)
        end end end end
      else inr md
  end.

(** The loop itself: the mapping built so far and the exception that
    ended it, if any. *)
Fixpoint load_rows (md : metadata) (rows : list csv_row) (failure : option error)
  : metadata * option error :=
  match rows with
  | [] => (md, failure)
  | row :: rest =>
      match load_row md row with
      | inl e => (md, Some e)
      | inr md' => load_rows md' rest failure
      end
  end.

(** [except (csv.Error, ValueError, IOError)] *)
Definition is_csv_read_error (x : exn) : bool :=
  match x with
  | Err CsvError | Err ValueError | Err IOError => true
  | _ => false
  end.

(** [load_csv_metadata(csv_path)], lines 98-123; [csv_path] is [None]
    when [--csv] is not given. *)
Definition load_csv_metadata (read : string -> csv_source) (csv_path : option string)
  : M metadata :=
  match csv_path with
  | None => ret ∅
  | Some path =>
      if PyStr.nonempty path then
        match read path with
        | CsvAbsent => ret ∅
        | CsvStream rows failure =>
            match load_rows ∅ rows failure with
            | (md, None) => logger_info (MetadataLoaded (size md) path);;; ret md
            | (md, Some e) =>
                try_except (raise (Err e)) is_csv_read_error
                  (fun x => logger_warning (CsvNotRead (error_of x));;; ret md)
            end
        end
      else ret ∅
  end.

(** ** Image discovery: [discover_images] *)

(** A child of the images folder: [str(p)] and [p.is_file()]. *)
Record dir_entry : Type := mkEntry {
  entry_path : string;
  entry_is_file : bool
}.

(** [p.is_file() and p.suffix.lower() in SUPPORTED_EXTENSIONS] *)
Definition is_image (p : dir_entry) : bool :=
  entry_is_file p
  && bool_decide (PyStr.lower (PyPath.suffix (entry_path p)) ∈ SUPPORTED_EXTENSIONS).

(** [sorted] on strings, by insertion.  The order is total and
    antisymmetric, so the result does not depend on the algorithm. *)
Fixpoint insert_sorted (x : string) (l : list string) : list string :=
  match l with
  | [] => [x]
  | y :: r => if String.leb x y then x :: l else y :: insert_sorted x r
  end.

Definition sorted (l : list string) : list string :=
  foldr insert_sorted [] l.

(** What probing a folder gives: [is_dir()] is false; or the children
    [iterdir()] yields, each with its [is_file()]; or the [OSError]
    that [is_dir()], [iterdir()] or [is_file()] raises (a directory
    that cannot be listed or searched). *)
Inductive listing : Type :=
| NotADirectory
| Listed (children : list dir_entry)
| Unreadable (e : error).

(** [discover_images(folder_path)], lines 126-143.  Nothing guards the
    probing of the folder, and nothing is logged before it is over. *)
Definition discover_images (iterdir : string -> listing)
    (folder_path : string) : M (list string) :=
  match iterdir folder_path with
  | NotADirectory =>
      logger_error (FolderNotFound folder_path);;;
      sys_exit 1
  | Unreadable e => raise (Err e)
  | Listed children =>
      let images := sorted (entry_path <$> filter (fun p => is_image p = true) children) in
      match images with
      | [] =>
          logger_error (NoImagesFound folder_path);;;
          sys_exit 1
      | _ =>
          logger_info (FoundImages (length images) folder_path);;;
          ret images
      end
  end.

(** ** Browser session: [create_driver] *)

(** [create_driver(headless)], lines 146-165; [starts] tells how the
    driver download and the start of Chrome go.  Ctrl-C during them is
    not an [Exception] and passes the handler. *)
Definition create_driver (starts : reply unit) (headless : bool) : M unit :=
  try_except
    (emit (LaunchChrome headless);;;
     call starts)
    is_Exception
    (fun _ =>
       logger_error ChromeFailed;;;
       logger_info ChromeHint;;;
       sys_exit 1).

(** ** The outside world *)

(** The namespace [parse_args()] returns. *)
Record args : Type := mkArgs {
  args_config : string;
  args_csv : option string;
  args_headless : bool;
  args_board : option string;
  args_images : option string
}.

(** How the site answers during one pin's posting sequence, one entry
    per guarded region of the script. *)
Record pin_replies : Type := mkPin {
  r_get : reply unit;              (* [driver.get(PINTEREST_PIN_BUILDER_URL)] *)
  r_builder : reply unit;          (* [wait_for_element], line 441 *)
  r_file_input : reply unit;       (* [wait.until], line 224 *)
  r_send_file : reply unit;        (* [file_input.send_keys], line 227 *)
  r_field : field -> reply unit;   (* the three [try] bodies of [fill_pin_details] *)
  r_dropdown : reply bool;         (* lines 274-276: is the dropdown button in the page? *)
  r_open : reply unit;             (* lines 281-285: find and click it *)
  r_search : reply unit;           (* lines 287-288: search field *)
  r_first_board : reply bool;      (* lines 291-295: first result found (and clicked)? *)
  r_save_button : reply bool;      (* lines 298-302: save button found (and clicked)? *)
  r_saving : nat -> reply bool     (* k-th read of the page: is "Saving Pin..." shown? *)
}.

(** What [parse_args()] makes of the command line: a namespace, or a
    usage error ([sys.exit(2)]), or the help text asked for by [-h]
    ([sys.exit(0)]).  What [argparse] itself writes is not recorded. *)
Inductive parsing : Type := Parsed | UsageError | HelpShown.

(** What [input()] meets at a prompt: a line, Ctrl-C, or the end of
    the input. *)
Inductive keys : Type := Line | CtrlC | EndOfInput.

Record world : Type := mkWorld {
  command_line : parsing;
  cli : args;                      (* the namespace, when the command line is parsed *)
  script_dir : string;             (* [os.path.dirname(os.path.abspath(__file__))] *)
  read_config : string -> config_source;
  read_csv : string -> csv_source;
  iterdir : string -> listing;
  keyboard : prompt -> keys;
  operator : prompt -> string;     (* the line the operator types at each prompt *)
  chrome_starts : reply unit;
  login_page : reply unit;         (* [driver.get(PINTEREST_LOGIN_URL)] *)
  current_url : nat -> reply string;  (* k-th read of [driver.current_url] *)
  pin_site : nat -> pin_replies;   (* the site during the i-th pin, from 1 *)
  can_sleep : Z -> bool            (* can the platform sleep that many seconds? *)
}.

(** [parser.parse_args()], line 366. *)
Definition parse_args (w : world) : M args :=
  match command_line w with
  | Parsed => ret (cli w)
  | UsageError => sys_exit 2
  | HelpShown => sys_exit 0
  end.

(** [input(prompt)]; no [try] of the script is around a prompt, the
    one of the login gate apart. *)
Definition input (w : world) (p : prompt) : M string :=
  emit (Input p);;;
  match keyboard w p with
  | Line => ret (operator w p)
  | CtrlC => raise KeyboardInterrupt
  | EndOfInput => raise (Err EOFError)
  end.

(** An [int] is turned into a [float] when its nearest one is finite:
    below [2^1024 - 2^970] in absolute value. *)
Definition FLOAT_LIMIT : Z := 2 ^ 1024 - 2 ^ 970.

Definition fits_float (n : Z) : bool := (- FLOAT_LIMIT <? n) && (n <? FLOAT_LIMIT).

(** The number of seconds [v] that [time.time() + v] adds, as the
    clock's milliseconds: [TypeError] for what cannot be added to a
    [float], [OverflowError] for an [int] beyond the floats. *)
Definition seconds (v : pyval) : M Z :=
  match v with
  | PInt n => if fits_float n then ret (1000 * n) else raise (Err OverflowError)
  | PBool b => ret (if b then 1000 else 0)
  | _ => raise (Err TypeError)
  end.

(** [time.sleep] keeps its argument as a 64-bit count of nanoseconds,
    which holds less than this many seconds. *)
Definition SLEEP_LIMIT : Z := 9223372037.

(** [time.sleep(v)]: [TypeError] for what is not a number,
    [OverflowError] for a number of seconds that does not fit,
    [ValueError] for a negative one; the sleep itself fails with
    [OSError] where the platform's clock cannot hold its end, which
    [can_sleep] tells. *)
Definition time_sleep (can_sleep : Z -> bool) (v : pyval) : M unit :=
  let sleep (n : Z) : M unit :=
    if (n <=? - SLEEP_LIMIT) || (SLEEP_LIMIT <=? n) then raise (Err OverflowError)
    else if n <? 0 then raise (Err ValueError)
    else if can_sleep n then advance (1000 * n)
    else raise (Err IOError) in
  match v with
  | PInt n => sleep n
  | PBool b => sleep (if b then 1 else 0)
  | _ => raise (Err TypeError)
  end.

(** The rounds a [while time.time() < deadline] loop that sleeps
    [interval] per round makes when started at [now] and never left
    from inside.  The polling loops are given one round more: it is
    their test of the deadline that ends them. *)
Definition rounds_left (deadline now interval : Z) : nat :=
  Z.to_nat ((deadline - now + interval - 1) / interval).

(** ** Login gate: [wait_for_login] *)

(** The polling loop, lines 192-197, for at most [rounds] rounds:
    [true] when it returns from inside (login detected), [false] when
    the deadline ends it. *)
Fixpoint login_poll (rounds : nat) (w : world) (deadline : Z) (k : nat) : M bool :=
  match rounds with
  | O => ret false
  | S rounds' =>
      now <- time_time;;
      if now <? deadline then
        url <- call (current_url w k);;
        if negb (PyStr.contains "/login" url) then
          logger_info LoginDetected;;; ret true
        else
          advance 1000;;; login_poll rounds' w deadline (S k)
      else ret false
  end.

(** [wait_for_login(driver, timeout_seconds)], lines 181-204. *)
Definition wait_for_login (w : world) (timeout_seconds : pyval) : M bool :=
  emit (Get PINTEREST_LOGIN_URL);;;
  call (login_page w);;;
  logger_info LoginPageOpened;;;
  print Blank;;;
  print PleaseLogIn;;;
  format timeout_seconds;;;
  print (YouHaveSeconds timeout_seconds);;;
  print Blank;;;
  timeout <- seconds timeout_seconds;;
  now <- time_time;;
  let deadline := now + timeout in
  detected <- login_poll (S (rounds_left deadline now 1000)) w deadline 0;;
  if detected then ret true
  else
    answer <- input w AskLoggedIn;;
    let choice := PyStr.lower (PyStr.strip answer) in
    if String.eqb choice "y" then ret true
    else logger_error LoginNotConfirmed;;; ret false.

(** ** Posting one pin *)

(** [upload_image(driver, image_path)], lines 221-228; [SendFile]
    carries the argument of [os.path.abspath]. *)
Definition upload_image (site : pin_replies) (image_path : string) : M unit :=
  call (r_file_input site);;;
  emit (SendFile image_path);;;
  call (r_send_file site);;;
  advance 2000.

(** One [try] block of [fill_pin_details]; the description block
    sleeps one more second after its click. *)
Definition fill_field (site : pin_replies) (f : field) (text : string) : M unit :=
  try_except
    (call (r_field site f);;;
     advance 500;;;
     (match f with Description => advance 1000 | _ => ret tt end);;;
     emit (Fill f text))
    is_Exception
    (fun _ => logger_warning (CouldNotFill f)).

(** [fill_pin_details(driver, title, description, link)], lines 231-268. *)
Definition fill_pin_details (site : pin_replies) (title description link : string) : M unit :=
  fill_field site Title title;;;
  fill_field site Description description;;;
  fill_field site Link link.

(** [select_board(driver, board_name)], lines 271-306. *)
Definition select_board (site : pin_replies) (board_name : pyval) : M unit :=
  try_except
    (found <- call (r_dropdown site);;
     if negb found then logger_warning BoardButtonNotFound
     else
       call (r_open site);;;
       advance 500;;;
       advance 1000;;;
       call (r_search site);;;
       emit (SearchBoard board_name);;;
       advance 2000;;;
       first_board <- call (r_first_board site);;
       (if first_board then emit ClickBoard;;; advance 1000 else ret tt);;;
       save_btn <- call (r_save_button site);;
       (if save_btn then emit ClickSave;;; advance 1000 else ret tt))
    is_Exception
    (fun _ => logger_warning (CouldNotSelectBoard board_name)).

(** The polling loop of [wait_for_publish], lines 312-318. *)
Fixpoint publish_poll (rounds : nat) (site : pin_replies) (deadline : Z) (k : nat) : M bool :=
  match rounds with
  | O => ret false
  | S rounds' =>
      now <- time_time;;
      if now <? deadline then
        loading <- call (r_saving site k);;
        if negb loading then ret true
        else advance 2000;;; publish_poll rounds' site deadline (S k)
      else ret false
  end.

(** [wait_for_publish(driver, timeout=60)], lines 309-320. *)
Definition wait_for_publish (site : pin_replies) (timeout : Z) : M bool :=
  now <- time_time;;
  let deadline := now + 1000 * timeout in
  published <- publish_poll (S (rounds_left deadline now 2000)) site deadline 0;;
  if published then ret true
  else logger_warning PublishTimeout;;; ret false.

(** [post_single_pin], lines 323-330. *)
Definition post_single_pin (site : pin_replies) (image_path title description link : string)
    (board_name : pyval) : M unit :=
  upload_image site image_path;;;
  fill_pin_details site title description link;;;
  (if truthy board_name then select_board site board_name else ret tt);;;
  advance 2000;;;
  wait_for_publish site 60;;;
  ret tt.

(** ** The main flow *)

(** The values one pin is posted with. *)
Record pin_values : Type := mkValues {
  pin_title : string;
  pin_description : string;
  pin_link : string;
  pin_board : pyval
}.

(** The run-level defaults: what the prompts (or their absence) and the
    board option leave in [default_title], [default_description],
    [default_link] and [board_name]. *)
Record run_defaults : Type := mkDefaults {
  default_title : string;
  default_description : string;
  default_link : string;
  board_name : pyval
}.

(** [meta.get(column) or default] for a string default; [meta] is [{}]
    when the image has no row. *)
Definition get_or (meta : option pin_meta) (column : pin_meta -> string) (default : string)
  : string :=
  match meta with
  | Some row => if PyStr.nonempty (column row) then column row else default
  | None => default
  end.

(** [meta.get("board") or board_name] *)
Definition get_board_or (meta : option pin_meta) (default : pyval) : pyval :=
  match meta with
  | Some row => if PyStr.nonempty (meta_board row) then PStr (meta_board row) else default
  | None => default
  end.

(** Lines 421-427: the values of [title], [description], [link] and
    [pin_board] for one image. *)
Definition resolve (csv_metadata : metadata) (d : run_defaults) (image_path : string)
  : pin_values :=
  let filename := PyPath.basename image_path in
  let meta := csv_metadata !! filename in
  mkValues (get_or meta meta_title (default_title d))
           (get_or meta meta_description (default_description d))
           (get_or meta meta_link (default_link d))
           (get_board_or meta (board_name d)).

(** The [try] body of the loop up to the call of [post_single_pin],
    lines 436-445. *)
Definition post_body (w : world) (cfg : config) (total i : nat) (image_path : string)
    (v : pin_values) : M unit :=
  let site := pin_site w i in
  emit (Get PINTEREST_PIN_BUILDER_URL);;;
  call (r_get site);;;
  time_sleep (can_sleep w) (dict_get cfg "delay_between_pins" (PInt 2));;;
  call (r_builder site);;;
  post_single_pin site image_path (pin_title v) (pin_description v) (pin_link v) (pin_board v).

(** One iteration of the loop, lines 421-452: [true] when the pin is
    counted as posted, [false] when it is counted as failed. *)
Definition post_one (w : world) (cfg : config) (csv_metadata : metadata) (d : run_defaults)
    (total i : nat) (image_path : string) : M bool :=
  let filename := PyPath.basename image_path in
  let v := resolve csv_metadata d image_path in
  logger_info (Posting i total filename);;;
  try_except
    (post_body w cfg total i image_path v;;;
     logger_info (PinPosted i total);;;
     ret true)
    is_Exception
    (fun _ => logger_error (PinFailed i total filename);;; ret false).

(** The [for i, image_path in enumerate(images, start=i)] loop with its
    two counters. *)
Fixpoint post_loop (w : world) (cfg : config) (csv_metadata : metadata) (d : run_defaults)
    (total i : nat) (images : list string) (successful failed : nat) : M (nat * nat) :=
  match images with
  | [] => ret (successful, failed)
  | image_path :: rest =>
      posted <- post_one w cfg csv_metadata d total i image_path;;
      if posted then post_loop w cfg csv_metadata d total (S i) rest (S successful) failed
      else post_loop w cfg csv_metadata d total (S i) rest successful (S failed)
  end.

Definition opt_str (o : option string) : pyval :=
  match o with
  | Some s => PStr s
  | None => PNone
  end.

(** A value used where [os.path] wants a [str]. *)
Definition as_path (v : pyval) : M string :=
  match v with
  | PStr s => ret s
  | _ => raise (Err TypeError)
  end.

(** Lines 388-402: the prompts for the defaults. *)
Definition collect_defaults (w : world) (csv_metadata : metadata) (board : pyval)
  : M run_defaults :=
  d <-
    (if bool_decide (csv_metadata = ∅) then
       print EnterDefaults;;;
       print LeaveBlank;;;
       title <- input w AskTitle;;
       description <- input w AskDescription;;
       link <- input w AskLink;;
       print Blank;;;
       ret (mkDefaults (PyStr.strip title) (PyStr.strip description) (PyStr.strip link) board)
     else ret (mkDefaults "" "" "" board));;
  if negb (truthy board) then
    answer <- input w AskBoard;;
    print Blank;;;
    ret (mkDefaults (default_title d) (default_description d) (default_link d)
                    (PStr (PyStr.strip answer)))
  else ret d.

(** Lines 408-464: the guarded posting phase. *)
Definition session (w : world) (cfg : config) (images : list string)
    (csv_metadata : metadata) (d : run_defaults) : M unit :=
  try_finally
    (try_except
       (logged_in <- wait_for_login w (dict_get cfg "login_wait_seconds" (PInt 60));;
        (if negb logged_in then emit Quit;;; sys_exit 1 else ret tt);;;
        let total := length images in
        print (StartingToPost total);;;
        counts <- post_loop w cfg csv_metadata d total 1 images 0 0;;
        print Rule;;;
        print (Completed counts.1 counts.2 total);;;
        print Rule)
       is_KeyboardInterrupt
       (fun _ => logger_info InterruptedByUser))
    (emit Quit;;;
     logger_info BrowserClosed).

(** What the first part of [main] hands to the rest. *)
Record prepared : Type := mkPrepared {
  run_config : config;
  run_headless : bool;
  run_board : pyval;
  run_images : list string;
  run_metadata : metadata
}.

(** Lines 339-385 of [main]: banner, configuration, options, image
    discovery, metadata. *)
Definition prepare (w : world) : M prepared :=
  print Banner;;;
  args <- parse_args w;;
  cfg <- load_config (read_config w) (args_config args);;
  let headless := py_or (PBool (args_headless args)) (dict_get cfg "headless" (PBool false)) in
  let images_folder :=
    py_or (opt_str (args_images args))
          (dict_get cfg "images_folder" (PStr DEFAULT_IMAGES_FOLDER)) in
  let board := py_or (opt_str (args_board args)) (dict_get cfg "board_name" (PStr "")) in
  let csv_path := args_csv args in
  folder <- as_path images_folder;;
  let folder := if negb (PyPath.isabs folder) then PyPath.join (script_dir w) folder else folder in
  images <- discover_images (iterdir w) folder;;
  csv_metadata <- load_csv_metadata (read_csv w) csv_path;;
  ret (mkPrepared cfg (truthy headless) board images csv_metadata).

(** Lines 387-464 of [main]: prompts, browser, guarded posting phase. *)
Definition post_all (w : world) (p : prepared) : M unit :=
  d <- collect_defaults w (run_metadata p) (run_board p);;
  logger_info StartingChrome;;;
  create_driver (chrome_starts w) (run_headless p);;;
  session w (run_config p) (run_images p) (run_metadata p) d.

(** [main()], lines 338-464. *)
Definition main (w : world) : M unit :=
  p <- prepare w;;
  post_all w p.

(** The program started on a fresh clock and an empty trace. *)
Definition initial : state := mkState 0 [].

Definition run (w : world) : res unit * state := main w initial.

(** The status the process ends with: [0] when [main] returns, the
    argument of [sys.exit], and the interpreter's own when an
    exception is left unhandled: [1] after the traceback, and for
    [KeyboardInterrupt] the end by SIGINT, which a shell reports as
    [130]. *)
Definition exit_status (r : res unit) : Z :=
  match r with
  | Ret _ => 0
  | Raise (SystemExit code) => code
  | Raise (Err _) => 1
  | Raise KeyboardInterrupt => 130
  end.

(** ** Locating a parsed element in the browser: [xpath_soup] *)

(** A parsed page as BeautifulSoup holds it: tags with their attributes
    and contents, and strings; the [BeautifulSoup] object is the tag
    named "[document]".  An attribute's value is kept as one string.
    [==] on tags compares name, attributes and contents, and on
    strings their text, which is the equality of this type. *)
Inductive soup : Type :=
| Tag (name : string) (attrs : gmap string string) (contents : list soup)
| NavigableString (text : string).

#[global] Instance soup_eq_dec : EqDecision soup.
Proof.
  refine (fix go (x y : soup) {struct x} : Decision (x = y) :=
    match x, y with
    | Tag n a c, Tag n' a' c' =>
        cast_if_and3 (decide (n = n')) (decide (a = a')) (@list_eq_dec _ go c c')
    | NavigableString t, NavigableString t' => cast_if (decide (t = t'))
    | _, _ => right _
    end); congruence.
Defined.

(** One level of the way up from a node: the enclosing tag's name and
    attributes, and the node's siblings before and after it. *)
Record crumb : Type := mkCrumb {
  up_name : string;
  up_attrs : gmap string string;
  left_of : list soup;
  right_of : list soup
}.

(** An element of a parsed page: a node and the way up from it, nearest
    parent first. *)
Abbreviation element := (soup * list crumb)%type.

(** The parent node. *)
Definition plug (c : crumb) (child : soup) : soup :=
  Tag (up_name c) (up_attrs c) (left_of c ++ child :: right_of c).

(** The whole page an element lies in. *)
Definition document (e : element) : soup := foldl (fun child c => plug c child) e.1 e.2.

Definition has_name (name : string) (node : soup) : bool :=
  match node with
  | Tag n _ _ => String.eqb n name
  | NavigableString _ => false
  end.

(** [parent.find_all(name, recursive=False)], from the parent's
    contents. *)
Definition find_all (contents : list soup) (name : string) : list soup :=
  filter (fun c => has_name name c = true) contents.

(** [l.index(x)]: the first position holding something equal to [x],
    [None] standing for [ValueError]. *)
Fixpoint index (x : soup) (l : list soup) : option nat :=
  match l with
  | [] => None
  | y :: r => if decide (y = x) then Some 0%nat else S <$> index x r
  end.

(** A step of the path: a tag name and, possibly, a position. *)
Record step : Type := mkStep {
  step_name : string;
  step_position : option nat
}.

(** [name] or ["%s[%d]" % (name, position)] *)
Definition show_step (st : step) : string :=
  match step_position st with
  | None => step_name st
  | Some k => step_name st ++ "[" ++ pretty k ++ "]"
  end.

(** One round of the loop, lines 68-72, for the tag [child] named
    [name]. *)
Definition component (c : crumb) (child : soup) (name : string) : error + step :=
  let siblings := find_all (left_of c ++ child :: right_of c) name in
  if decide (siblings = [child]) then inr (mkStep name None)
  else
    match index child siblings with
    | Some i => inr (mkStep name (Some (1 + i)%nat))
    | None => inl ValueError
    end.

(** The loop [for parent in child.parents], lines 67-73, started on the
    tag [Tag name attrs contents]: the components in the order they are
    appended. *)
Fixpoint ascend (name : string) (attrs : gmap string string) (contents : list soup)
    (crumbs : list crumb) : error + list step :=
  match crumbs with
  | [] => inr []
  | c :: up =>
      match component c (Tag name attrs contents) name with
      | inl e => inl e
      | inr st =>
          match ascend (up_name c) (up_attrs c)
                  (left_of c ++ Tag name attrs contents :: right_of c) up with
          | inl e => inl e
          | inr rest => inr (st :: rest)
          end
      end
  end.

(** Lines 65-74: the steps of the path, outermost first.  A string
    (whose [name] is [None]) and a tag with an empty name stand for
    their parent; without a parent, [None.parents] does not exist. *)
Definition xpath_steps (e : element) : error + list step :=
  let up_from (crumbs : list crumb) :=
    match crumbs with
    | [] => inl AttributeError
    | c :: up =>
        match ascend (up_name c) (up_attrs c) (left_of c ++ e.1 :: right_of c) up with
        | inl x => inl x
        | inr components => inr (reverse components)
        end
    end in
  match e.1 with
  | Tag name attrs contents =>
      if PyStr.nonempty name then
        match ascend name attrs contents e.2 with
        | inl x => inl x
        | inr components => inr (reverse components)
        end
      else up_from e.2
  | NavigableString _ => up_from e.2
  end.

(** ["/%s" % "/".join(components)] *)
Definition xpath_string (steps : list step) : string :=
  "/" ++ String.concat "/" (show_step <$> steps).

(** [xpath_soup(element)], lines 63-75. *)
Definition xpath_soup (e : element) : error + string :=
  match xpath_steps e with
  | inl x => inl x
  | inr steps => inr (xpath_string steps)
  end.

(** The path is handed to [driver.find_element(By.XPATH, ...)].  What
    such a path selects is given by XPath: from the page, step by step,
    the child tags of a name, all of them or the one at a position
    counted from 1 among them. *)

(** The ways to cut a list in two around one of its members, with
    [before] already cut off. *)
Fixpoint holes (before l : list soup) : list (list soup * soup * list soup) :=
  match l with
  | [] => []
  | x :: r => (before, x, r) :: holes (before ++ [x]) r
  end.

(** The child elements of an element, in document order. *)
Definition children (e : element) : list element :=
  match e.1 with
  | Tag name attrs contents =>
      (fun h => (h.1.2, mkCrumb name attrs h.1.1 h.2 :: e.2)) <$> holes [] contents
  | NavigableString _ => []
  end.

(** What an XPath step [name] or [name[k]] selects from a context
    element: its child tags of that name, all of them or the [k]-th. *)
Definition select (st : step) (e : element) : list element :=
  let named := filter (fun c => has_name (step_name st) c.1 = true) (children e) in
  match step_position st with
  | None => named
  | Some O => []
  | Some (S i) => option_list (named !! i)
  end.

(** The elements an absolute path [/step/.../step] selects in a page. *)
Definition xpath_eval (steps : list step) (page : soup) : list element :=
  foldl (fun nodes st => nodes ≫= select st) [(page, [])] steps.

(** No sibling before the node, or before one of its ancestors, is a
    copy of it (equal in name, attributes and contents). *)
Fixpoint leftmost (child : soup) (crumbs : list crumb) : Prop :=
  match crumbs with
  | [] => True
  | c :: up => (child ∉ left_of c) /\ leftmost (plug c child) up
  end.

(** A page of the board picker, cut down: a [body] with three [div]s
    and the button in the second of them. *)
Definition sample_button : element :=
  (Tag "button" {[ "data-test-id" := "board-dropdown-select-button" ]} [],
   [mkCrumb "div" ∅ [NavigableString "Save to"] [];
    mkCrumb "body" ∅ [Tag "div" ∅ []; Tag "span" ∅ []] [Tag "div" ∅ []];
    mkCrumb "html" ∅ [Tag "head" ∅ []] [];
    mkCrumb "[document]" ∅ [] []]).

(** An empty [div] with a copy of itself before it. *)
Definition sample_twin : element :=
  (Tag "div" ∅ [],
   [mkCrumb "body" ∅ [Tag "div" ∅ []; Tag "span" ∅ []] [];
    mkCrumb "html" ∅ [] [];
    mkCrumb "[document]" ∅ [] []]).

(** ** Vocabulary of the statements *)

(** The value a JSON object gives a key: the last member of that name,
    as [json.load] keeps it. *)
Definition last_value (items : list (string * pyval)) (k : string) : option pyval :=
  foldl (fun acc kv => if decide (kv.1 = k) then Some kv.2 else acc) None items.

(** The keys of the settings mapping. *)
Definition CONFIG_KEYS : list string :=
  ["board_name"; "login_wait_seconds"; "delay_between_pins"; "images_folder"; "headless"].

(** The columns [load_csv_metadata] reads. *)
Definition CSV_COLUMNS : list string :=
  ["filename"; "title"; "description"; "link"; "board"].

(** A row none of whose read cells is [None]: every line of the file has
    a field for each of these columns the header names. *)
Definition well_formed (row : csv_row) : Prop :=
  forall column, column ∈ CSV_COLUMNS -> row !! column <> Some None.

(** The trimmed text of a cell, empty when the column is not there. *)
Definition text (row : csv_row) (column : string) : string :=
  match row !! column with
  | Some (Some s) => PyStr.strip s
  | _ => ""
  end.

(** The basename a row is filed under, and what is filed. *)
Definition row_key (row : csv_row) : string := PyPath.basename (text row "filename").

Definition row_entry (row : csv_row) : pin_meta :=
  mkMeta (text row "title") (text row "description") (text row "link") (text row "board").

(** What one well-formed row does to the mapping. *)
Definition keep_row (md : metadata) (row : csv_row) : metadata :=
  if PyStr.nonempty (row_key row) then <[row_key row := row_entry row]> md else md.

(** The rows that name a file. *)
Definition valid_rows (rows : list csv_row) : list csv_row :=
  filter (fun row => row_key row <> "") rows.

(** A file name that ends, whatever the case of its letters, in one of
    the supported extensions and has something before it. *)
Definition has_allowed_extension (name : string) : Prop :=
  exists stem ext,
    name = stem ++ ext /\ stem <> "" /\ PyStr.lower ext ∈ SUPPORTED_EXTENSIONS.

(** A regular file with an allowed extension. *)
Definition allowed (p : dir_entry) : Prop :=
  entry_is_file p = true /\ has_allowed_extension (PyPath.name (entry_path p)).

(** The state after logging [evs]. *)
Definition after (s : state) (evs : list event) : state :=
  mkState (clock s) (trace s ++ evs).

Local Open Scope list_scope.

(** Every run of [m] ends with a result and added events that
    satisfy [Q]. *)
Definition wp {A} (m : M A) (Q : res A -> list event -> Prop) : Prop :=
  forall s, exists c evs r, m s = (r, mkState c (trace s ++ evs)) /\ Q r evs.

(** What reaches the site's form: the file, the three texts and the
    board query. *)
Definition is_submission (e : event) : bool :=
  match e with
  | SendFile _ | Fill _ _ | SearchBoard _ => true
  | _ => false
  end.

Definition submitted (evs : list event) : list event := List.filter is_submission evs.

(** What one pin is meant to submit. *)
Definition submission (image_path : string) (v : pin_values) : list event :=
  [SendFile image_path; Fill Title (pin_title v); Fill Description (pin_description v);
   Fill Link (pin_link v)]
  ++ (if truthy (pin_board v) then [SearchBoard (pin_board v)] else []).

(** Events of the inside of one pin's posting sequence: browser actions
    and warnings. *)
Definition inner (e : event) : Prop :=
  match e with
  | Get _ | SendFile _ | Fill _ _ | SearchBoard _ | ClickBoard | ClickSave
  | Log WARNING _ => True
  | _ => False
  end.

(** The operator hits Ctrl-C during some browser call of this pin. *)
Inductive interrupts (site : pin_replies) : Prop :=
| interrupts_get : r_get site = Interrupts -> interrupts site
| interrupts_builder : r_builder site = Interrupts -> interrupts site
| interrupts_file_input : r_file_input site = Interrupts -> interrupts site
| interrupts_send_file : r_send_file site = Interrupts -> interrupts site
| interrupts_field f : r_field site f = Interrupts -> interrupts site
| interrupts_dropdown : r_dropdown site = Interrupts -> interrupts site
| interrupts_open : r_open site = Interrupts -> interrupts site
| interrupts_search : r_search site = Interrupts -> interrupts site
| interrupts_first_board : r_first_board site = Interrupts -> interrupts site
| interrupts_save_button : r_save_button site = Interrupts -> interrupts site
| interrupts_saving k : r_saving site k = Interrupts -> interrupts site.

(** Postcondition of the steps of a posting sequence: only inner
    events, nothing submitted beyond [X], and a [KeyboardInterrupt]
    only when the operator interrupts. *)
Definition pin_post (site : pin_replies) (X : list event) {A} (r : res A)
    (evs : list event) : Prop :=
  Forall inner evs
  /\ submitted evs `sublist_of` X
  /\ match r with
     | Ret _ | Raise (Err _) => True
     | Raise KeyboardInterrupt => interrupts site
     | Raise (SystemExit _) => False
     end.

(** The log line that closes a pin. *)
Definition verdict (total i : nat) (filename : string) (posted : bool) : event :=
  if posted then Log INFO (PinPosted i total) else Log ERROR (PinFailed i total filename).

(** The pins the log announces, and the pins it closes. *)
Definition posting_of (e : event) : option (nat * string) :=
  match e with
  | Log INFO (Posting i _ filename) => Some (i, filename)
  | _ => None
  end.

Definition verdict_of (e : event) : option (nat * bool) :=
  match e with
  | Log INFO (PinPosted i _) => Some (i, true)
  | Log ERROR (PinFailed i _ _) => Some (i, false)
  | _ => None
  end.

Definition postings (evs : list event) : list (nat * string) := omap posting_of evs.
Definition verdicts (evs : list event) : list (nat * bool) := omap verdict_of evs.

(** The pins a loop over [images] starting at index [i] announces. *)
Fixpoint announced (i : nat) (images : list string) : list (nat * string) :=
  match images with
  | [] => []
  | image_path :: rest => (i, PyPath.basename image_path) :: announced (S i) rest
  end.

(** Events of the posting loop: those of its pins and the lines that
    open and close each pin. *)
Definition loop_event (e : event) : Prop :=
  match e with
  | Log INFO (Posting _ _ _) | Log INFO (PinPosted _ _) | Log ERROR (PinFailed _ _ _) => True
  | _ => inner e
  end.


(** How many pins the log closes as posted ([true]) or failed
    ([false]). *)
Definition closed_as (posted : bool) (evs : list event) : nat :=
  length (filter (fun v => v.2 = posted) (verdicts evs)).

(** What the pins of a loop over [images] are meant to submit. *)
Definition submissions (csv_metadata : metadata) (d : run_defaults) (images : list string)
  : list event :=
  concat ((fun image_path => submission image_path (resolve csv_metadata d image_path))
            <$> images).

(** Outcome of one iteration: the pin is announced, its events are
    inner ones that submit nothing beyond its resolved values, and it is
    closed by a verdict unless the operator interrupts it. *)
Definition one_post (w : world) (csv_metadata : metadata) (d : run_defaults)
    (total i : nat) (image_path : string) (r : res bool) (evs : list event) : Prop :=
  let filename := PyPath.basename image_path in
  exists body,
    Forall inner body
    /\ submitted body `sublist_of` submission image_path (resolve csv_metadata d image_path)
    /\ ((exists posted,
           r = Ret posted
           /\ evs = Log INFO (Posting i total filename) :: body
                    ++ [verdict total i filename posted])
        \/ (r = Raise KeyboardInterrupt
            /\ interrupts (pin_site w i)
            /\ evs = Log INFO (Posting i total filename) :: body)).

(** Outcome of the loop. *)
Definition loop_post (w : world) (csv_metadata : metadata) (d : run_defaults)
    (i : nat) (images : list string) (successful failed : nat)
    (r : res (nat * nat)) (evs : list event) : Prop :=
  Forall loop_event evs
  /\ submitted evs `sublist_of` submissions csv_metadata d images
  /\ ((exists successful' failed',
         r = Ret (successful', failed')
         /\ postings evs = announced i images
         /\ (verdicts evs).*1 = seq i (length images)
         /\ successful' = (successful + closed_as true evs)%nat
         /\ failed' = (failed + closed_as false evs)%nat
         /\ (successful' + failed' = successful + failed + length images)%nat)
      \/ (r = Raise KeyboardInterrupt /\ exists j, interrupts (pin_site w j))).


(** The operator's answer to "Are you logged in?", as the script reads
    it; the operator confirms the login, or answers something else. *)
Definition choice (w : world) : string := PyStr.lower (PyStr.strip (operator w AskLoggedIn)).

Definition confirmed (w : world) : Prop := keyboard w AskLoggedIn = Line /\ choice w = "y".

Definition refused (w : world) : Prop := keyboard w AskLoggedIn = Line /\ choice w <> "y".

(** What the login gate prints before it starts polling. *)
Definition login_header (timeout_seconds : pyval) : list event :=
  [Get PINTEREST_LOGIN_URL; Log INFO LoginPageOpened; Print Blank; Print PleaseLogIn;
   Print (YouHaveSeconds timeout_seconds); Print Blank].

(** At the [k]-th poll the browser is still on, or has left, the login
    page. *)
Definition on_login_page (w : world) (k : nat) : Prop :=
  exists url, current_url w k = Done url /\ PyStr.contains "/login" url = true.

Definition left_login_page (w : world) (k : nat) : Prop :=
  exists url, current_url w k = Done url /\ PyStr.contains "/login" url = false.

(** Events of the login gate, its final error apart. *)
Definition login_event (e : event) : Prop :=
  match e with
  | Get _ | Log INFO LoginPageOpened | Log INFO LoginDetected
  | Print Blank | Print PleaseLogIn | Print (YouHaveSeconds _) | Input AskLoggedIn => True
  | _ => False
  end.

(** Outcome of the polling loop of the login gate. *)
Definition login_poll_post (r : res bool) (evs : list event) : Prop :=
  (r = Ret true /\ evs = [Log INFO LoginDetected])
  \/ ((r = Ret false \/ r = Raise (Err WebDriverError) \/ r = Raise KeyboardInterrupt)
      /\ evs = []).

(** Outcome of the login gate: [False] goes with the error line, and
    only with it. *)
Definition login_post (w : world) (r : res bool) (evs : list event) : Prop :=
  exists pre,
    Forall login_event pre
    /\ ((r = Ret true /\ evs = pre)
        \/ (r = Ret false /\ refused w /\ evs = pre ++ [Log ERROR LoginNotConfirmed])
        \/ ((exists e, r = Raise (Err e)) /\ evs = pre)
        \/ (r = Raise KeyboardInterrupt /\ evs = pre)).

(** The five ways the guarded posting phase can go: login refused,
    login crashed, interrupted during login, loop completed, loop
    interrupted. *)
Definition session_post (w : world) (csv_metadata : metadata) (d : run_defaults)
    (images : list string) (r : res unit) (evs : list event) : Prop :=
  let total := length images in
  exists pre,
    Forall login_event pre
    /\ ((r = Raise (SystemExit 1)
         /\ refused w
         /\ evs = pre ++ [Log ERROR LoginNotConfirmed; Quit; Quit; Log INFO BrowserClosed])
        \/ ((exists e, r = Raise (Err e))
            /\ evs = pre ++ [Quit; Log INFO BrowserClosed])
        \/ (r = Ret tt
            /\ evs = pre ++ [Log INFO InterruptedByUser; Quit; Log INFO BrowserClosed])
        \/ (r = Ret tt
            /\ exists pins successful failed,
                 loop_post w csv_metadata d 1 images 0 0 (Ret (successful, failed)) pins
                 /\ evs = pre ++ Print (StartingToPost total) :: pins
                          ++ [Print Rule; Print (Completed successful failed total);
                              Print Rule; Quit; Log INFO BrowserClosed])
        \/ (r = Ret tt
            /\ exists pins,
                 Forall loop_event pins
                 /\ (exists j, interrupts (pin_site w j))
                 /\ evs = pre ++ Print (StartingToPost total) :: pins
                          ++ [Log INFO InterruptedByUser; Quit; Log INFO BrowserClosed])).

(** What filling one field leaves in the trace: the text typed, or the
    warning. *)
Definition field_events (site : pin_replies) (f : field) (text : string) : list event :=
  match r_field site f with
  | Done _ => [Fill f text]
  | _ => [Log WARNING (CouldNotFill f)]
  end.

(** A number of seconds [time.sleep] takes and the platform can
    sleep. *)
Definition sleepable (can_sleep : Z -> bool) (v : pyval) : Prop :=
  match v with
  | PInt n => 0 <= n < SLEEP_LIMIT /\ can_sleep n = true
  | PBool b => can_sleep (if b then 1 else 0) = true
  | _ => False
  end.

(** The site lets a pin through to the publish wait: the builder page
    loads, the configured delay is a number of seconds that can be
    slept, the file is accepted. *)
Definition reaches_publish (w : world) (i : nat) (cfg : config) : Prop :=
  let site := pin_site w i in
  r_get site = Done tt /\ r_builder site = Done tt
  /\ r_file_input site = Done tt /\ r_send_file site = Done tt
  /\ exists n, dict_get cfg "delay_between_pins" (PInt 2) = PInt n
               /\ 0 <= n < SLEEP_LIMIT /\ can_sleep w n = true.







(** ** Sample worlds *)

(** Two characters that [str.strip()] removes and that are no ASCII:
    the no-break space U+00A0 and the ideographic space U+3000; and
    one that it keeps though its last byte is that of U+00A0: the
    letter U+0120. *)
Definition NO_BREAK_SPACE : string :=
  String (ascii_of_nat 194) (String (ascii_of_nat 160) "").

Definition IDEOGRAPHIC_SPACE : string :=
  String (ascii_of_nat 227) (String (ascii_of_nat 128) (String (ascii_of_nat 128) "")).

Definition G_WITH_DOT : string :=
  String (ascii_of_nat 196) (String (ascii_of_nat 160) "").

(** A site that accepts everything at once. *)
Definition site_ok : pin_replies :=
  mkPin (Done tt) (Done tt) (Done tt) (Done tt) (fun _ => Done tt)
        (Done true) (Done tt) (Done tt) (Done true) (Done true) (fun _ => Done false).

(** A site where the title and link fields cannot be found, the board
    button is missing and the saving indicator never goes away. *)
Definition site_flaky : pin_replies :=
  mkPin (Done tt) (Done tt) (Done tt) (Done tt)
        (fun f => match f with Description => Done tt | _ => Fails end)
        (Done false) (Done tt) (Done tt) (Done true) (Done true) (fun _ => Done true).

(** A site whose upload control rejects the file. *)
Definition site_upload_fails : pin_replies :=
  mkPin (Done tt) (Done tt) (Done tt) Fails (fun _ => Done tt)
        (Done true) (Done tt) (Done tt) (Done true) (Done true) (fun _ => Done false).


(** Three images and a text file in the default folder. *)
Definition demo_folder : list dir_entry :=
  [mkEntry "/opt/bot/bulk_post_pinterest/c.png" true;
   mkEntry "/opt/bot/bulk_post_pinterest/a.jpg" true;
   mkEntry "/opt/bot/bulk_post_pinterest/notes.txt" true;
   mkEntry "/opt/bot/bulk_post_pinterest/b.JPG" true].

(** Metadata for two of the three images. *)
Definition demo_csv : csv_source :=
  CsvStream
    [ {[ "filename" := Some "a.jpg"; "title" := Some "Alps"; "description" := Some "snow";
         "link" := Some "https://a.example"; "board" := Some "Travel" ]};
      {[ "filename" := Some "b.JPG"; "title" := Some "Bay"; "description" := Some "";
         "link" := Some ""; "board" := Some "" ]} ]
    None.

(** A run of [main.py --csv pins.csv --board Pins] (or without [--csv])
    with no configuration file, whose browser leaves the login page at
    the [leave]-th poll. *)
Definition demo_world (csv : option string) (answers : prompt -> string) (leave : nat)
    (sites : nat -> pin_replies) : world :=
  mkWorld Parsed (mkArgs DEFAULT_CONFIG_FILE csv false (Some "Pins") None)
    "/opt/bot"
    (fun _ => ConfigAbsent)
    (fun _ => demo_csv)
    (fun folder => if String.eqb folder "/opt/bot/bulk_post_pinterest"
                   then Listed demo_folder else NotADirectory)
    (fun _ => Line)
    answers
    (Done tt)
    (Done tt)
    (fun k => Done (if (k <? leave)%nat then PINTEREST_LOGIN_URL
                    else "https://www.pinterest.com/"))
    sites
    (fun _ => true).




(** The same world started with a command line [argparse] rejects, as
    [main.py --bord Pins], and with one that asks for the help text. *)
Definition with_command_line (c : parsing) (w : world) : world :=
  mkWorld c (cli w) (script_dir w) (read_config w) (read_csv w) (iterdir w)
          (keyboard w) (operator w) (chrome_starts w) (login_page w) (current_url w)
          (pin_site w) (can_sleep w).

Definition same_prompt (p q : prompt) : bool :=
  match p, q with
  | AskTitle, AskTitle | AskDescription, AskDescription | AskLink, AskLink
  | AskBoard, AskBoard | AskLoggedIn, AskLoggedIn => true
  | _, _ => false
  end.

(** The same world whose operator hits Ctrl-C at the prompt [p]. *)
Definition ctrl_c_at (p : prompt) (w : world) : world :=
  mkWorld (command_line w) (cli w) (script_dir w) (read_config w) (read_csv w) (iterdir w)
          (fun q => if same_prompt q p then CtrlC else keyboard w q)
          (operator w) (chrome_starts w) (login_page w) (current_url w)
          (pin_site w) (can_sleep w).

(** The images folder [main] looks into, given the loaded
    configuration (lines 373-379). *)
Definition images_folder (w : world) (cfg : config) : pyval :=
  py_or (opt_str (args_images (cli w)))
        (dict_get cfg "images_folder" (PStr DEFAULT_IMAGES_FOLDER)).

Definition resolved_folder (w : world) (folder : string) : string :=
  if negb (PyPath.isabs folder) then PyPath.join (script_dir w) folder else folder.

(** What the prompts of lines 388-402 leave in the trace and in the
    run-level defaults: the three texts are asked for only when no
    metadata was loaded, the board only when none is configured. *)
Definition prompt_events (csv_metadata : metadata) (board : pyval) : list event :=
  (if bool_decide (csv_metadata = ∅)
   then [Print EnterDefaults; Print LeaveBlank; Input AskTitle; Input AskDescription;
         Input AskLink; Print Blank]
   else [])
  ++ (if truthy board then [] else [Input AskBoard; Print Blank]).

Definition prompted_board (w : world) (board : pyval) : pyval :=
  if truthy board then board else PStr (PyStr.strip (operator w AskBoard)).

Definition prompted_defaults (w : world) (csv_metadata : metadata) (board : pyval)
  : run_defaults :=
  if bool_decide (csv_metadata = ∅)
  then mkDefaults (PyStr.strip (operator w AskTitle)) (PyStr.strip (operator w AskDescription))
                  (PyStr.strip (operator w AskLink)) (prompted_board w board)
  else mkDefaults "" "" "" (prompted_board w board).

(** The login gate lets the run through at the [j]-th poll, within a
    timeout of [T] seconds. *)
Definition logs_in (w : world) (T : Z) (j : nat) : Prop :=
  login_page w = Done tt
  /\ fits_float T = true
  /\ (j < Z.to_nat T)%nat
  /\ (forall i, (i < j)%nat -> on_login_page w i)
  /\ left_login_page w j.

(** The values a pin gets when the text defaults are empty: its row's
    texts, its row's board unless that is empty, and without a row
    empty texts and the run-level board. *)
Definition row_values (meta : option pin_meta) (board : pyval) : pin_values :=
  match meta with
  | Some row =>
      mkValues (meta_title row) (meta_description row) (meta_link row)
               (if PyStr.nonempty (meta_board row) then PStr (meta_board row) else board)
  | None => mkValues "" "" "" board
  end.

(** A row on which the loop of [load_csv_metadata] breaks: the line
    ends before the [filename] field, or it names a file and ends
    before one of the other fields read. *)
Definition short_row (row : csv_row) : Prop :=
  row !! "filename" = Some None
  \/ (row !! "filename" <> Some None
      /\ row_key row <> ""
      /\ exists column, column ∈ ["title"; "description"; "link"; "board"]
                        /\ row !! column = Some None).

(** The board option [main] settles on before the prompts (line 374). *)
Definition chosen_board (w : world) (cfg : config) : pyval :=
  match args_board (cli w) with
  | Some board => if PyStr.nonempty board then PStr board
                  else dict_get cfg "board_name" (PStr "")
  | None => dict_get cfg "board_name" (PStr "")
  end.


(** A [delay_between_pins] that [time.sleep] rejects: a negative
    number, a number too large for it, or something that is not a
    number. *)
Definition unusable_delay (cfg : config) : Prop :=
  match dict_get cfg "delay_between_pins" (PInt 2) with
  | PInt n => n < 0 \/ SLEEP_LIMIT <= n
  | PBool _ => False
  | _ => True
  end.

(** The builder page cannot take the file: the page does not load, the
    configured delay cannot be slept, or the file input does not show
    up (at line 441 or at line 224). *)
Definition never_uploads (site : pin_replies) (cfg : config) : Prop :=
  r_get site = Fails
  \/ (r_get site = Done tt
      /\ (unusable_delay cfg
          \/ r_builder site = Fails
          \/ (r_builder site = Done tt /\ r_file_input site = Fails))).

(** What the log holds for a pin that failed before its upload. *)
Definition failed_early (total i : nat) (image_path : string) : list event :=
  [Log INFO (Posting i total (PyPath.basename image_path)); Get PINTEREST_PIN_BUILDER_URL;
   Log ERROR (PinFailed i total (PyPath.basename image_path))].


(** The site takes all that a pin submits: its file, the three texts
    and the query for the board. *)
Definition accepts (w : world) (i : nat) (cfg : config) : Prop :=
  let site := pin_site w i in
  r_get site = Done tt
  /\ sleepable (can_sleep w) (dict_get cfg "delay_between_pins" (PInt 2))
  /\ r_builder site = Done tt
  /\ r_file_input site = Done tt
  /\ r_send_file site = Done tt
  /\ (forall f, r_field site f = Done tt)
  /\ r_dropdown site = Done true
  /\ r_open site = Done tt
  /\ r_search site = Done tt.


(** The gate let the run through: the browser was seen off the login
    page, or the operator was asked and confirmed. *)
Definition login_confirmed (w : world) (evs : list event) : Prop :=
  Log INFO LoginDetected ∈ evs \/ (Input AskLoggedIn ∈ evs /\ confirmed w).

(** Events of the posting phase: the count of pins to post, a pin
    announced, something submitted to the site. *)
Definition posting_event (e : event) : Prop :=
  match e with
  | Print (StartingToPost _) | Log INFO (Posting _ _ _)
  | SendFile _ | Fill _ _ | SearchBoard _ => True
  | _ => False
  end.

(** Every event of a run is of the class [P]. *)
Definition only (P : event -> Prop) {A} (r : res A) (evs : list event) : Prop :=
  Forall P evs.

(** What happens at the console: log lines, prints and prompts. *)
Definition console_event (e : event) : Prop :=
  match e with
  | Log _ _ | Print _ | Input _ => True
  | _ => False
  end.

(** Events that need no operator, the confirmation of the login
    apart. *)
Definition unattended (e : event) : Prop :=
  match e with
  | Input p => p = AskLoggedIn
  | _ => True
  end.

(** A trace in two phases: the console, then the browser, whose first
    event is the launch of Chrome. *)
Definition two_phases {A} (r : res A) (evs : list event) : Prop :=
  exists console browser,
    evs = console ++ browser
    /\ Forall console_event console
    /\ Forall unattended browser
    /\ (browser = [] \/ exists headless rest, browser = LaunchChrome headless :: rest).

(** [driver.quit()] in the trace, and how often it ran. *)
Definition is_quit (e : event) : bool :=
  match e with Quit => true | _ => false end.

Definition quits (evs : list event) : nat := length (List.filter is_quit evs).

(** * Properties *)

(** ** The string helpers on examples *)

Example lower_example : PyStr.lower ".JpEg"%string = ".jpeg"%string.
Proof. reflexivity. Qed.

Example strip_example : PyStr.strip "  a b  "%string = "a b"%string.
Proof. reflexivity. Qed.

Example strip_unicode_example :
  PyStr.strip (NO_BREAK_SPACE ++ " y" ++ IDEOGRAPHIC_SPACE) = "y"%string
  /\ PyStr.strip NO_BREAK_SPACE = ""%string
  /\ PyStr.strip ("a" ++ NO_BREAK_SPACE ++ "b") = ("a" ++ NO_BREAK_SPACE ++ "b")%string
  /\ PyStr.strip (" " ++ G_WITH_DOT ++ " ") = G_WITH_DOT.
Proof. repeat split; reflexivity. Qed.

Example basename_example : PyPath.basename "/srv/pins/a.jpg"%string = "a.jpg"%string.
Proof. reflexivity. Qed.

Example suffix_example :
  PyPath.suffix "/srv/pins/a.tar.GZ"%string = ".GZ"%string
  /\ PyPath.suffix "/srv/.jpg"%string = ""%string
  /\ PyPath.suffix "/srv/a."%string = ""%string
  /\ PyPath.suffix "/srv/a"%string = ""%string.
Proof. repeat split; reflexivity. Qed.

Example join_example :
  PyPath.join "/opt/bot"%string "bulk_post_pinterest"%string
  = "/opt/bot/bulk_post_pinterest"%string.
Proof. reflexivity. Qed.

Example contains_example :
  PyStr.contains "/login"%string PINTEREST_LOGIN_URL = true
  /\ PyStr.contains "/login"%string "https://www.pinterest.com/"%string = false.
Proof. split; reflexivity. Qed.

(** ** Field resolution *)

Lemma get_or_empty (meta : option pin_meta) column default row :
  meta = Some row -> column row = "" -> get_or meta column default = default.
Proof. intros -> Hempty. unfold get_or. rewrite Hempty. reflexivity. Qed.

Lemma get_or_given (meta : option pin_meta) column default row :
  meta = Some row -> column row <> "" -> get_or meta column default = column row.
Proof.
  intros -> Hgiven. unfold get_or.
  destruct (column row); [congruence | reflexivity].
Qed.

(** C10: when an image has a CSV row, a field the row leaves empty is
    posted with the run-level default, and only a non-empty cell
    overrides the default; so no row can force a field to be empty
    while the default is not. *)
Theorem C10_empty_cell_uses_default (csv_metadata : metadata) (d : run_defaults)
    (image_path : string) (row : pin_meta) :
  csv_metadata !! PyPath.basename image_path = Some row ->
  let v := resolve csv_metadata d image_path in
  (meta_title row = "" -> pin_title v = default_title d)
  /\ (meta_description row = "" -> pin_description v = default_description d)
  /\ (meta_link row = "" -> pin_link v = default_link d)
  /\ (meta_board row = "" -> pin_board v = board_name d)
  /\ (meta_title row <> "" -> pin_title v = meta_title row)
  /\ (meta_description row <> "" -> pin_description v = meta_description row)
  /\ (meta_link row <> "" -> pin_link v = meta_link row)
  /\ (meta_board row <> "" -> pin_board v = PStr (meta_board row)).
Proof.
  intros Hrow v. subst v. unfold resolve. cbn [pin_title pin_description pin_link pin_board].
  rewrite Hrow.
  repeat split; intros H;
    try (apply get_or_empty with (row := row); [reflexivity | exact H]);
    try (apply get_or_given with (row := row); [reflexivity | exact H]);
    unfold get_board_or; destruct (meta_board row); cbn; congruence.
Qed.

Lemma C10_witness :
  let md : metadata := {[ "a.jpg" := mkMeta "" "about a" "" "" ]} in
  let d := mkDefaults "T" "D" "L" (PStr "Board") in
  let v := resolve md d "/pins/a.jpg" in
  pin_title v = "T" /\ pin_description v = "about a"
  /\ pin_link v = "L" /\ pin_board v = PStr "Board".
Proof.
  intros md d v.
  pose proof (C10_empty_cell_uses_default md d "/pins/a.jpg" (mkMeta "" "about a" "" "")
                ltac:(vm_compute; reflexivity)) as H.
  cbn zeta in H. destruct H as (Ht & _ & Hl & Hb & _ & Hd & _ & _).
  split; [|split; [|split]].
  - apply Ht. reflexivity.
  - apply Hd. discriminate.
  - apply Hl. reflexivity.
  - apply Hb. reflexivity.
Defined.

(** ** Configuration *)

Lemma last_value_snoc items kv k :
  last_value (items ++ [kv]) k
  = if decide (kv.1 = k) then Some kv.2 else last_value items k.
Proof. unfold last_value. rewrite foldl_app. reflexivity. Qed.

Lemma update_items_snoc d items kv :
  update_items d (items ++ [kv]) = <[KStr kv.1 := kv.2]> (update_items d items).
Proof. unfold update_items. rewrite foldl_app. reflexivity. Qed.

Lemma update_items_lookup (d : config) items k :
  update_items d items !! KStr k
  = match last_value items k with
    | Some v => Some v
    | None => d !! KStr k
    end.
Proof.
  induction items as [|kv items IH] using rev_ind.
  - reflexivity.
  - rewrite update_items_snoc, last_value_snoc.
    destruct (decide (kv.1 = k)) as [->|Hne].
    + apply lookup_insert_eq.
    + rewrite lookup_insert_ne by congruence. exact IH.
Qed.

Lemma defaults_documented :
  defaults !! KStr "board_name" = Some (PStr "")
  /\ defaults !! KStr "login_wait_seconds" = Some (PInt 60)
  /\ defaults !! KStr "delay_between_pins" = Some (PInt 2)
  /\ defaults !! KStr "images_folder" = Some (PStr "bulk_post_pinterest")
  /\ defaults !! KStr "headless" = Some (PBool false).
Proof. repeat split; vm_compute; reflexivity. Qed.

Lemma defaults_populated k : k ∈ CONFIG_KEYS -> is_Some (defaults !! KStr k).
Proof.
  unfold CONFIG_KEYS. rewrite !elem_of_cons, elem_of_nil.
  destruct defaults_documented as (H1 & H2 & H3 & H4 & H5).
  intros [->|[->|[->|[->|[->|[]]]]]]; eauto.
Qed.

(** A document that is not an object: [defaults.update] raises
    [TypeError], which [except (ValueError, IOError)] does not catch. *)
Lemma load_config_scalar_document_raises :
  load_config (fun _ => ConfigDocument (PInt 42)) DEFAULT_CONFIG_FILE initial
  = (Raise (Err TypeError), initial).
Proof. reflexivity. Qed.

(** An array whose first element is a pair and whose second is not:
    the pair is stored before [ValueError] is caught, so the mapping
    returned with the warning is not the built-in one. *)
Lemma load_config_partial_update :
  let doc := PList [PList [PStr "board_name"; PStr "x"]; PStr "abc"] in
  exists cfg s,
    load_config (fun _ => ConfigDocument doc) DEFAULT_CONFIG_FILE initial = (Ret cfg, s)
    /\ trace s = [Log WARNING (ConfigNotRead ValueError)]
    /\ cfg !! KStr "board_name" = Some (PStr "x").
Proof. eexists _, _. split; [reflexivity|]. split; vm_compute; reflexivity. Qed.

(** C5, as stated, fails: with no file at the path the built-in
    defaults are returned but no warning is logged. *)
Lemma C5_counterexample :
  ~ exists s' m,
      load_config (fun _ => ConfigAbsent) DEFAULT_CONFIG_FILE initial = (Ret defaults, s')
      /\ Log WARNING m ∈ trace s'.
Proof.
  intros (s' & m & Hrun & Hlog).
  cbn in Hrun. injection Hrun as <-. cbn in Hlog.
  apply elem_of_nil in Hlog. exact Hlog.
Qed.

(** C5, amended: for a configuration file that is missing, unreadable
    ([IOError]), malformed ([ValueError]) or a JSON object, loading
    returns a fully-populated mapping and does not raise.  A missing
    file gives the built-in defaults silently; a read or parse failure
    gives them with one warning; an object keeps each value it provides
    and every key it does not provide keeps its built-in default. *)
Theorem C5_load_config_total (read : string -> config_source) (config_path : string)
    (s : state) :
  (config_path = "" \/ read config_path = ConfigAbsent ->
     load_config read config_path s = (Ret defaults, s))
  /\ (forall e, config_path <> "" -> read config_path = ConfigUnreadable e ->
        e = ValueError \/ e = IOError ->
        load_config read config_path s
        = (Ret defaults, after s [Log WARNING (ConfigNotRead e)]))
  /\ (forall items, config_path <> "" -> read config_path = ConfigDocument (PDict items) ->
        exists cfg,
          load_config read config_path s
          = (Ret cfg, after s [Log INFO (ConfigLoaded config_path)])
          /\ (forall k, k ∈ CONFIG_KEYS -> is_Some (cfg !! KStr k))
          /\ (forall k v, last_value items k = Some v -> cfg !! KStr k = Some v)
          /\ (forall k, last_value items k = None -> cfg !! KStr k = defaults !! KStr k)).
Proof.
  split; [|split].
  - intros [->|Habsent]; [reflexivity|].
    unfold load_config. rewrite Habsent. destruct (PyStr.nonempty config_path); reflexivity.
  - intros e Hpath Hread He. unfold load_config. rewrite Hread.
    destruct config_path; [congruence|]. cbn [PyStr.nonempty].
    destruct He as [-> | ->]; reflexivity.
  - intros items Hpath Hread. unfold load_config. rewrite Hread.
    destruct config_path; [congruence|]. cbn [PyStr.nonempty dict_update].
    exists (update_items defaults items). split; [reflexivity|].
    split; [|split].
    + intros k Hk. rewrite update_items_lookup.
      destruct (last_value items k); [eauto | apply defaults_populated, Hk].
    + intros k v Hv. rewrite update_items_lookup, Hv. reflexivity.
    + intros k Hv. rewrite update_items_lookup, Hv. reflexivity.
Qed.

Lemma C5_witness :
  let read := fun _ : string => ConfigDocument (PDict [("headless", PBool true)]) in
  exists cfg,
    load_config read DEFAULT_CONFIG_FILE initial
    = (Ret cfg, after initial [Log INFO (ConfigLoaded DEFAULT_CONFIG_FILE)])
    /\ (forall k, k ∈ CONFIG_KEYS -> is_Some (cfg !! KStr k))
    /\ (forall k v, last_value [("headless", PBool true)] k = Some v -> cfg !! KStr k = Some v)
    /\ (forall k, last_value [("headless", PBool true)] k = None
                  -> cfg !! KStr k = defaults !! KStr k).
Proof.
  intros read.
  apply (proj2 (proj2 (C5_load_config_total read DEFAULT_CONFIG_FILE initial))).
  - discriminate.
  - reflexivity.
Defined.

(** ** Metadata *)

Lemma nonempty_true (s : string) : PyStr.nonempty s = true <-> s <> "".
Proof. destruct s; cbn; split; congruence. Qed.

Lemma cell_well_formed (row : csv_row) column :
  well_formed row -> column ∈ CSV_COLUMNS -> cell row column = inr (text row column).
Proof.
  intros Hwf Hcol. specialize (Hwf column Hcol). unfold cell, text.
  destruct (row !! column) as [[c|]|]; [reflexivity | congruence | reflexivity].
Qed.

Lemma load_row_well_formed md row :
  well_formed row -> load_row md row = inr (keep_row md row).
Proof.
  intros Hwf. unfold load_row, keep_row.
  rewrite !(cell_well_formed row) by (exact Hwf || (unfold CSV_COLUMNS; set_solver)).
  fold (row_key row). destruct (PyStr.nonempty (row_key row)); reflexivity.
Qed.

Lemma load_rows_well_formed rows md failure :
  Forall well_formed rows ->
  load_rows md rows failure = (foldl keep_row md rows, failure).
Proof.
  intros Hwf. revert md. induction Hwf as [|row rows Hrow _ IH]; intros md.
  - reflexivity.
  - cbn [load_rows foldl]. rewrite load_row_well_formed by exact Hrow. apply IH.
Qed.

Lemma kept_lookup rows k :
  is_Some (foldl keep_row (∅ : metadata) rows !! k)
  <-> k <> "" /\ exists row, row ∈ rows /\ row_key row = k.
Proof.
  induction rows as [|row rows IH] using rev_ind.
  - cbn. rewrite lookup_empty. split.
    + intros [? ?]; discriminate.
    + intros (_ & row & Hin & _). apply elem_of_nil in Hin. contradiction.
  - rewrite foldl_app. cbn [foldl]. unfold keep_row at 1.
    destruct (PyStr.nonempty (row_key row)) eqn:Hkey.
    + apply nonempty_true in Hkey.
      rewrite lookup_insert_is_Some, IH. split.
      * intros [<- | (Hne & Hk & row' & Hin & Heq)].
        -- split; [exact Hkey|]. exists row.
           split; [apply elem_of_app; right; left | reflexivity].
        -- split; [exact Hk|]. exists row'.
           split; [apply elem_of_app; left; exact Hin | exact Heq].
      * intros (Hk & row' & Hin & Heq).
        destruct (decide (row_key row = k)) as [Hsame|Hdiff]; [left; exact Hsame|].
        right. split; [exact Hdiff|]. split; [exact Hk|].
        exists row'. split; [|exact Heq].
        apply elem_of_app in Hin as [Hin|Hin]; [exact Hin|].
        apply list_elem_of_singleton in Hin. subst row'. contradiction.
    + assert (row_key row = "") as Hempty.
      { destruct (row_key row); [reflexivity | discriminate]. }
      rewrite IH. split.
      * intros (Hk & row' & Hin & Heq). split; [exact Hk|].
        exists row'. split; [apply elem_of_app; left; exact Hin | exact Heq].
      * intros (Hk & row' & Hin & Heq). split; [exact Hk|].
        exists row'. split; [|exact Heq].
        apply elem_of_app in Hin as [Hin|Hin]; [exact Hin|].
        apply list_elem_of_singleton in Hin. subst row'. congruence.
Qed.

Lemma kept_distinct rows :
  NoDup (row_key <$> valid_rows rows) ->
  size (foldl keep_row (∅ : metadata) rows) = length (valid_rows rows)
  /\ forall row, row ∈ valid_rows rows ->
       foldl keep_row (∅ : metadata) rows !! row_key row = Some (row_entry row).
Proof.
  unfold valid_rows.
  induction rows as [|row rows IH] using rev_ind; intros Hnodup.
  - split; [reflexivity|]. intros row Hin. apply elem_of_nil in Hin. contradiction.
  - rewrite filter_app, fmap_app in Hnodup. rewrite filter_app, foldl_app.
    cbn [foldl]. unfold keep_row at 1 3.
    apply NoDup_app in Hnodup as (Hrows & Hfresh & _).
    specialize (IH Hrows) as [IHsize IHget].
    destruct (PyStr.nonempty (row_key row)) eqn:Hkey.
    + apply nonempty_true in Hkey.
      rewrite filter_cons_True by exact Hkey. rewrite filter_nil.
      rewrite filter_cons_True in Hfresh by exact Hkey. rewrite filter_nil in Hfresh.
      assert (foldl keep_row (∅ : metadata) rows !! row_key row = None) as Hnone.
      { apply eq_None_not_Some. rewrite kept_lookup.
        intros (_ & row' & Hin & Heq).
        apply (Hfresh (row_key row)); [|set_solver].
        apply list_elem_of_fmap. exists row'. split; [congruence|].
        apply list_elem_of_filter. split; [congruence | exact Hin]. }
      split.
      * rewrite map_size_insert_None by exact Hnone.
        rewrite length_app, IHsize. cbn. lia.
      * intros row' Hin. apply elem_of_app in Hin as [Hin|Hin].
        -- rewrite lookup_insert_ne; [apply IHget, Hin|].
           intros Heq. apply (Hfresh (row_key row')); [|set_solver].
           apply list_elem_of_fmap. exists row'. split; [reflexivity | exact Hin].
        -- apply list_elem_of_singleton in Hin. subst row'. apply lookup_insert_eq.
    + assert (~ row_key row <> "") as Hempty.
      { intros Hne. apply nonempty_true in Hne. congruence. }
      rewrite filter_cons_False by exact Hempty. rewrite filter_nil, app_nil_r.
      split; [exact IHsize | exact IHget].
Qed.

(** A line with fewer fields than the header: the cell is [None],
    [.strip()] raises [AttributeError], and the handler does not
    catch it. *)
Lemma load_csv_metadata_short_row_raises :
  let row : csv_row := {[ "filename" := Some "a.jpg"; "title" := None ]} in
  load_csv_metadata (fun _ => CsvStream [row] None) (Some "pins.csv") initial
  = (Raise (Err AttributeError), initial).
Proof. vm_compute. reflexivity. Qed.

(** C7, as stated, fails: a read error after a valid row has been
    loaded does not yield an empty mapping. *)
Lemma C7_counterexample :
  let row : csv_row := {[ "filename" := Some "a.jpg"; "title" := Some "A" ]} in
  ~ exists s',
      load_csv_metadata (fun _ => CsvStream [row] (Some CsvError)) (Some "pins.csv") initial
      = (Ret ∅, s').
Proof.
  intros row (s' & Hrun).
  apply (f_equal (fun r => match r.1 with
                           | Ret md => md !! "a.jpg"
                           | Raise _ => None
                           end)) in Hrun.
  vm_compute in Hrun. discriminate Hrun.
Qed.

(** C7, amended: for rows all of whose read cells are strings, the
    mapping holds exactly the basenames of the rows that name a file
    (rows with an empty or absent filename are left out); when these
    basenames are distinct it has exactly as many entries as there are
    such rows, each filed under its basename.  A missing file gives the
    empty mapping.  A read error ([csv.Error], [ValueError], [IOError])
    does not abort: the rows read before it are kept (none when it
    strikes first) and a warning is logged. *)
Theorem C7_load_csv_metadata (read : string -> csv_source) (path : string)
    (rows : list csv_row) (failure : option error) (s : state) :
  (read path = CsvAbsent ->
     load_csv_metadata read (Some path) s = (Ret ∅, s)
     /\ load_csv_metadata read None s = (Ret ∅, s))
  /\ (path <> "" -> read path = CsvStream rows failure ->
      Forall well_formed rows ->
      failure ∈ [None; Some CsvError; Some ValueError; Some IOError] ->
      exists md,
        load_csv_metadata read (Some path) s
        = (Ret md, after s [match failure with
                            | None => Log INFO (MetadataLoaded (size md) path)
                            | Some e => Log WARNING (CsvNotRead e)
                            end])
        /\ (forall k, is_Some (md !! k) <-> k <> "" /\ exists row, row ∈ rows /\ row_key row = k)
        /\ (NoDup (row_key <$> valid_rows rows) ->
            size md = length (valid_rows rows)
            /\ forall row, row ∈ valid_rows rows -> md !! row_key row = Some (row_entry row))).
Proof.
  split.
  - intros Habsent. split; [|reflexivity].
    unfold load_csv_metadata. rewrite Habsent. destruct (PyStr.nonempty path); reflexivity.
  - intros Hpath Hread Hwf Hfailure.
    exists (foldl keep_row ∅ rows). split; [|split].
    + unfold load_csv_metadata. rewrite Hread.
      destruct path; [congruence|]. cbn [PyStr.nonempty].
      rewrite load_rows_well_formed by exact Hwf.
      rewrite !elem_of_cons, elem_of_nil in Hfailure.
      destruct Hfailure as [->|[->|[->|[->|[]]]]]; reflexivity.
    + apply kept_lookup.
    + apply kept_distinct.
Qed.

Lemma C7_witness :
  let r1 : csv_row := {[ "filename" := Some " pins/a.jpg "; "title" := Some "A" ]} in
  let r2 : csv_row := {[ "filename" := Some ""; "title" := Some "nobody" ]} in
  let r3 : csv_row := {[ "filename" := Some "b.png"; "board" := Some "B" ]} in
  exists md : metadata,
    size md = 2%nat
    /\ md !! "a.jpg" = Some (mkMeta "A" "" "" "")
    /\ md !! "b.png" = Some (mkMeta "" "" "" "B").
Proof.
  intros r1 r2 r3.
  destruct (proj2 (C7_load_csv_metadata (fun _ => CsvStream [r1; r2; r3] None) "pins.csv"
                     [r1; r2; r3] None initial))
    as (md & _ & _ & Hdistinct).
  - discriminate.
  - reflexivity.
  - repeat constructor; intros column Hcol; unfold CSV_COLUMNS in Hcol;
      rewrite !elem_of_cons, elem_of_nil in Hcol;
      destruct Hcol as [->|[->|[->|[->|[->|[]]]]]]; vm_compute; discriminate.
  - left.
  - exists md.
    assert (valid_rows [r1; r2; r3] = [r1; r3]) as Hvalid by (vm_compute; reflexivity).
    rewrite Hvalid in Hdistinct.
    destruct Hdistinct as [Hsize Hget].
    { vm_compute. repeat constructor; intros Hin;
        repeat (apply elem_of_cons in Hin as [Hin|Hin]; [discriminate Hin|]);
        apply elem_of_nil in Hin; exact Hin. }
    split; [exact Hsize|]. split.
    + apply (Hget r1). left.
    + apply (Hget r3). right. left.
Defined.

(** A cell that holds only a no-break space is empty once trimmed: the
    row names no file. *)
Example blank_filename_is_no_file :
  let row : csv_row := {[ "filename" := Some NO_BREAK_SPACE; "title" := Some "A" ]} in
  (load_csv_metadata (fun _ => CsvStream [row] None) (Some "pins.csv") initial).1 = Ret ∅.
Proof. vm_compute. reflexivity. Qed.

(** ** Image discovery *)

Section Strings.
Import PyStr PyPath.
Local Open Scope string_scope.

Lemma lower_char_dot c : Ascii.eqb (lower_char c) dot = Ascii.eqb c dot.
Proof. destruct c as [[] [] [] [] [] [] [] []]; reflexivity. Qed.

Lemma rfind_lower s : rfind dot (lower s) = rfind dot s.
Proof.
  induction s as [|c s IH]; [reflexivity|].
  cbn [lower rfind]. rewrite IH, lower_char_dot. reflexivity.
Qed.

Lemma length_lower s : String.length (lower s) = String.length s.
Proof. induction s as [|c s IH]; cbn; congruence. Qed.

Lemma rfind_app c s e j :
  rfind c e = Some j -> rfind c (s ++ e) = Some (String.length s + j)%nat.
Proof.
  intros He. induction s as [|a s IH]; [exact He|].
  change (String a s ++ e) with (String a (s ++ e)).
  cbn [rfind String.length]. rewrite IH. reflexivity.
Qed.

Lemma length_app s e :
  String.length (s ++ e) = (String.length s + String.length e)%nat.
Proof.
  induction s as [|a s IH]; [reflexivity|].
  change (String a s ++ e) with (String a (s ++ e)). cbn [String.length].
  rewrite IH. reflexivity.
Qed.

Lemma drop_app_length s e : drop (String.length s) (s ++ e) = e.
Proof. induction s as [|a s IH]; [destruct e; reflexivity | exact IH]. Qed.

Lemma rfind_bound c s i : rfind c s = Some i -> (i < String.length s)%nat.
Proof.
  revert i. induction s as [|a s IH]; intros i; cbn [rfind String.length].
  - discriminate.
  - destruct (rfind c s) as [j|].
    + intros [= <-]. specialize (IH j eq_refl). lia.
    + destruct (Ascii.eqb a c); [intros [= <-]; lia | discriminate].
Qed.

Lemma split_at i s :
  (i <= String.length s)%nat ->
  exists stem, s = stem ++ drop i s /\ String.length stem = i.
Proof.
  revert s. induction i as [|i IH]; intros s Hi.
  - exists "". split; [destruct s|]; reflexivity.
  - destruct s as [|a s]; cbn [String.length] in Hi; [lia|].
    destruct (IH s ltac:(lia)) as (stem & Hs & Hlen).
    exists (String a stem). change (String a stem ++ drop (S i) (String a s))
      with (String a (stem ++ drop i s)). cbn [String.length].
    split; congruence.
Qed.

Lemma supported_shape x :
  x ∈ SUPPORTED_EXTENSIONS -> rfind dot x = Some 0%nat /\ (2 <= String.length x)%nat.
Proof.
  unfold SUPPORTED_EXTENSIONS. rewrite !elem_of_cons, elem_of_nil.
  intros [->|[->|[->|[->|[->|[->|[->|[]]]]]]]]; split; cbn; (reflexivity || lia).
Qed.

Lemma empty_not_supported : "" ∉ SUPPORTED_EXTENSIONS.
Proof. intros H. apply supported_shape in H as [H _]. discriminate H. Qed.

(** The suffix test of the script picks the names with an allowed
    extension. *)
Lemma suffix_allowed p :
  lower (suffix p) ∈ SUPPORTED_EXTENSIONS <-> has_allowed_extension (name p).
Proof.
  unfold suffix, has_allowed_extension. set (n := name p). split.
  - destruct (rfind dot n) as [i|] eqn:Hfind;
      [|intros H; exfalso; exact (empty_not_supported H)].
    destruct ((0 <? i)%nat && (S i <? String.length n)%nat) eqn:Hguard;
      [|intros H; exfalso; exact (empty_not_supported H)].
    apply andb_true_iff in Hguard as [Hpos _]. apply Nat.ltb_lt in Hpos.
    intros Hext. apply rfind_bound in Hfind.
    destruct (split_at i n ltac:(lia)) as (stem & Hn & Hlen).
    exists stem, (drop i n). split; [exact Hn|]. split; [|exact Hext].
    intros ->. cbn in Hlen. lia.
  - intros (stem & ext & Hn & Hstem & Hext).
    destruct (supported_shape _ Hext) as [Hdot Hlen].
    rewrite rfind_lower in Hdot. rewrite length_lower in Hlen.
    rewrite Hn, (rfind_app dot stem ext 0 Hdot), Nat.add_0_r.
    assert (0 < String.length stem)%nat as Hpos.
    { destruct stem; [congruence | cbn; lia]. }
    rewrite length_app.
    replace (0 <? String.length stem)%nat with true by (symmetry; apply Nat.ltb_lt; lia).
    replace (S (String.length stem) <? String.length stem + String.length ext)%nat
      with true by (symmetry; apply Nat.ltb_lt; lia).
    cbn [andb]. rewrite drop_app_length. exact Hext.
Qed.

End Strings.

Lemma is_image_allowed p : is_image p = true <-> allowed p.
Proof.
  unfold is_image, allowed. rewrite andb_true_iff, bool_decide_eq_true, suffix_allowed.
  reflexivity.
Qed.

Lemma insert_sorted_perm x l : insert_sorted x l ≡ₚ x :: l.
Proof.
  induction l as [|y l IH]; [reflexivity|].
  cbn [insert_sorted]. destruct (String.leb x y); [reflexivity|].
  rewrite IH. apply Permutation_swap.
Qed.

Lemma sorted_perm l : sorted l ≡ₚ l.
Proof.
  induction l as [|x l IH]; [reflexivity|].
  cbn [sorted foldr]. fold (sorted l). rewrite insert_sorted_perm, IH. reflexivity.
Qed.

Lemma insert_sorted_Sorted x l : Sorted String.le l -> Sorted String.le (insert_sorted x l).
Proof.
  induction 1 as [|y l Hl IH Hhd]; cbn [insert_sorted].
  - repeat constructor.
  - destruct (String.leb x y) eqn:Hxy.
    + constructor; [constructor; assumption | constructor; apply Is_true_true, Hxy].
    + constructor; [exact IH|].
      assert (String.le y x) as Hyx.
      { destruct (total String.le x y) as [H|H]; [|exact H].
        apply Is_true_true in H. congruence. }
      destruct Hhd as [|z l' Hyz]; cbn [insert_sorted].
      * constructor. exact Hyx.
      * destruct (String.leb x z); constructor; assumption.
Qed.

Lemma sorted_Sorted l : StronglySorted String.le (sorted l).
Proof.
  apply Sorted_StronglySorted; [intros a b c Hab Hbc; exact (transitivity Hab Hbc)|].
  induction l as [|x l IH]; [constructor|].
  cbn [sorted foldr]. apply insert_sorted_Sorted, IH.
Qed.

(** C6: in a folder holding at least one regular file with an allowed
    extension (whatever the case of its letters), discovery returns
    exactly the paths of these files, each once, in ascending
    lexicographic order; files with other extensions are left out. *)
Theorem C6_discover_images (iterdir : string -> listing)
    (folder : string) (children : list dir_entry) (s : state) :
  iterdir folder = Listed children ->
  (exists p, p ∈ children /\ allowed p) ->
  exists images,
    discover_images iterdir folder s
    = (Ret images, after s [Log INFO (FoundImages (length images) folder)])
    /\ (forall path, path ∈ images
                     <-> exists p, p ∈ children /\ allowed p /\ entry_path p = path)
    /\ images ≡ₚ entry_path <$> filter (fun p => is_image p = true) children
    /\ (forall p, is_image p = true <-> allowed p)
    /\ StronglySorted String.le images.
Proof.
  intros Hdir (p0 & Hin0 & Hallowed0).
  set (found := filter (fun p => is_image p = true) children).
  exists (sorted (entry_path <$> found)).
  assert (sorted (entry_path <$> found) ≡ₚ entry_path <$> found) as Hperm
    by apply sorted_perm.
  split; [|split; [|split; [|split]]].
  - unfold discover_images. rewrite Hdir. fold found.
    destruct (sorted (entry_path <$> found)) as [|image images] eqn:Hsorted; [|reflexivity].
    exfalso. symmetry in Hperm. apply Permutation_nil_r in Hperm.
    apply fmap_nil_inv in Hperm.
    assert (p0 ∈ found) as Hp0
      by (apply list_elem_of_filter; split; [apply is_image_allowed, Hallowed0 | exact Hin0]).
    rewrite Hperm in Hp0. apply elem_of_nil in Hp0. exact Hp0.
  - intros path. rewrite Hperm, list_elem_of_fmap. split.
    + intros (p & -> & Hp). apply list_elem_of_filter in Hp as [Himage Hp].
      exists p. split; [exact Hp|]. split; [apply is_image_allowed, Himage | reflexivity].
    + intros (p & Hp & Hallowed & <-). exists p. split; [reflexivity|].
      apply list_elem_of_filter. split; [apply is_image_allowed, Hallowed | exact Hp].
  - exact Hperm.
  - apply is_image_allowed.
  - apply sorted_Sorted.
Qed.

Lemma C6_witness :
  let children := [mkEntry "/pins/b.PNG" true; mkEntry "/pins/notes.txt" true;
                   mkEntry "/pins/a.jpeg" true; mkEntry "/pins/old.gif" false;
                   mkEntry "/pins/.jpg" true] in
  exists images,
    discover_images (fun _ => Listed children) "/pins" initial
    = (Ret images, after initial [Log INFO (FoundImages (length images) "/pins")])
    /\ (forall path, path ∈ images
                     <-> exists p, p ∈ children /\ allowed p /\ entry_path p = path)
    /\ images ≡ₚ entry_path <$> filter (fun p => is_image p = true) children
    /\ (forall p, is_image p = true <-> allowed p)
    /\ StronglySorted String.le images.
Proof.
  intros children.
  apply (C6_discover_images (fun _ => Listed children) "/pins" children initial eq_refl).
  exists (mkEntry "/pins/b.PNG" true). split; [left|].
  split; [reflexivity|]. exists "b", ".PNG".
  split; [reflexivity|]. split; [discriminate|]. vm_compute. right. right. left.
Defined.

Example discover_images_run :
  discover_images
    (fun _ => Listed [mkEntry "/pins/b.PNG" true; mkEntry "/pins/notes.txt" true;
                    mkEntry "/pins/a.jpeg" true; mkEntry "/pins/old.gif" false;
                    mkEntry "/pins/.jpg" true])
    "/pins" initial
  = (Ret ["/pins/a.jpeg"; "/pins/b.PNG"],
     after initial [Log INFO (FoundImages 2 "/pins")]).
Proof. vm_compute. reflexivity. Qed.

(** ** Reasoning about runs *)

Section WP.
Context {A : Type}.
Implicit Types (Q : res A -> list event -> Prop).

Lemma wp_mono (m : M A) Q Q' :
  wp m Q -> (forall r evs, Q r evs -> Q' r evs) -> wp m Q'.
Proof.
  intros Hm Himp s. destruct (Hm s) as (c & evs & r & Hrun & HQ).
  exists c, evs, r. split; [exact Hrun | apply Himp, HQ].
Qed.

Lemma wp_ret (a : A) Q : Q (Ret a) [] -> wp (ret a) Q.
Proof.
  intros HQ s. exists (clock s), [], (Ret a). split; [|exact HQ].
  unfold ret. rewrite app_nil_r. destruct s; reflexivity.
Qed.

Lemma wp_raise (x : exn) Q : Q (Raise x) [] -> wp (raise x) Q.
Proof.
  intros HQ s. exists (clock s), [], (Raise x). split; [|exact HQ].
  unfold raise. rewrite app_nil_r. destruct s; reflexivity.
Qed.

Lemma wp_call (r : reply A) Q :
  match r with
  | Done a => Q (Ret a) []
  | Fails => Q (Raise (Err WebDriverError)) []
  | Interrupts => Q (Raise KeyboardInterrupt) []
  end ->
  wp (call r) Q.
Proof. destruct r; cbn [call]; [apply wp_ret | apply wp_raise | apply wp_raise]. Qed.

Lemma wp_bind {B} (m : M B) (k : B -> M A) Q :
  wp m (fun r e1 =>
          match r with
          | Ret b => wp (k b) (fun r' e2 => Q r' (e1 ++ e2))
          | Raise x => Q (Raise x) e1
          end) ->
  wp (bind m k) Q.
Proof.
  intros Hm s. destruct (Hm s) as (c & e1 & r & Hrun & Hpost).
  unfold bind. rewrite Hrun. destruct r as [b|x].
  - destruct (Hpost (mkState c (trace s ++ e1))) as (c2 & e2 & r2 & Hk & HQ).
    cbn [trace] in Hk. exists c2, (e1 ++ e2), r2.
    rewrite Hk, app_assoc. split; [reflexivity | exact HQ].
  - exists c, e1, (Raise x). split; [reflexivity | exact Hpost].
Qed.

Lemma wp_try_except (m : M A) (handles : exn -> bool) (h : exn -> M A) Q :
  wp m (fun r e1 =>
          match r with
          | Ret a => Q (Ret a) e1
          | Raise x =>
              if handles x then wp (h x) (fun r' e2 => Q r' (e1 ++ e2))
              else Q (Raise x) e1
          end) ->
  wp (try_except m handles h) Q.
Proof.
  intros Hm s. destruct (Hm s) as (c & e1 & r & Hrun & Hpost).
  unfold try_except. rewrite Hrun. destruct r as [a|x].
  - exists c, e1, (Ret a). split; [reflexivity | exact Hpost].
  - destruct (handles x).
    + destruct (Hpost (mkState c (trace s ++ e1))) as (c2 & e2 & r2 & Hh & HQ).
      cbn [trace] in Hh. exists c2, (e1 ++ e2), r2.
      rewrite Hh, app_assoc. split; [reflexivity | exact HQ].
    + exists c, e1, (Raise x). split; [reflexivity | exact Hpost].
Qed.

Lemma wp_try_finally (m : M A) (f : M unit) Q :
  wp m (fun r e1 =>
          wp f (fun rf e2 =>
                  match rf with
                  | Ret _ => Q r (e1 ++ e2)
                  | Raise x => Q (Raise x) (e1 ++ e2)
                  end)) ->
  wp (try_finally m f) Q.
Proof.
  intros Hm s. destruct (Hm s) as (c & e1 & r & Hrun & Hpost).
  unfold try_finally. rewrite Hrun.
  destruct (Hpost (mkState c (trace s ++ e1))) as (c2 & e2 & rf & Hf & HQ).
  cbn [trace] in Hf. rewrite Hf. destruct rf as [u|x].
  - exists c2, (e1 ++ e2), r. rewrite app_assoc. split; [reflexivity | exact HQ].
  - exists c2, (e1 ++ e2), (Raise x). rewrite app_assoc. split; [reflexivity | exact HQ].
Qed.

End WP.

Lemma wp_emit (e : event) Q : Q (Ret tt) [e] -> wp (emit e) Q.
Proof. intros HQ s. exists (clock s), [e], (Ret tt). split; [reflexivity | exact HQ]. Qed.

Lemma wp_advance (d : Z) Q : Q (Ret tt) [] -> wp (advance d) Q.
Proof.
  intros HQ s. exists (clock s + d), [], (Ret tt). split; [|exact HQ].
  unfold advance. rewrite app_nil_r. reflexivity.
Qed.

Lemma wp_time_time Q : (forall now, Q (Ret now) []) -> wp time_time Q.
Proof.
  intros HQ s. exists (clock s), [], (Ret (clock s)). split; [|apply HQ].
  unfold time_time. rewrite app_nil_r. destruct s; reflexivity.
Qed.

Lemma wp_input (w : world) (p : prompt) Q :
  match keyboard w p with
  | Line => Q (Ret (operator w p)) [Input p]
  | CtrlC => Q (Raise KeyboardInterrupt) [Input p]
  | EndOfInput => Q (Raise (Err EOFError)) [Input p]
  end ->
  wp (input w p) Q.
Proof.
  intros HQ. unfold input. apply wp_bind, wp_emit.
  destruct (keyboard w p); [apply wp_ret | apply wp_raise | apply wp_raise]; exact HQ.
Qed.

(** ** Steps of a posting sequence *)

Lemma submitted_app e1 e2 : submitted (e1 ++ e2) = submitted e1 ++ submitted e2.
Proof. apply List.filter_app. Qed.

Section PinSteps.
Variable site : pin_replies.

Lemma pin_bind {A B} (m : M B) (k : B -> M A) X1 X2 :
  wp m (pin_post site X1) ->
  (forall b, wp (k b) (pin_post site X2)) ->
  wp (bind m k) (pin_post site (X1 ++ X2)).
Proof.
  intros Hm Hk. apply wp_bind. eapply wp_mono; [exact Hm|].
  intros [b|x] e1 (Hin1 & Hsub1 & Hres1).
  - eapply wp_mono; [apply Hk|]. intros r e2 (Hin2 & Hsub2 & Hres2).
    split; [apply Forall_app; split; assumption|].
    split; [rewrite submitted_app; apply sublist_app; assumption | exact Hres2].
  - split; [exact Hin1|]. split; [apply sublist_inserts_r, Hsub1 | exact Hres1].
Qed.

Lemma pin_weaken {A} (m : M A) X X' :
  wp m (pin_post site X) -> X `sublist_of` X' -> wp m (pin_post site X').
Proof.
  intros Hm Hsub. eapply wp_mono; [exact Hm|].
  intros r evs (Hin & Hs & Hres). split; [exact Hin|].
  split; [etrans; eassumption | exact Hres].
Qed.

Lemma pin_ret {A} (a : A) : wp (ret a) (pin_post site []).
Proof. apply wp_ret. split; [constructor|]. split; [constructor | exact I]. Qed.

Lemma pin_fail {A} (e : error) : wp (raise (A := A) (Err e)) (pin_post site []).
Proof. apply wp_raise. split; [constructor|]. split; [constructor | exact I]. Qed.

Lemma pin_advance d : wp (advance d) (pin_post site []).
Proof. apply wp_advance. split; [constructor|]. split; [constructor | exact I]. Qed.

Lemma pin_time : wp time_time (pin_post site []).
Proof. apply wp_time_time. intros now. split; [constructor|]. split; [constructor | exact I]. Qed.

Lemma pin_emit e : inner e -> wp (emit e) (pin_post site (submitted [e])).
Proof.
  intros He. apply wp_emit. split; [repeat constructor; exact He|].
  split; [reflexivity | exact I].
Qed.

Lemma pin_call {A} (r : reply A) :
  (r = Interrupts -> interrupts site) -> wp (call r) (pin_post site []).
Proof.
  intros Hint. apply wp_call.
  destruct r; (split; [constructor|]); (split; [constructor|]); [exact I | exact I | auto].
Qed.

(** [try: m  except Exception: h] for a handler that only logs. *)
Lemma pin_try {A} (m : M A) (h : exn -> M A) X :
  wp m (pin_post site X) ->
  (forall x, wp (h x) (pin_post site [])) ->
  wp (try_except m is_Exception h) (pin_post site X).
Proof.
  intros Hm Hh. apply wp_try_except. eapply wp_mono; [exact Hm|].
  intros [a|[e| |code]] e1 (Hin1 & Hsub1 & Hres1); cbn [is_Exception].
  - split; [exact Hin1|]. split; [exact Hsub1 | exact I].
  - eapply wp_mono; [apply Hh|]. intros r e2 (Hin2 & Hsub2 & Hres2).
    split; [apply Forall_app; split; assumption|].
    split; [|exact Hres2].
    rewrite submitted_app. apply sublist_nil_r in Hsub2. rewrite Hsub2, app_nil_r.
    exact Hsub1.
  - split; [exact Hin1|]. split; [exact Hsub1 | exact Hres1].
  - contradiction.
Qed.

End PinSteps.

Section PinSpecs.
Variable site : pin_replies.

Local Ltac pin_seq X1 X2 := apply (pin_bind site _ _ X1 X2); [|intros ?].
Local Ltac pin_done :=
  first [ apply pin_ret | apply pin_advance | apply pin_fail | apply pin_time
        | apply pin_call; intros; econstructor; eassumption ].

Lemma upload_image_post image_path :
  wp (upload_image site image_path) (pin_post site [SendFile image_path]).
Proof.
  unfold upload_image.
  pin_seq (@nil event) [SendFile image_path]; [pin_done|].
  pin_seq [SendFile image_path] (@nil event); [apply (pin_emit site (SendFile _) I)|].
  pin_seq (@nil event) (@nil event); pin_done.
Qed.

Lemma fill_field_post f text :
  wp (fill_field site f text) (pin_post site [Fill f text]).
Proof.
  unfold fill_field. apply pin_try.
  - pin_seq (@nil event) [Fill f text]; [pin_done|].
    pin_seq (@nil event) [Fill f text]; [pin_done|].
    pin_seq (@nil event) [Fill f text]; [destruct f; pin_done|].
    apply (pin_emit site (Fill _ _) I).
  - intros x. apply (pin_emit site (Log WARNING _) I).
Qed.

Lemma fill_pin_details_post title description link :
  wp (fill_pin_details site title description link)
     (pin_post site [Fill Title title; Fill Description description; Fill Link link]).
Proof.
  unfold fill_pin_details.
  pin_seq [Fill Title title] [Fill Description description; Fill Link link];
    [apply fill_field_post|].
  pin_seq [Fill Description description] [Fill Link link]; apply fill_field_post.
Qed.

Lemma select_board_post board :
  wp (select_board site board) (pin_post site [SearchBoard board]).
Proof.
  unfold select_board. apply pin_try.
  - pin_seq (@nil event) [SearchBoard board]; [pin_done|].
    match goal with b : bool |- _ => destruct b end; cbn [negb].
    + pin_seq (@nil event) [SearchBoard board]; [pin_done|].
      pin_seq (@nil event) [SearchBoard board]; [pin_done|].
      pin_seq (@nil event) [SearchBoard board]; [pin_done|].
      pin_seq (@nil event) [SearchBoard board]; [pin_done|].
      pin_seq [SearchBoard board] (@nil event); [apply (pin_emit site (SearchBoard _) I)|].
      pin_seq (@nil event) (@nil event); [pin_done|].
      pin_seq (@nil event) (@nil event); [pin_done|].
      pin_seq (@nil event) (@nil event).
      { match goal with b : bool |- _ => destruct b end; [|pin_done].
        pin_seq (@nil event) (@nil event); [apply (pin_emit site ClickBoard I) | pin_done]. }
      pin_seq (@nil event) (@nil event); [pin_done|].
      match goal with b : bool |- _ => destruct b end; [|pin_done].
      pin_seq (@nil event) (@nil event); [apply (pin_emit site ClickSave I) | pin_done].
    + apply pin_weaken with (X := []); [|apply sublist_nil_l].
      apply (pin_emit site (Log WARNING _) I).
  - intros x. apply (pin_emit site (Log WARNING _) I).
Qed.

Lemma publish_poll_post rounds deadline k :
  wp (publish_poll rounds site deadline k) (pin_post site []).
Proof.
  revert k. induction rounds as [|rounds IH]; intros k; cbn [publish_poll]; [pin_done|].
  pin_seq (@nil event) (@nil event); [pin_done|].
  destruct (_ <? _); [|pin_done].
  pin_seq (@nil event) (@nil event); [pin_done|].
  match goal with b : bool |- _ => destruct b end; cbn [negb]; [|pin_done].
  pin_seq (@nil event) (@nil event); [pin_done | apply IH].
Qed.

Lemma wait_for_publish_post timeout :
  wp (wait_for_publish site timeout) (pin_post site []).
Proof.
  unfold wait_for_publish.
  pin_seq (@nil event) (@nil event); [pin_done|].
  pin_seq (@nil event) (@nil event); [apply publish_poll_post|].
  match goal with b : bool |- _ => destruct b end; [pin_done|].
  pin_seq (@nil event) (@nil event); [apply (pin_emit site (Log WARNING _) I) | pin_done].
Qed.

Lemma post_single_pin_post image_path v :
  wp (post_single_pin site image_path (pin_title v) (pin_description v) (pin_link v)
        (pin_board v))
     (pin_post site (submission image_path v)).
Proof.
  unfold post_single_pin, submission.
  apply (pin_bind site _ _ [SendFile image_path]); [apply upload_image_post | intros _].
  apply (pin_bind site _ _ [Fill Title _; Fill Description _; Fill Link _]);
    [apply fill_pin_details_post | intros _].
  rewrite <- (app_nil_r (if truthy (pin_board v) then _ else _)).
  apply pin_bind; [destruct (truthy (pin_board v)); [apply select_board_post | pin_done]|].
  intros _. pin_seq (@nil event) (@nil event); [pin_done|].
  pin_seq (@nil event) (@nil event); [apply wait_for_publish_post | pin_done].
Qed.

End PinSpecs.

(** ** The posting loop *)

Lemma time_sleep_post site can_sleep v : wp (time_sleep can_sleep v) (pin_post site []).
Proof.
  assert (forall n,
             wp (if (n <=? - SLEEP_LIMIT) || (SLEEP_LIMIT <=? n)
                 then raise (Err OverflowError)
                 else if n <? 0 then raise (Err ValueError)
                      else if can_sleep n then advance (1000 * n) else raise (Err IOError))
                (pin_post site [])) as Hsleep.
  { intros n. destruct (_ || _); [apply pin_fail|].
    destruct (n <? 0); [apply pin_fail|].
    destruct (can_sleep n); [apply pin_advance | apply pin_fail]. }
  destruct v; cbn [time_sleep]; first [apply Hsleep | apply pin_fail].
Qed.

Lemma post_body_post w cfg total i image_path v :
  wp (post_body w cfg total i image_path v)
     (pin_post (pin_site w i) (submission image_path v)).
Proof.
  unfold post_body. set (site := pin_site w i).
  apply (pin_bind site _ _ [] (submission image_path v));
    [apply (pin_emit site (Get _) I) | intros _].
  apply (pin_bind site _ _ [] (submission image_path v));
    [apply pin_call; intros; econstructor; eassumption | intros _].
  apply (pin_bind site _ _ [] (submission image_path v));
    [apply time_sleep_post | intros _].
  apply (pin_bind site _ _ [] (submission image_path v));
    [apply pin_call; intros; econstructor; eassumption | intros _].
  apply post_single_pin_post.
Qed.

Lemma post_one_post w cfg csv_metadata d total i image_path :
  wp (post_one w cfg csv_metadata d total i image_path)
     (one_post w csv_metadata d total i image_path).
Proof.
  unfold post_one, one_post. apply wp_bind, wp_emit. apply wp_try_except, wp_bind.
  eapply wp_mono; [apply post_body_post|].
  intros [u|[e| |code]] body (Hinner & Hsub & Hres); cbn [is_Exception].
  - apply wp_bind, wp_emit, wp_ret. exists body. split; [exact Hinner|].
    split; [exact Hsub|]. left. exists true. split; reflexivity.
  - apply wp_bind, wp_emit, wp_ret. exists body. split; [exact Hinner|].
    split; [exact Hsub|]. left. exists false. split; reflexivity.
  - exists body. split; [exact Hinner|]. split; [exact Hsub|].
    right. split; [reflexivity|]. split; [exact Hres | reflexivity].
  - contradiction.
Qed.

Lemma inner_loop_event e : inner e -> loop_event e.
Proof. destruct e as [[] []| | | | | | | | | |]; cbn; trivial. Qed.

Lemma inner_silent body :
  Forall inner body -> postings body = [] /\ verdicts body = [].
Proof.
  induction 1 as [|e body He _ [IHp IHv]]; [split; reflexivity|].
  unfold postings, verdicts in *. cbn [omap list_omap]. rewrite IHp, IHv.
  destruct e as [[] []| | | | | | | | | |]; cbn in He |- *; try contradiction; split; reflexivity.
Qed.

Lemma post_loop_post w cfg csv_metadata d total images :
  forall i successful failed,
    wp (post_loop w cfg csv_metadata d total i images successful failed)
       (loop_post w csv_metadata d i images successful failed).
Proof.
  induction images as [|image_path rest IH]; intros i successful failed; cbn [post_loop].
  - apply wp_ret. split; [constructor|]. split; [constructor|].
    left. exists successful, failed. cbn. repeat split; lia.
  - apply wp_bind. eapply wp_mono; [apply post_one_post|].
    intros r evs (body & Hinner & Hsub & [(posted & -> & ->) | (-> & Hint & ->)]).
    + set (filename := PyPath.basename image_path).
      assert (wp (if posted
                  then post_loop w cfg csv_metadata d total (S i) rest (S successful) failed
                  else post_loop w cfg csv_metadata d total (S i) rest successful (S failed))
                (loop_post w csv_metadata d (S i) rest
                   (if posted then S successful else successful)
                   (if posted then failed else S failed))) as Hrest
        by (destruct posted; apply IH).
      eapply wp_mono; [exact Hrest|]. clear Hrest.
      intros r evs (Hloop & Hsubs & Hres).
      destruct (inner_silent body Hinner) as [Hbp Hbv].
      assert (Forall loop_event body) as Hbody
        by (eapply Forall_impl; [exact Hinner | exact inner_loop_event]).
      split; [|split].
      * rewrite <- app_comm_cons, <- app_assoc. apply Forall_cons. split; [exact I|].
        apply Forall_app. split; [exact Hbody|].
        apply Forall_cons. split; [destruct posted; exact I | exact Hloop].
      * unfold submissions in *. cbn [fmap list_fmap concat].
        change (submitted ((Log INFO (Posting i total filename) :: body
                            ++ [verdict total i filename posted]) ++ evs))
          with (submitted ((body ++ [verdict total i filename posted]) ++ evs)).
        rewrite !submitted_app.
        assert (submitted [verdict total i filename posted] = []) as ->
          by (destruct posted; reflexivity).
        rewrite app_nil_r. apply sublist_app; assumption.
      * destruct Hres as [(successful' & failed' & -> & Hp & Hv & Hs & Hf & Hsum) | Hint];
          [left | right; split; [apply Hint | apply Hint]].
        exists successful', failed'. split; [reflexivity|].
        assert (verdicts ((Log INFO (Posting i total filename) :: body
                           ++ [verdict total i filename posted]) ++ evs)
                = (i, posted) :: verdicts evs) as Hverdicts.
        { unfold verdicts in *. rewrite omap_app. cbn [omap list_omap verdict_of].
          rewrite omap_app, Hbv. destruct posted; reflexivity. }
        assert (postings ((Log INFO (Posting i total filename) :: body
                           ++ [verdict total i filename posted]) ++ evs)
                = (i, filename) :: postings evs) as Hpostings.
        { unfold postings in *. rewrite omap_app. cbn [omap list_omap posting_of].
          rewrite omap_app, Hbp. destruct posted; reflexivity. }
        unfold closed_as in *. rewrite Hverdicts, Hpostings.
        split; [cbn [announced]; rewrite Hp; reflexivity|].
        split; [cbn [fmap list_fmap length seq]; rewrite Hv; reflexivity|].
        rewrite !filter_cons. cbn [snd length] in *.
        destruct posted; repeat case_decide; try congruence; cbn [length]; lia.
    + split; [|split].
      * apply Forall_cons. split; [exact I|].
        eapply Forall_impl; [exact Hinner | exact inner_loop_event].
      * unfold submissions. cbn [fmap list_fmap concat].
        apply sublist_inserts_r. exact Hsub.
      * right. split; [reflexivity|]. exists i. exact Hint.
Qed.

(** ** The login gate and the guarded phase *)

Lemma login_poll_outcome w deadline rounds :
  forall k, wp (login_poll rounds w deadline k) login_poll_post.
Proof.
  unfold login_poll_post.
  induction rounds as [|rounds IH]; intros k; cbn [login_poll].
  - apply wp_ret. right. split; [left; reflexivity | reflexivity].
  - apply wp_bind, wp_time_time. intros now. destruct (now <? deadline).
    + apply wp_bind, wp_call. destruct (current_url w k) as [url| |].
      * destruct (negb (PyStr.contains "/login" url)).
        -- apply wp_bind, wp_emit, wp_ret. left. split; reflexivity.
        -- apply wp_bind, wp_advance. eapply wp_mono; [apply IH|].
           intros r evs H. exact H.
      * right. split; [right; left; reflexivity | reflexivity].
      * right. split; [right; right; reflexivity | reflexivity].
    + apply wp_ret. right. split; [left; reflexivity | reflexivity].
Qed.

Lemma wait_for_login_post w timeout_seconds :
  wp (wait_for_login w timeout_seconds) (login_post w).
Proof.
  unfold wait_for_login, login_post.
  apply wp_bind, wp_emit. apply wp_bind, wp_call.
  destruct (login_page w) as [[]| |].
  2: { exists [Get PINTEREST_LOGIN_URL]. split; [repeat constructor|].
       right. right. left. split; [eexists; reflexivity | reflexivity]. }
  2: { exists [Get PINTEREST_LOGIN_URL]. split; [repeat constructor|].
       right. right. right. split; reflexivity. }
  do 3 apply wp_bind, wp_emit. apply wp_bind. unfold format.
  destruct (printable timeout_seconds); [apply wp_ret | apply wp_raise].
  2: { exists [Get PINTEREST_LOGIN_URL; Log INFO LoginPageOpened; Print Blank;
               Print PleaseLogIn].
       split; [repeat constructor|].
       right. right. left. split; [eexists; reflexivity | reflexivity]. }
  do 2 apply wp_bind, wp_emit. apply wp_bind.
  set (header := [Log INFO LoginPageOpened; Print Blank; Print PleaseLogIn;
                  Print (YouHaveSeconds timeout_seconds); Print Blank]).
  assert (Forall login_event (Get PINTEREST_LOGIN_URL :: header)) as Hheader
    by (repeat constructor).
  assert (wp (seconds timeout_seconds)
             (fun r evs => evs = [] /\ ((exists t, r = Ret t) \/ exists e, r = Raise (Err e))))
    as Hseconds.
  { destruct timeout_seconds as [| |n| | |]; cbn [seconds]; try destruct (fits_float n);
      first [apply wp_ret | apply wp_raise]; (split; [reflexivity|]); eauto. }
  eapply wp_mono; [exact Hseconds|]. clear Hseconds.
  intros r evs (-> & [(timeout & ->) | (e & ->)]).
  2: { exists (Get PINTEREST_LOGIN_URL :: header). split; [exact Hheader|].
       right. right. left. split; [eexists; reflexivity | reflexivity]. }
  apply wp_bind, wp_time_time. intros now. apply wp_bind.
  eapply wp_mono; [apply login_poll_outcome|].
  intros r evs [(-> & ->) | ([-> | [-> | ->]] & ->)].
  - apply wp_ret. exists (Get PINTEREST_LOGIN_URL :: header ++ [Log INFO LoginDetected]).
    split; [|left; split; reflexivity].
    apply Forall_cons. split; [exact I|]. apply Forall_app. split; repeat constructor.
  - assert (Forall login_event (Get PINTEREST_LOGIN_URL :: header ++ [Input AskLoggedIn]))
      as Hasked
      by (apply Forall_cons; split; [exact I|]; apply Forall_app; split; repeat constructor).
    apply wp_bind, wp_input. destruct (keyboard w AskLoggedIn) eqn:Hkeys.
    + fold (choice w). destruct (String.eqb_spec (choice w) "y") as [Hyes|Hno].
      * apply wp_ret. exists (Get PINTEREST_LOGIN_URL :: header ++ [Input AskLoggedIn]).
        split; [exact Hasked | left; split; reflexivity].
      * apply wp_bind, wp_emit, wp_ret.
        exists (Get PINTEREST_LOGIN_URL :: header ++ [Input AskLoggedIn]).
        split; [exact Hasked|].
        right; left; split; [reflexivity | split; [split; [exact Hkeys | exact Hno] | reflexivity]].
    + exists (Get PINTEREST_LOGIN_URL :: header ++ [Input AskLoggedIn]).
      split; [exact Hasked|]. right. right. right. split; reflexivity.
    + exists (Get PINTEREST_LOGIN_URL :: header ++ [Input AskLoggedIn]).
      split; [exact Hasked|]. right. right. left. split; [eexists; reflexivity | reflexivity].
  - exists (Get PINTEREST_LOGIN_URL :: header). split; [exact Hheader|].
    right. right. left. split; [eexists; reflexivity | reflexivity].
  - exists (Get PINTEREST_LOGIN_URL :: header). split; [exact Hheader|].
    right. right. right. split; reflexivity.
Qed.

Lemma session_outcome w cfg images csv_metadata d :
  wp (session w cfg images csv_metadata d) (session_post w csv_metadata d images).
Proof.
  unfold session, session_post.
  apply wp_try_finally, wp_try_except, wp_bind.
  eapply wp_mono; [apply wait_for_login_post|].
  intros r evs
    (pre & Hpre & [(-> & ->) | [(-> & Hno & ->) | [((e & ->) & ->) | (-> & ->)]]]);
    cbn [negb is_KeyboardInterrupt].
  - apply wp_bind, wp_ret. apply wp_bind, wp_emit. apply wp_bind.
    eapply wp_mono; [apply post_loop_post|].
    intros r pins Hloop.
    destruct Hloop as (Hevents & Hsub & [(successful & failed & -> & Hfacts) | (-> & Hint)]).
    + do 2 apply wp_bind, wp_emit. apply wp_emit. apply wp_bind, wp_emit. apply wp_emit.
      exists pre. split; [exact Hpre|]. right. right. right. left.
      split; [reflexivity|]. exists pins, successful, failed. split.
      * split; [exact Hevents|]. split; [exact Hsub|]. left.
        exists successful, failed. split; [reflexivity | exact Hfacts].
      * cbn [fst snd]. rewrite <- ?app_assoc. reflexivity.
    + cbn [is_KeyboardInterrupt]. apply wp_emit. apply wp_bind, wp_emit. apply wp_emit.
      exists pre. split; [exact Hpre|]. right. right. right. right.
      split; [reflexivity|]. exists pins. split; [exact Hevents|]. split; [exact Hint|].
      rewrite <- ?app_assoc. reflexivity.
  - apply wp_bind. apply wp_bind, wp_emit. apply wp_raise. cbn [is_KeyboardInterrupt].
    apply wp_bind, wp_emit. apply wp_emit.
    exists pre. split; [exact Hpre|]. left. split; [reflexivity|]. split; [exact Hno|].
    rewrite <- ?app_assoc. reflexivity.
  - apply wp_bind, wp_emit. apply wp_emit.
    exists pre. split; [exact Hpre|]. right. left.
    split; [eexists; reflexivity | rewrite <- ?app_assoc; reflexivity].
  - apply wp_emit. apply wp_bind, wp_emit. apply wp_emit.
    exists pre. split; [exact Hpre|]. right. right. left.
    split; [reflexivity | rewrite <- ?app_assoc; reflexivity].
Qed.

Lemma wp_result {A} (m : M A) (Q : res A -> list event -> Prop) (P : res A -> Prop) :
  wp m Q -> (forall s, P (m s).1) -> wp m (fun r evs => Q r evs /\ P r).
Proof.
  intros Hm HP s. destruct (Hm s) as (c & evs & r & Hrun & HQ).
  exists c, evs, r. split; [exact Hrun|]. split; [exact HQ|].
  specialize (HP s). rewrite Hrun in HP. exact HP.
Qed.

(** [except Exception] with a handler that raises nothing leaves no
    exception behind. *)
Lemma try_except_caught {A} (m : M A) (h : exn -> M A) s :
  (forall x s', exists a, (h x s').1 = Ret a) ->
  forall e, (try_except m is_Exception h s).1 <> Raise (Err e).
Proof.
  intros Hh e. unfold try_except. destruct (m s) as [[a|[e'| |code]] s']; cbn; try discriminate.
  destruct (Hh (Err e') s') as (a & Ha). rewrite Ha. discriminate.
Qed.

(** ** Tolerated failures inside a pin *)

Lemma fill_pin_details_exact site title description link s :
  (forall f, r_field site f <> Interrupts) ->
  exists c,
    fill_pin_details site title description link s
    = (Ret tt, mkState c (trace s ++ field_events site Title title
                            ++ field_events site Description description
                            ++ field_events site Link link)).
Proof.
  intros Hfields.
  pose proof (Hfields Title) as Ht. pose proof (Hfields Description) as Hd.
  pose proof (Hfields Link) as Hl.
  unfold fill_pin_details, fill_field, field_events.
  destruct (r_field site Title) as [[]| |]; [| |congruence];
    (destruct (r_field site Description) as [[]| |]; [| |congruence]);
    (destruct (r_field site Link) as [[]| |]; [| |congruence]);
    eexists;
    cbv [bind try_except call ret raise emit advance logger_warning is_Exception clock trace];
    rewrite <- ?app_assoc; reflexivity.
Qed.

Lemma select_board_returns site board :
  ~ interrupts site -> wp (select_board site board) (fun r _ => r = Ret tt).
Proof.
  intros Hquiet. eapply wp_mono.
  - apply wp_result with (P := fun r => forall e, r <> Raise (Err e));
      [apply select_board_post|].
    intros s. apply try_except_caught. intros x s'. exists tt. reflexivity.
  - intros [[]|[e| |code]] evs [(_ & _ & Hres) Hcaught]; cbn in Hres;
      [reflexivity | destruct (Hcaught e eq_refl) | contradiction | contradiction].
Qed.

Lemma publish_poll_timeout site deadline rounds :
  (forall k, r_saving site k = Done true) ->
  forall k, wp (publish_poll rounds site deadline k) (fun r evs => r = Ret false /\ evs = []).
Proof.
  intros Hsaving. induction rounds as [|rounds IH]; intros k; cbn [publish_poll].
  - apply wp_ret. split; reflexivity.
  - apply wp_bind, wp_time_time. intros now. destruct (now <? deadline).
    + rewrite Hsaving. apply wp_bind, wp_call. cbn [negb].
      apply wp_bind, wp_advance. eapply wp_mono; [apply IH|].
      intros r evs H. exact H.
    + apply wp_ret. split; reflexivity.
Qed.

Lemma wait_for_publish_timeout site timeout :
  (forall k, r_saving site k = Done true) ->
  wp (wait_for_publish site timeout)
     (fun r evs => r = Ret false /\ evs = [Log WARNING PublishTimeout]).
Proof.
  intros Hsaving. unfold wait_for_publish.
  apply wp_bind, wp_time_time. intros now. apply wp_bind.
  eapply wp_mono; [apply publish_poll_timeout, Hsaving|].
  intros r evs (-> & ->). apply wp_bind, wp_emit, wp_ret. split; reflexivity.
Qed.

Lemma time_sleep_sleeps can_sleep n :
  0 <= n < SLEEP_LIMIT -> can_sleep n = true ->
  time_sleep can_sleep (PInt n) = advance (1000 * n).
Proof.
  intros Hn Hcan. unfold time_sleep.
  destruct (Z.leb_spec n (- SLEEP_LIMIT)); [unfold SLEEP_LIMIT in *; lia|].
  destruct (Z.leb_spec SLEEP_LIMIT n); [lia|]. cbn [orb].
  destruct (Z.ltb_spec n 0); [lia|]. rewrite Hcan. reflexivity.
Qed.

Lemma publish_timeout_still_posted w cfg csv_metadata d total i image_path :
  reaches_publish w i cfg ->
  ~ interrupts (pin_site w i) ->
  (forall k, r_saving (pin_site w i) k = Done true) ->
  wp (post_one w cfg csv_metadata d total i image_path)
     (fun r evs =>
        r = Ret true
        /\ Log WARNING PublishTimeout ∈ evs
        /\ Log INFO (PinPosted i total) ∈ evs).
Proof.
  intros (Hget & Hbuilder & Hfile & Hsend & n & Hdelay & Hn & Hcan) Hquiet Hsaving.
  unfold post_one, post_body, post_single_pin, upload_image.
  rewrite Hget, Hbuilder, Hfile, Hsend, Hdelay, (time_sleep_sleeps _ n Hn Hcan).
  apply wp_bind, wp_emit. apply wp_try_except.
  apply wp_bind. apply wp_bind, wp_emit. apply wp_bind, wp_call.
  apply wp_bind, wp_advance.
  apply wp_bind, wp_call. apply wp_bind.
  apply wp_bind, wp_call. apply wp_bind, wp_emit. apply wp_bind, wp_call. apply wp_advance.
  apply wp_bind.
  assert (wp (fill_pin_details (pin_site w i)
                (pin_title (resolve csv_metadata d image_path))
                (pin_description (resolve csv_metadata d image_path))
                (pin_link (resolve csv_metadata d image_path)))
             (fun r _ => r = Ret tt)) as Hfill.
  { intros s.
    destruct (fill_pin_details_exact (pin_site w i)
                (pin_title (resolve csv_metadata d image_path))
                (pin_description (resolve csv_metadata d image_path))
                (pin_link (resolve csv_metadata d image_path)) s) as (c & Hrun).
    - intros f Hf. apply Hquiet. econstructor; exact Hf.
    - eexists _, _, _. split; [exact Hrun | reflexivity]. }
  eapply wp_mono; [exact Hfill|]. clear Hfill. intros r fills ->.
  apply wp_bind.
  assert (wp (if truthy (pin_board (resolve csv_metadata d image_path))
              then select_board (pin_site w i) (pin_board (resolve csv_metadata d image_path))
              else ret tt)
             (fun r _ => r = Ret tt)) as Hboard.
  { destruct (truthy _); [apply select_board_returns, Hquiet | apply wp_ret; reflexivity]. }
  eapply wp_mono; [exact Hboard|]. clear Hboard. intros r picks ->.
  apply wp_bind, wp_advance. apply wp_bind.
  eapply wp_mono; [apply wait_for_publish_timeout, Hsaving|].
  intros r evs (-> & ->). apply wp_ret. apply wp_bind, wp_emit, wp_ret.
  split; [reflexivity|]. rewrite !elem_of_app, !elem_of_cons. split; tauto.
Qed.

(** C9: inside one pin, a field that cannot be filled leaves a warning
    and the other fields are still filled, the pin going on; and when
    the pin gets to the publish wait (the builder page loads, the
    configured delay is a number of seconds that can be slept, the
    file is accepted) and the saving indicator never disappears, the
    timeout leaves a warning and the pin is still counted as posted. *)
Theorem C9_tolerated_failures (w : world) (cfg : config) (csv_metadata : metadata)
    (d : run_defaults) (total i : nat) (image_path : string) (s : state) :
  let site := pin_site w i in
  ~ interrupts site ->
  (forall title description link,
     exists c,
       fill_pin_details site title description link s
       = (Ret tt, mkState c (trace s ++ field_events site Title title
                               ++ field_events site Description description
                               ++ field_events site Link link)))
  /\ (reaches_publish w i cfg ->
      (forall k, r_saving site k = Done true) ->
      exists c evs,
        post_one w cfg csv_metadata d total i image_path s
        = (Ret true, mkState c (trace s ++ evs))
        /\ Log WARNING PublishTimeout ∈ evs
        /\ Log INFO (PinPosted i total) ∈ evs).
Proof.
  intros site Hquiet. split.
  - intros title description link. apply fill_pin_details_exact.
    intros f Hf. apply Hquiet. econstructor; exact Hf.
  - intros Hreach Hsaving.
    destruct (publish_timeout_still_posted w cfg csv_metadata d total i image_path
                Hreach Hquiet Hsaving s) as (c & evs & r & Hrun & -> & Hwarn & Hposted).
    exists c, evs. split; [exact Hrun | split; assumption].
Qed.

(** ** Failure isolation *)

(** Discharges [~ interrupts site] on a concrete site. *)
Ltac quiet_site :=
  let H := fresh in
  intros H; destruct H as [H|H|H|H|f H|H|H|H|H|H|k H]; cbn in H;
  repeat match goal with
         | H' : context [if ?b then _ else _] |- _ => destruct b; cbn in H'
         end;
  try discriminate H; try (destruct f; discriminate H).

(** C2: when no browser call is cut by the operator, the loop attempts
    every discovered image exactly once and in order, closes each with
    one verdict, and ends with succeeded + failed equal to the number
    of images; an image whose posting sequence raises an exception is
    counted as failed and the loop goes on with the next image. *)
Theorem C2_failures_are_isolated (w : world) (cfg : config) (csv_metadata : metadata)
    (d : run_defaults) (images : list string) :
  (forall j, ~ interrupts (pin_site w j)) ->
  let total := length images in
  (forall s, exists successful failed c evs,
      post_loop w cfg csv_metadata d total 1 images 0 0 s
      = (Ret (successful, failed), mkState c (trace s ++ evs))
      /\ postings evs = announced 1 images
      /\ (verdicts evs).*1 = seq 1 total
      /\ successful = closed_as true evs
      /\ failed = closed_as false evs
      /\ (successful + failed = total)%nat)
  /\ (forall i image_path rest successful failed s e s1,
        post_body w cfg total i image_path (resolve csv_metadata d image_path)
          (after s [Log INFO (Posting i total (PyPath.basename image_path))])
        = (Raise (Err e), s1) ->
        post_loop w cfg csv_metadata d total i (image_path :: rest) successful failed s
        = post_loop w cfg csv_metadata d total (S i) rest successful (S failed)
            (after s1 [Log ERROR (PinFailed i total (PyPath.basename image_path))])).
Proof.
  intros Hquiet total. split.
  - intros s.
    destruct (post_loop_post w cfg csv_metadata d total images 1 0 0 s)
      as (c & evs & r & Hrun & _ & _ & Hres).
    destruct Hres as [(successful & failed & -> & Hp & Hv & Hs & Hf & Hsum) | (_ & j & Hj)];
      [|destruct (Hquiet j Hj)].
    exists successful, failed, c, evs. cbn in Hs, Hf, Hsum.
    split; [exact Hrun|]. repeat (split; [assumption|]). exact Hsum.
  - intros i image_path rest successful failed s e s1 Hraise.
    cbn [post_loop]. unfold post_one, bind at 1 2, try_except, logger_info, emit at 1.
    change (mkState (clock s) (trace s ++ [Log INFO (Posting i total (PyPath.basename image_path))]))
      with (after s [Log INFO (Posting i total (PyPath.basename image_path))]).
    unfold bind at 1. rewrite Hraise. reflexivity.
Qed.

Lemma C2_witness :
  let w := demo_world None (fun _ => "T") 1
             (fun i => if (i =? 2)%nat then site_upload_fails else site_ok) in
  let images := ["/pins/a.jpg"; "/pins/b.jpg"; "/pins/c.jpg"] in
  exists successful failed c evs,
    post_loop w defaults ∅ (mkDefaults "T" "" "" (PStr "Pins")) 3 1 images 0 0 initial
    = (Ret (successful, failed), mkState c (trace initial ++ evs))
    /\ postings evs = announced 1 images
    /\ (verdicts evs).*1 = seq 1 3
    /\ successful = closed_as true evs
    /\ failed = closed_as false evs
    /\ (successful + failed = 3)%nat.
Proof.
  intros w images.
  apply (proj1 (C2_failures_are_isolated w defaults ∅ (mkDefaults "T" "" "" (PStr "Pins"))
                  images ltac:(intros j; quiet_site))).
Defined.

(** One of three pins fails at the upload: two are posted, one has
    failed, and the third is attempted after the failure. *)
Example one_of_three_fails :
  let w := demo_world None (fun _ => "T") 1
             (fun i => if (i =? 2)%nat then site_upload_fails else site_ok) in
  let r := post_loop w defaults ∅ (mkDefaults "T" "" "" (PStr "Pins")) 3 1
             ["/pins/a.jpg"; "/pins/b.jpg"; "/pins/c.jpg"] 0 0 initial in
  r.1 = Ret (2%nat, 1%nat)
  /\ verdicts (trace r.2) = [(1%nat, true); (2%nat, false); (3%nat, true)].
Proof. vm_compute. split; reflexivity. Qed.

(** ** The login gate, step by step *)

Lemma rounds_left_timeout now T : rounds_left (now + 1000 * T) now 1000 = Z.to_nat T.
Proof.
  unfold rounds_left. f_equal.
  replace (now + 1000 * T - now + 1000 - 1) with (T * 1000 + 999) by lia.
  rewrite Z.div_add_l by lia. change (999 / 1000) with 0. lia.
Qed.

Lemma login_poll_detects w deadline :
  forall j rounds k s,
    (j < rounds)%nat ->
    clock s + 1000 * Z.of_nat j < deadline ->
    (forall i, (i < j)%nat -> on_login_page w (k + i)) ->
    left_login_page w (k + j) ->
    login_poll rounds w deadline k s
    = (Ret true, mkState (clock s + 1000 * Z.of_nat j) (trace s ++ [Log INFO LoginDetected])).
Proof.
  induction j as [|j IH]; intros rounds k s Hrounds Hclock Hon Hleft;
    (destruct rounds as [|rounds]; [lia|]); cbn [login_poll];
    unfold bind at 1, time_time at 1;
    (destruct (Z.ltb_spec (clock s) deadline) as [_|Hlate]; [|lia]).
  - destruct Hleft as (url & Hurl & Hnot). rewrite Nat.add_0_r in Hurl.
    unfold bind at 1. rewrite Hurl. cbn [call ret]. rewrite Hnot. cbn [negb].
    cbv [bind logger_info emit ret]. cbn [clock trace]. do 2 f_equal; lia.
  - destruct (Hon 0%nat ltac:(lia)) as (url & Hurl & Hlogin). rewrite Nat.add_0_r in Hurl.
    unfold bind at 1. rewrite Hurl. cbn [call ret]. rewrite Hlogin. cbn [negb].
    unfold bind at 1, advance at 1.
    rewrite (IH rounds (S k) (mkState (clock s + 1000) (trace s))); cbn [clock trace].
    + do 2 f_equal; lia.
    + lia.
    + lia.
    + intros i Hi. replace (S k + i)%nat with (k + S i)%nat by lia. apply Hon. lia.
    + replace (S k + j)%nat with (k + S j)%nat by lia. exact Hleft.
Qed.


Lemma header_logged s timeout_seconds :
  mkState (clock s)
    ((((((trace s ++ [Get PINTEREST_LOGIN_URL]) ++ [Log INFO LoginPageOpened])
          ++ [Print Blank]) ++ [Print PleaseLogIn])
        ++ [Print (YouHaveSeconds timeout_seconds)]) ++ [Print Blank])
  = after s (login_header timeout_seconds).
Proof. unfold after, login_header. rewrite <- !app_assoc. reflexivity. Qed.

(** A number the clock can hold can be printed. *)
Lemma fits_float_printable n : fits_float n = true -> printable (PInt n) = true.
Proof.
  unfold fits_float. cbn [printable]. intros H.
  apply andb_true_iff in H as [Hlow Hhigh]. apply Z.ltb_lt in Hlow, Hhigh. apply Z.ltb_lt.
  assert (FLOAT_LIMIT <= 10 ^ MAX_STR_DIGITS) as Hlimit by (vm_compute; discriminate).
  set (limit := 10 ^ MAX_STR_DIGITS) in *. clearbody limit. lia.
Qed.

(** The gate up to its polling loop, for a timeout the clock can
    hold. *)
Lemma wait_for_login_polls w T s :
  login_page w = Done tt ->
  fits_float T = true ->
  wait_for_login w (PInt T) s
  = (detected <- login_poll (S (Z.to_nat T)) w (clock s + 1000 * T) 0;;
     if detected then ret true
     else
       answer <- input w AskLoggedIn;;
       let choice := PyStr.lower (PyStr.strip answer) in
       if String.eqb choice "y" then ret true
       else logger_error LoginNotConfirmed;;; ret false)
      (after s (login_header (PInt T))).
Proof.
  intros Hpage Hfits. unfold wait_for_login, format. rewrite Hpage.
  cbn [seconds]. rewrite Hfits, (fits_float_printable T Hfits).
  unfold bind at 1, emit at 1. unfold bind at 1. cbn [call].
  unfold bind at 1, logger_info at 1, emit at 1.
  do 2 (unfold bind at 1, print at 1, emit at 1).
  unfold bind at 1, ret at 1.
  do 2 (unfold bind at 1, print at 1, emit at 1).
  unfold bind at 1, ret at 1. unfold bind at 1, time_time at 1. cbn [clock trace].
  rewrite header_logged. unfold ret at 1. cbn [clock after].
  rewrite rounds_left_timeout. reflexivity.
Qed.

Lemma wait_for_login_detects w T j s :
  login_page w = Done tt ->
  fits_float T = true ->
  (j < Z.to_nat T)%nat ->
  (forall i, (i < j)%nat -> on_login_page w i) ->
  left_login_page w j ->
  wait_for_login w (PInt T) s
  = (Ret true,
     mkState (clock s + 1000 * Z.of_nat j)
             (trace s ++ login_header (PInt T) ++ [Log INFO LoginDetected])).
Proof.
  intros Hpage Hfits Hj Hon Hleft. rewrite (wait_for_login_polls w T s Hpage Hfits).
  unfold bind at 1.
  rewrite (login_poll_detects w _ j (S (Z.to_nat T)) 0 (after s (login_header (PInt T))));
    cbn [after clock trace]; [| lia | lia | exact Hon | exact Hleft].
  cbn [ret]. rewrite <- app_assoc. reflexivity.
Qed.




(** ** Exit paths *)











Section Setup.
Variable w : world.















End Setup.

Lemma postings_app e1 e2 : postings (e1 ++ e2) = postings e1 ++ postings e2.
Proof. apply omap_app. Qed.

Lemma verdicts_app e1 e2 : verdicts (e1 ++ e2) = verdicts e1 ++ verdicts e2.
Proof. apply omap_app. Qed.

Section Main.
Variable w : world.




End Main.






(** A misspelt option: the run ends with status 2 after the banner. *)
Example usage_error_exits_2 :
  let w := with_command_line UsageError
             (demo_world None (fun _ => "T") 1 (fun _ => site_ok)) in
  exit_status (run w).1 = 2 /\ trace (run w).2 = [Print Banner].
Proof. vm_compute. split; reflexivity. Qed.

(** Per-pin failures leave the status at 0. *)
Example failed_pins_exit_zero :
  let w := demo_world None (fun _ => "T") 1 (fun _ => site_upload_fails) in
  exit_status (run w).1 = 0
  /\ Print (Completed 0 3 3) ∈ trace (run w).2.
Proof. vm_compute. split; [reflexivity|]. repeat first [left | right]. Qed.

(** ** From start to the guarded phase *)

Lemma collect_defaults_exact w csv_metadata board s :
  (forall q, q <> AskLoggedIn -> keyboard w q = Line) ->
  collect_defaults w csv_metadata board s
  = (Ret (prompted_defaults w csv_metadata board),
     after s (prompt_events csv_metadata board)).
Proof.
  intros Hkeys.
  unfold collect_defaults, prompted_defaults, prompt_events, prompted_board, after, input.
  rewrite !Hkeys by discriminate.
  destruct (bool_decide (csv_metadata = ∅)), (truthy board); cbn [negb];
    cbv [bind print input emit ret]; cbn [clock trace app default_title
                                          default_description default_link];
    rewrite <- ?app_assoc, ?app_nil_r; cbn [app]; destruct s; reflexivity.
Qed.

Lemma post_all_exact w p s :
  (forall q, q <> AskLoggedIn -> keyboard w q = Line) ->
  chrome_starts w = Done tt ->
  post_all w p s
  = session w (run_config p) (run_images p) (run_metadata p)
      (prompted_defaults w (run_metadata p) (run_board p))
      (after s (prompt_events (run_metadata p) (run_board p)
                ++ [Log INFO StartingChrome; LaunchChrome (run_headless p)])).
Proof.
  intros Hkeys Hchrome. unfold post_all, bind at 1.
  rewrite (collect_defaults_exact w _ _ s Hkeys).
  unfold create_driver. rewrite Hchrome.
  cbv [bind logger_info emit try_except call ret]. cbn [clock trace after].
  rewrite <- !app_assoc. reflexivity.
Qed.

Lemma run_exact w p s :
  prepare w initial = (Ret p, s) ->
  (forall q, q <> AskLoggedIn -> keyboard w q = Line) ->
  chrome_starts w = Done tt ->
  run w
  = session w (run_config p) (run_images p) (run_metadata p)
      (prompted_defaults w (run_metadata p) (run_board p))
      (after s (prompt_events (run_metadata p) (run_board p)
                ++ [Log INFO StartingChrome; LaunchChrome (run_headless p)])).
Proof.
  intros Hprepare Hkeys Hchrome. unfold run, main, bind. rewrite Hprepare.
  apply post_all_exact; assumption.
Qed.


Lemma demo_stays_on_login csv answers leave sites i :
  (i < leave)%nat -> on_login_page (demo_world csv answers leave sites) i.
Proof.
  intros Hi. exists PINTEREST_LOGIN_URL. split; [|reflexivity].
  cbn [demo_world current_url]. apply Nat.ltb_lt in Hi. rewrite Hi. reflexivity.
Qed.

Lemma demo_leaves_login csv answers leave sites :
  left_login_page (demo_world csv answers leave sites) leave.
Proof.
  exists "https://www.pinterest.com/"%string. split; [|reflexivity].
  cbn [demo_world current_url]. rewrite Nat.ltb_irrefl. reflexivity.
Qed.


(** An answer typed after an ideographic space, in upper case, still
    confirms the login. *)
Example wide_space_answer_confirms :
  let w := demo_world None (fun _ => (IDEOGRAPHIC_SPACE ++ "Y")%string) 100 (fun _ => site_ok) in
  choice w = "y" /\ exit_status (run w).1 = 0.
Proof. vm_compute. split; reflexivity. Qed.

Lemma C9_witness :
  let w := demo_world None (fun _ => "T"%string) 1 (fun _ => site_flaky) in
  let d := mkDefaults "T" "" "" (PStr "Pins") in
  (forall title description link,
     exists c,
       fill_pin_details site_flaky title description link initial
       = (Ret tt, mkState c [Log WARNING (CouldNotFill Title); Fill Description description;
                             Log WARNING (CouldNotFill Link)]))
  /\ exists c evs,
       post_one w defaults ∅ d 1 1 "/pins/a.jpg" initial = (Ret true, mkState c evs)
       /\ Log WARNING PublishTimeout ∈ evs
       /\ Log INFO (PinPosted 1 1) ∈ evs.
Proof.
  intros w d.
  destruct (C9_tolerated_failures w defaults ∅ d 1 1 "/pins/a.jpg" initial
              ltac:(quiet_site)) as [Hfill Hpost].
  split; [exact Hfill|]. apply Hpost.
  - repeat (split; [reflexivity|]). exists 2.
    split; [vm_compute; reflexivity | split; [unfold SLEEP_LIMIT; lia | reflexivity]].
  - intros k. reflexivity.
Defined.

(** ** The summary *)





(** ** The end-to-end scenario *)

(** Two facts about the same run hold together. *)
Lemma wp_and {A} (m : M A) (Q1 Q2 : res A -> list event -> Prop) :
  wp m Q1 -> wp m Q2 -> wp m (fun r evs => Q1 r evs /\ Q2 r evs).
Proof.
  intros H1 H2 s.
  destruct (H1 s) as (c & evs & r & Hrun & HQ1).
  destruct (H2 s) as (c' & evs' & r' & Hrun' & HQ2).
  rewrite Hrun in Hrun'. injection Hrun' as Hr Hc Hevs.
  apply app_inv_head in Hevs. subst r' evs'.
  exists c, evs, r. split; [exact Hrun|]. split; [exact HQ1 | exact HQ2].
Qed.

(** A fact that holds of every run under [H] holds of the one run
    there is, under [H]. *)
Lemma wp_when {A} (m : M A) (H : Prop) (Q0 Q : res A -> list event -> Prop) :
  wp m Q0 -> (H -> wp m Q) -> wp m (fun r evs => H -> Q r evs).
Proof.
  intros H0 HQ s. destruct (H0 s) as (c & evs & r & Hrun & _).
  exists c, evs, r. split; [exact Hrun|]. intros h.
  destruct (HQ h s) as (c' & evs' & r' & Hrun' & Hpost).
  rewrite Hrun in Hrun'. injection Hrun' as Hr Hc Hevs.
  apply app_inv_head in Hevs. subst r' evs'. exact Hpost.
Qed.

Lemma time_sleep_sleepable can_sleep v :
  sleepable can_sleep v ->
  wp (time_sleep can_sleep v) (fun r evs => r = Ret tt /\ evs = []).
Proof.
  destruct v as [|b|n|str|l|items]; cbn [sleepable]; try contradiction.
  - intros Hcan. unfold time_sleep. destruct b; cbn; rewrite Hcan;
      apply wp_advance; split; reflexivity.
  - intros [Hn Hcan]. rewrite (time_sleep_sleeps _ n Hn Hcan).
    apply wp_advance. split; reflexivity.
Qed.

Lemma select_board_submits site board :
  r_dropdown site = Done true -> r_open site = Done tt -> r_search site = Done tt ->
  wp (select_board site board) (fun _ evs => submitted evs = [SearchBoard board]).
Proof.
  intros Hdrop Hopen Hsearch. unfold select_board. rewrite Hdrop, Hopen, Hsearch.
  apply wp_try_except.
  apply wp_bind, wp_call. cbn [negb].
  apply wp_bind, wp_call. apply wp_bind, wp_advance. apply wp_bind, wp_advance.
  apply wp_bind, wp_call. apply wp_bind, wp_emit. apply wp_bind, wp_advance.
  cbn [app].
  assert (wp (first_board <- call (r_first_board site);;
              (if first_board then emit ClickBoard;;; advance 1000 else ret tt);;;
              save_btn <- call (r_save_button site);;
              (if save_btn then emit ClickSave;;; advance 1000 else ret tt))
             (pin_post site [])) as Hrest.
  { apply (pin_bind site _ _ [] []);
      [apply pin_call; intros; econstructor; eassumption | intros first_board].
    apply (pin_bind site _ _ [] []).
    { destruct first_board; [|apply pin_ret].
      apply (pin_bind site _ _ [] []);
        [apply (pin_emit site ClickBoard I) | intros _; apply pin_advance]. }
    intros _. apply (pin_bind site _ _ [] []);
      [apply pin_call; intros; econstructor; eassumption | intros save_btn].
    destruct save_btn; [|apply pin_ret].
    apply (pin_bind site _ _ [] []);
      [apply (pin_emit site ClickSave I) | intros _; apply pin_advance]. }
  eapply wp_mono; [exact Hrest|]. intros r e1 (_ & Hsub & _).
  apply sublist_nil_r in Hsub.
  assert (submitted (SearchBoard board :: e1) = [SearchBoard board]) as Hall
    by (change (SearchBoard board :: e1) with ([SearchBoard board] ++ e1);
        rewrite submitted_app, Hsub; reflexivity).
  destruct r as [u|x]; [exact Hall|].
  destruct (is_Exception x); [|exact Hall].
  apply wp_emit.
  change (SearchBoard board :: submitted (e1 ++ [Log WARNING (CouldNotSelectBoard board)])
          = [SearchBoard board]).
  rewrite submitted_app, Hsub. reflexivity.
Qed.

Lemma post_body_submits w cfg total i image_path v :
  accepts w i cfg ->
  wp (post_body w cfg total i image_path v)
     (fun _ evs => submitted evs = submission image_path v).
Proof.
  intros (Hget & Hsleep & Hbuilder & Hfile & Hsend & Hfields & Hdrop & Hopen & Hsearch).
  unfold post_body, post_single_pin, upload_image.
  rewrite Hget, Hbuilder, Hfile, Hsend.
  apply wp_bind, wp_emit. apply wp_bind, wp_call. apply wp_bind.
  eapply wp_mono; [apply time_sleep_sleepable, Hsleep|]. intros r evs (-> & ->).
  apply wp_bind, wp_call. apply wp_bind.
  apply wp_bind, wp_call. apply wp_bind, wp_emit. apply wp_bind, wp_call. apply wp_advance.
  apply wp_bind.
  assert (wp (fill_pin_details (pin_site w i) (pin_title v) (pin_description v) (pin_link v))
             (fun r evs =>
                r = Ret tt
                /\ evs = [Fill Title (pin_title v); Fill Description (pin_description v);
                          Fill Link (pin_link v)])) as Hfill.
  { intros s.
    destruct (fill_pin_details_exact (pin_site w i) (pin_title v) (pin_description v)
                (pin_link v) s) as (c & Hrun).
    - intros f. rewrite Hfields. discriminate.
    - unfold field_events in Hrun. rewrite !Hfields in Hrun.
      eexists _, _, _. split; [exact Hrun | split; reflexivity]. }
  eapply wp_mono; [exact Hfill|]. clear Hfill. intros r fills (-> & ->).
  apply wp_bind.
  assert (wp (if truthy (pin_board v) then select_board (pin_site w i) (pin_board v)
              else ret tt)
             (fun _ evs =>
                submitted evs = if truthy (pin_board v) then [SearchBoard (pin_board v)]
                                else [])) as Hboard.
  { destruct (truthy (pin_board v));
      [apply select_board_submits; assumption | apply wp_ret; reflexivity]. }
  eapply wp_mono; [exact Hboard|]. clear Hboard. intros r picks Hpicks.
  assert (forall rest, submitted rest = [] ->
            submitted ([Get PINTEREST_PIN_BUILDER_URL] ++ [] ++ [] ++ []
                       ++ ([] ++ [SendFile image_path] ++ [] ++ [])
                       ++ [Fill Title (pin_title v); Fill Description (pin_description v);
                           Fill Link (pin_link v)] ++ picks ++ rest)
            = submission image_path v) as Hall.
  { intros rest Hrest. cbn [app]. unfold submission.
    change (submitted (Get PINTEREST_PIN_BUILDER_URL :: SendFile image_path
                       :: Fill Title (pin_title v) :: Fill Description (pin_description v)
                       :: Fill Link (pin_link v) :: picks ++ rest))
      with (SendFile image_path :: Fill Title (pin_title v)
            :: Fill Description (pin_description v) :: Fill Link (pin_link v)
            :: submitted (picks ++ rest)).
    rewrite submitted_app, Hpicks, Hrest, app_nil_r. reflexivity. }
  destruct r as [u|x]; [|rewrite <- (app_nil_r picks); apply Hall; reflexivity].
  apply wp_bind, wp_advance. apply wp_bind.
  eapply wp_mono; [apply wait_for_publish_post|]. intros r evs (_ & Hsub & _).
  apply sublist_nil_r in Hsub.
  destruct r as [published|x]; [apply wp_ret|]; cbn [app]; rewrite ?app_nil_r;
    apply (Hall evs Hsub).
Qed.

Lemma post_one_submits w cfg csv_metadata d total i image_path :
  accepts w i cfg ->
  wp (post_one w cfg csv_metadata d total i image_path)
     (fun _ evs => submitted evs = submission image_path (resolve csv_metadata d image_path)).
Proof.
  intros Haccepts. unfold post_one. apply wp_bind, wp_emit. apply wp_try_except, wp_bind.
  eapply wp_mono; [apply post_body_submits, Haccepts|].
  intros r body Hbody.
  assert (forall e, is_submission e = false ->
            submitted ([Log INFO (Posting i total (PyPath.basename image_path))]
                       ++ body ++ [e])
            = submission image_path (resolve csv_metadata d image_path)) as Hall.
  { intros e He. cbn beta in Hbody. rewrite !submitted_app, Hbody.
    assert (submitted [e] = []) as ->
      by (unfold submitted; cbn [List.filter]; rewrite He; reflexivity).
    rewrite app_nil_r. reflexivity. }
  destruct r as [u|x].
  - apply wp_bind, wp_emit, wp_ret. rewrite app_nil_r. apply Hall. reflexivity.
  - destruct (is_Exception x).
    + apply wp_bind, wp_emit, wp_ret. rewrite app_nil_r. apply Hall. reflexivity.
    + rewrite submitted_app, Hbody. reflexivity.
Qed.

Lemma post_loop_submits w cfg csv_metadata d total images :
  (forall i, accepts w i cfg) ->
  forall i successful failed,
    wp (post_loop w cfg csv_metadata d total i images successful failed)
       (fun r evs =>
          (exists counts, r = Ret counts) ->
          submitted evs = submissions csv_metadata d images).
Proof.
  intros Haccepts.
  induction images as [|image_path rest IH]; intros i successful failed; cbn [post_loop].
  - apply wp_ret. reflexivity.
  - apply wp_bind. eapply wp_mono; [apply post_one_submits, Haccepts|].
    intros [posted|x] evs Hpin; [|intros (counts & Hcounts); discriminate Hcounts].
    assert (wp (if posted
                then post_loop w cfg csv_metadata d total (S i) rest (S successful) failed
                else post_loop w cfg csv_metadata d total (S i) rest successful (S failed))
               (fun r evs =>
                  (exists counts, r = Ret counts) ->
                  submitted evs = submissions csv_metadata d rest)) as Hrest
      by (destruct posted; apply IH).
    eapply wp_mono; [exact Hrest|]. intros r more Hmore Hret.
    rewrite submitted_app, Hpin, (Hmore Hret). reflexivity.
Qed.

Lemma session_posts w cfg images csv_metadata d T j s :
  logs_in w T j ->
  dict_get cfg "login_wait_seconds" (PInt 60) = PInt T ->
  (forall i, ~ interrupts (pin_site w i)) ->
  exists c pins successful failed,
    session w cfg images csv_metadata d s
    = (Ret tt,
       mkState c (trace s ++ login_header (PInt T)
                    ++ Log INFO LoginDetected :: Print (StartingToPost (length images))
                       :: pins
                    ++ [Print Rule; Print (Completed successful failed (length images));
                        Print Rule; Quit; Log INFO BrowserClosed]))
    /\ loop_post w csv_metadata d 1 images 0 0 (Ret (successful, failed)) pins
    /\ ((forall i, accepts w i cfg) -> submitted pins = submissions csv_metadata d images).
Proof.
  intros (Hpage & Hfits & Hj & Hon & Hleft) Htimeout Hquiet.
  unfold session, try_finally, try_except. unfold bind at 1.
  rewrite Htimeout, (wait_for_login_detects w T j s Hpage Hfits Hj Hon Hleft).
  cbv [negb bind ret emit print logger_info]. cbn [clock trace].
  match goal with
  | |- context [post_loop w cfg csv_metadata d ?total 1 images 0 0 ?st] =>
      destruct (wp_and _ _ _ (post_loop_post w cfg csv_metadata d total images 1 0 0)
                  (wp_when _ (forall i, accepts w i cfg) _ _
                     (post_loop_post w cfg csv_metadata d total images 1 0 0)
                     (fun Haccepts =>
                        post_loop_submits w cfg csv_metadata d total images Haccepts 1 0 0))
                  st)
        as (c & pins & r & Hloop & Hpost & Hexact)
  end.
  rewrite Hloop. cbn [trace] in *.
  destruct Hpost as (Hevents & Hsub & Hres).
  destruct Hres as [(successful & failed & -> & Hfacts) | (_ & i & Hi)];
    [|destruct (Hquiet i Hi)].
  exists c, pins, successful, failed. split; [|split].
  - cbn [fst snd clock trace]. rewrite <- !app_assoc. reflexivity.
  - split; [exact Hevents|]. split; [exact Hsub|]. left.
    exists successful, failed. split; [reflexivity | exact Hfacts].
  - intros Haccepts. apply (Hexact Haccepts). eexists. reflexivity.
Qed.

Lemma resolve_blank csv_metadata board image_path :
  resolve csv_metadata (mkDefaults "" "" "" board) image_path
  = row_values (csv_metadata !! PyPath.basename image_path) board.
Proof.
  unfold resolve, row_values, get_or, get_board_or. cbn [default_title default_description
    default_link board_name].
  destruct (csv_metadata !! PyPath.basename image_path) as [[title description link b]|];
    [|reflexivity].
  cbn [meta_title meta_description meta_link meta_board].
  destruct title, description, link; reflexivity.
Qed.

Lemma covered_nonempty (csv_metadata : metadata) images :
  length (filter (fun image_path => is_Some (csv_metadata !! PyPath.basename image_path))
            images) = 2%nat ->
  csv_metadata <> ∅.
Proof.
  intros Hcovered ->.
  assert (filter (fun image_path => is_Some ((∅ : metadata) !! PyPath.basename image_path))
            images = []) as Hnone.
  { clear Hcovered. induction images as [|image_path images IH]; [reflexivity|].
    rewrite filter_cons_False; [exact IH|].
    rewrite lookup_empty. intros [row Hrow]. discriminate Hrow. }
  rewrite Hnone in Hcovered. discriminate Hcovered.
Qed.

(** C1, as stated, fails: with metadata for two of the three images
    the operator is never asked for a title, so the answer "T" is not
    used and the image without metadata is posted with an empty
    title. *)
Lemma C1_counterexample :
  let w := demo_world (Some "pins.csv"%string)
             (fun p => match p with AskTitle => "T" | _ => "" end%string) 1
             (fun _ => site_ok) in
  ~ (operator w AskTitle = "T"%string -> Fill Title "T" ∈ trace (run w).2).
Proof.
  intros w Hclaim. specialize (Hclaim eq_refl).
  remember (trace (run w).2) as tr eqn:Htr. vm_compute in Htr. subst tr.
  repeat (apply elem_of_cons in Hclaim as [Hclaim|Hclaim]; [discriminate Hclaim|]).
  apply elem_of_nil in Hclaim. exact Hclaim.
Qed.

(** C1, amended: for a run with 3 discovered images, CSV metadata
    covering exactly 2 of them, an operator who answers the prompts, a
    login gate that reaches LoggedIn within the timeout and no
    interruption by the operator: no title, description or link is
    asked for, these defaults are empty; the run attempts exactly the 3
    pins, in order; an image with metadata is posted with its row's
    title, description and link and with its row's board (the
    run-level board when the row's board is empty); the image without
    metadata is posted with empty title, description and link and the
    run-level board; nothing else reaches the site, and on a site that
    takes every file, text and board query what reaches it is exactly
    these values, pin after pin; and the summary reports total 3 with
    succeeded + failed = 3. *)
Theorem C1_scenario (w : world) (p : prepared) (s3 : state) (T : Z) (j : nat) :
  prepare w initial = (Ret p, s3) ->
  length (run_images p) = 3%nat ->
  length (filter (fun image_path => is_Some (run_metadata p !! PyPath.basename image_path))
            (run_images p)) = 2%nat ->
  (forall q, q <> AskLoggedIn -> keyboard w q = Line) ->
  chrome_starts w = Done tt ->
  dict_get (run_config p) "login_wait_seconds" (PInt 60) = PInt T ->
  logs_in w T j ->
  (forall i, ~ interrupts (pin_site w i)) ->
  let board := prompted_board w (run_board p) in
  let d := mkDefaults "" "" "" board in
  exists c evs successful failed,
    run w = (Ret tt, mkState c (trace s3 ++ evs))
    /\ (Input AskTitle ∉ evs) /\ (Input AskDescription ∉ evs) /\ (Input AskLink ∉ evs)
    /\ postings evs = announced 1 (run_images p)
    /\ (forall image_path,
          resolve (run_metadata p) d image_path
          = row_values (run_metadata p !! PyPath.basename image_path) board)
    /\ submitted evs `sublist_of` submissions (run_metadata p) d (run_images p)
    /\ ((forall i, accepts w i (run_config p)) ->
        submitted evs = submissions (run_metadata p) d (run_images p))
    /\ Print (Completed successful failed 3) ∈ evs
    /\ (successful + failed = 3)%nat.
Proof.
  intros Hprepare Hthree Hcovered Hkeys Hchrome Htimeout Hlogin Hquiet board d.
  pose proof (covered_nonempty _ _ Hcovered) as Hmd.
  pose proof (run_exact w p s3 Hprepare Hkeys Hchrome) as Hrun.
  unfold prompted_defaults, prompt_events in Hrun.
  rewrite (bool_decide_eq_false_2 _ Hmd) in Hrun. cbn [app] in Hrun.
  fold board in Hrun. fold d in Hrun.
  match type of Hrun with
  | _ = session _ _ _ _ _ ?st =>
      destruct (session_posts w (run_config p) (run_images p) (run_metadata p) d T j st
                  Hlogin Htimeout Hquiet)
        as (c & pins & successful & failed & Hsession & (Hpins & Hsub & Hres) & Hexact)
  end.
  rewrite Hsession in Hrun. clear Hsession. rewrite Hthree in Hrun.
  destruct Hres as [(successful' & failed' & [= <- <-] & Hp & _ & _ & _ & Hsum)
                   | (Hraise & _)]; [|discriminate Hraise].
  rewrite Hthree in Hsum. cbn [trace after] in Hrun.
  set (setup := (if truthy (run_board p) then [] else [Input AskBoard; Print Blank])
                ++ [Log INFO StartingChrome; LaunchChrome (run_headless p)]
                ++ login_header (PInt T)
                ++ [Log INFO LoginDetected; Print (StartingToPost 3)]).
  set (tail := [Print Rule; Print (Completed successful failed 3); Print Rule; Quit;
                Log INFO BrowserClosed]).
  assert (run w = (Ret tt, mkState c (trace s3 ++ setup ++ pins ++ tail))) as Hrun'.
  { rewrite Hrun. subst setup tail. do 2 f_equal. rewrite <- !app_assoc.
    reflexivity. }
  assert (Forall (fun e => posting_of e = None /\ is_submission e = false
                           /\ forall q, q <> AskBoard -> e <> Input q) setup) as Hsetup.
  { subst setup. destruct (truthy (run_board p)); cbn [app login_header];
      repeat constructor; congruence. }
  assert (postings setup = [] /\ submitted setup = []) as [Hsp Hss].
  { clear -Hsetup. induction Hsetup as [|e l (He1 & He2 & _) _ [IH1 IH2]]; [split; reflexivity|].
    unfold postings, submitted in *. cbn [omap list_omap List.filter].
    rewrite He1, He2, IH1, IH2. split; reflexivity. }
  assert (forall q, q <> AskBoard -> Input q ∉ setup ++ pins ++ tail) as Hno_prompt.
  { intros q Hq Hin. rewrite !elem_of_app in Hin. destruct Hin as [Hin|[Hin|Hin]].
    - rewrite Forall_forall in Hsetup. destruct (Hsetup _ Hin) as (_ & _ & Hne).
      exact (Hne q Hq eq_refl).
    - rewrite Forall_forall in Hpins. exact (Hpins _ Hin).
    - subst tail. rewrite !elem_of_cons, elem_of_nil in Hin.
      destruct Hin as [Hin|[Hin|[Hin|[Hin|[Hin|[]]]]]]; discriminate Hin. }
  exists c, (setup ++ pins ++ tail), successful, failed.
  split; [exact Hrun'|].
  split; [apply Hno_prompt; discriminate|].
  split; [apply Hno_prompt; discriminate|].
  split; [apply Hno_prompt; discriminate|].
  split; [rewrite !postings_app, Hsp, Hp; subst tail; cbn; apply app_nil_r|].
  split; [intros image_path; apply resolve_blank|].
  split; [rewrite !submitted_app, Hss; subst tail; cbn [app submitted List.filter is_submission];
          rewrite app_nil_r; exact Hsub|].
  split; [intros Haccepts; rewrite !submitted_app, Hss; subst tail;
          cbn [app submitted List.filter is_submission];
          rewrite app_nil_r; exact (Hexact Haccepts)|].
  split; [|exact Hsum].
  rewrite !elem_of_app. right. right. subst tail. right. left.
Qed.

Lemma C1_witness :
  let w := demo_world (Some "pins.csv"%string)
             (fun p => match p with AskTitle => "T" | _ => "" end%string) 1
             (fun _ => site_ok) in
  exists successful failed,
    postings (trace (run w).2)
    = [(1%nat, "a.jpg"%string); (2%nat, "b.JPG"%string); (3%nat, "c.png"%string)]
    /\ submitted (trace (run w).2)
       = [SendFile "/opt/bot/bulk_post_pinterest/a.jpg"; Fill Title "Alps";
          Fill Description "snow"; Fill Link "https://a.example";
          SearchBoard (PStr "Travel");
          SendFile "/opt/bot/bulk_post_pinterest/b.JPG"; Fill Title "Bay";
          Fill Description ""; Fill Link ""; SearchBoard (PStr "Pins");
          SendFile "/opt/bot/bulk_post_pinterest/c.png"; Fill Title "";
          Fill Description ""; Fill Link ""; SearchBoard (PStr "Pins")]
    /\ Print (Completed successful failed 3) ∈ trace (run w).2
    /\ (successful + failed = 3)%nat.
Proof.
  intros w.
  assert (match prepare w initial with
          | (Ret p, s3) =>
              run_images p = ["/opt/bot/bulk_post_pinterest/a.jpg";
                              "/opt/bot/bulk_post_pinterest/b.JPG";
                              "/opt/bot/bulk_post_pinterest/c.png"]%string
              /\ postings (trace s3) = []
              /\ submitted (trace s3) = []
              /\ length (filter (fun image_path =>
                                   is_Some (run_metadata p !! PyPath.basename image_path))
                           (run_images p)) = 2%nat
              /\ dict_get (run_config p) "login_wait_seconds" (PInt 60) = PInt 60
              /\ dict_get (run_config p) "delay_between_pins" (PInt 2) = PInt 2
              /\ submissions (run_metadata p)
                   (mkDefaults "" "" "" (prompted_board w (run_board p))) (run_images p)
                 = [SendFile "/opt/bot/bulk_post_pinterest/a.jpg"; Fill Title "Alps";
                    Fill Description "snow"; Fill Link "https://a.example";
                    SearchBoard (PStr "Travel");
                    SendFile "/opt/bot/bulk_post_pinterest/b.JPG"; Fill Title "Bay";
                    Fill Description ""; Fill Link ""; SearchBoard (PStr "Pins");
                    SendFile "/opt/bot/bulk_post_pinterest/c.png"; Fill Title "";
                    Fill Description ""; Fill Link ""; SearchBoard (PStr "Pins")]
          | _ => False
          end) as Hfacts by (vm_compute; repeat split).
  destruct (prepare w initial) as [[p|x] s3] eqn:Hprepare; [|destruct Hfacts].
  destruct Hfacts as (Himages & Hs3 & Hnone & Hcovered & Htimeout & Hdelay & Hvalues).
  destruct (C1_scenario w p s3 60 1 Hprepare ltac:(rewrite Himages; reflexivity) Hcovered
              (fun _ _ => eq_refl) eq_refl Htimeout)
    as (c & evs & successful & failed & Hrun & _ & _ & _ & Hp & _ & _ & Hexact & Hin & Hsum).
  - split; [reflexivity|]. split; [reflexivity|].
    split; [change (Z.to_nat 60) with 60%nat; lia|].
    split; [intros i Hi; apply demo_stays_on_login, Hi | apply demo_leaves_login].
  - intros i. quiet_site.
  - exists successful, failed. rewrite Hrun. cbn [snd trace].
    rewrite postings_app, Hs3, Hp, Himages, submitted_app, Hnone.
    split; [reflexivity|]. split.
    { rewrite Hexact; [exact Hvalues|]. intros i. unfold accepts. rewrite Hdelay.
      repeat split; unfold SLEEP_LIMIT; lia. }
    split; [apply elem_of_app; right; exact Hin | exact Hsum].
Defined.

(** * Further properties *)

(** ** [xpath_soup] *)

Example xpath_soup_example :
  xpath_soup sample_button = inr "/html/body/div[2]/button"%string.
Proof. vm_compute. reflexivity. Qed.

Lemma has_name_tag name attrs contents : has_name name (Tag name attrs contents) = true.
Proof. cbn. apply String.eqb_refl. Qed.

Lemma holes_middle before l : (fun h => h.1.2) <$> holes before l = l.
Proof.
  revert before. induction l as [|x l IH]; intros before; [reflexivity|].
  cbn [holes fmap list_fmap]. f_equal. apply IH.
Qed.

Lemma holes_filter name before l :
  (fun h => h.1.2) <$> filter (fun h => has_name name h.1.2 = true) (holes before l)
  = filter (fun c => has_name name c = true) l.
Proof.
  revert before. induction l as [|x l IH]; intros before; [reflexivity|].
  cbn [holes]. destruct (decide (has_name name x = true)) as [Hyes|Hno].
  - rewrite (filter_cons_True (fun c => has_name name c = true) _ _ Hyes).
    rewrite (filter_cons_True (fun h => has_name name h.1.2 = true) (before, x, l)
               _ Hyes).
    rewrite fmap_cons. f_equal. apply IH.
  - rewrite (filter_cons_False (fun c => has_name name c = true) _ _ Hno).
    rewrite (filter_cons_False (fun h => has_name name h.1.2 = true) (before, x, l)
               _ Hno).
    apply IH.
Qed.

(** The named child found after the named ones of [L] is the one cut
    out at [L]. *)
Lemma holes_lookup name x :
  has_name name x = true ->
  forall L R before,
    filter (fun h => has_name name h.1.2 = true) (holes before (L ++ x :: R))
      !! length (filter (fun c => has_name name c = true) L)
    = Some (before ++ L, x, R).
Proof.
  intros Hx. induction L as [|y L IH]; intros R before.
  - cbn [app holes]. rewrite filter_cons_True by exact Hx. rewrite app_nil_r. reflexivity.
  - cbn [app holes]. destruct (decide (has_name name y = true)) as [Hyes|Hno].
    + rewrite (filter_cons_True (fun c => has_name name c = true) _ _ Hyes).
      rewrite (filter_cons_True (fun h => has_name name h.1.2 = true) (before, y, L ++ x :: R)
                 _ Hyes).
      cbn [length lookup list_lookup]. rewrite IH. rewrite <- app_assoc. reflexivity.
    + rewrite (filter_cons_False (fun c => has_name name c = true) _ _ Hno).
      rewrite (filter_cons_False (fun h => has_name name h.1.2 = true)
                 (before, y, L ++ x :: R) _ Hno).
      rewrite IH. rewrite <- app_assoc. reflexivity.
Qed.

(** [index] finds the first copy. *)
Lemma index_first name x :
  has_name name x = true ->
  forall L R,
    x ∉ L ->
    index x (find_all (L ++ x :: R) name)
    = Some (length (filter (fun c => has_name name c = true) L)).
Proof.
  intros Hx. unfold find_all. induction L as [|y L IH]; intros R Hfresh.
  - cbn [app]. rewrite filter_cons_True by exact Hx. cbn [index].
    rewrite decide_True by reflexivity. reflexivity.
  - apply not_elem_of_cons in Hfresh as [Hne Hfresh]. cbn [app].
    destruct (decide (has_name name y = true)) as [Hyes|Hno].
    + rewrite !(filter_cons_True (fun c => has_name name c = true) _ _ Hyes).
      cbn [index]. rewrite decide_False by congruence.
      rewrite IH by exact Hfresh. reflexivity.
    + rewrite !(filter_cons_False (fun c => has_name name c = true) _ _ Hno).
      apply IH, Hfresh.
Qed.

Lemma first_copy_unique (x : soup) L R L' R' :
  L ++ x :: R = L' ++ x :: R' -> x ∉ L -> x ∉ L' -> L = L' /\ R = R'.
Proof.
  revert L'. induction L as [|y L IH]; intros [|y' L'] Heq HL HL'; cbn [app] in Heq.
  - injection Heq as <-. split; reflexivity.
  - injection Heq as <- _. exfalso. apply HL'. left.
  - injection Heq as -> _. exfalso. apply HL. left.
  - injection Heq as <- Heq.
    apply not_elem_of_cons in HL as [_ HL]. apply not_elem_of_cons in HL' as [_ HL'].
    destruct (IH L' Heq HL HL') as [-> ->]. split; reflexivity.
Qed.

(** One level: the step computed for a child selects, from any element
    holding its parent, exactly one child; that child is a copy of it,
    cut out at the first copy among its siblings. *)
Lemma component_selects (c : crumb) name attrs contents (pe : element) :
  let x := Tag name attrs contents in
  pe.1 = plug c x ->
  exists st L R,
    component c x name = inr st
    /\ L ++ x :: R = left_of c ++ x :: right_of c
    /\ (x ∉ L)
    /\ select st pe = [(x, mkCrumb (up_name c) (up_attrs c) L R :: pe.2)].
Proof.
  intros x Hpe.
  assert (has_name name x = true) as Hx by apply has_name_tag.
  destruct (list_elem_of_split_l (left_of c ++ x :: right_of c) x) as (L & R & Hcut & Hfresh);
    [apply elem_of_app; right; left|].
  pose proof (index_first name x Hx L R Hfresh) as Hindex.
  pose proof (holes_lookup name x Hx L R []) as Hlookup. cbn [app] in Hlookup.
  rewrite <- Hcut in Hindex, Hlookup.
  set (i := length (filter (fun c => has_name name c = true) L)) in *.
  assert (filter (fun e : element => has_name name e.1 = true) (children pe)
          = (fun h => (h.1.2, mkCrumb (up_name c) (up_attrs c) h.1.1 h.2 :: pe.2))
              <$> filter (fun h => has_name name h.1.2 = true)
                    (holes [] (left_of c ++ x :: right_of c))) as Hnamed.
  { unfold children. rewrite Hpe. unfold plug.
    generalize (holes [] (left_of c ++ x :: right_of c)).
    induction l as [|h l IH]; [reflexivity|]. rewrite fmap_cons.
    destruct (decide (has_name name h.1.2 = true)) as [Hyes|Hno].
    - rewrite (filter_cons_True (fun h => has_name name h.1.2 = true) _ _ Hyes).
      rewrite filter_cons_True by exact Hyes. rewrite fmap_cons, IH. reflexivity.
    - rewrite (filter_cons_False (fun h => has_name name h.1.2 = true) _ _ Hno).
      rewrite filter_cons_False by exact Hno. exact IH. }
  unfold component. fold x.
  destruct (decide (find_all (left_of c ++ x :: right_of c) name = [x])) as [Hone|Hmore].
  - exists (mkStep name None), L, R. split; [reflexivity|]. split; [symmetry; exact Hcut|].
    split; [exact Hfresh|]. unfold select. cbn [step_position step_name].
    rewrite Hnamed.
    pose proof (holes_filter name [] (left_of c ++ x :: right_of c)) as Hmiddle.
    fold (find_all (left_of c ++ x :: right_of c) name) in Hmiddle. rewrite Hone in Hmiddle.
    destruct (filter (fun h => has_name name h.1.2 = true)
                (holes [] (left_of c ++ x :: right_of c))) as [|h [|h' l]];
      try discriminate Hmiddle.
    rewrite Hone in Hindex. cbn [index] in Hindex.
    rewrite decide_True in Hindex by reflexivity. injection Hindex as <-.
    cbn in Hlookup. injection Hlookup as ->. reflexivity.
  - rewrite Hindex. exists (mkStep name (Some (1 + i)%nat)), L, R.
    split; [reflexivity|]. split; [symmetry; exact Hcut|]. split; [exact Hfresh|].
    unfold select. cbn [step_position step_name Nat.add].
    rewrite Hnamed.
    rewrite list_lookup_fmap, Hlookup. reflexivity.
Qed.

Lemma xpath_eval_snoc steps st page :
  xpath_eval (steps ++ [st]) page = xpath_eval steps page ≫= select st.
Proof. unfold xpath_eval. rewrite foldl_app. reflexivity. Qed.

(** The loop never raises; evaluated in the page, its steps select one
    element, a copy of the one given, which is the one given exactly
    when it and its ancestors are leftmost among their copies. *)
Lemma ascend_locates crumbs :
  forall name attrs contents,
    let x := Tag name attrs contents in
    exists components e',
      ascend name attrs contents crumbs = inr components
      /\ xpath_eval (reverse components) (document (x, crumbs)) = [e']
      /\ e'.1 = x
      /\ (e' = (x, crumbs) <-> leftmost x crumbs).
Proof.
  induction crumbs as [|c up IH]; intros name attrs contents x; subst x.
  - exists [], (Tag name attrs contents, []). split; [reflexivity|]. split; [reflexivity|].
    split; [reflexivity|]. cbn. tauto.
  - destruct (IH (up_name c) (up_attrs c)
                (left_of c ++ Tag name attrs contents :: right_of c))
      as (rest & pe & Hrest & Heval & Hpe & Hsame).
    destruct (component_selects c name attrs contents pe Hpe)
      as (st & L & R & Hst & Hcut & Hfresh & Hselect).
    exists (st :: rest),
           (Tag name attrs contents, mkCrumb (up_name c) (up_attrs c) L R :: pe.2).
    split; [cbn [ascend]; rewrite Hst, Hrest; reflexivity|].
    split.
    { rewrite reverse_cons, xpath_eval_snoc.
      change (document (Tag name attrs contents, c :: up))
        with (document (Tag (up_name c) (up_attrs c)
                          (left_of c ++ Tag name attrs contents :: right_of c), up)).
      rewrite Heval. cbn [mbind list_bind]. rewrite Hselect.
      apply app_nil_r. }
    split; [reflexivity|].
    cbn [leftmost]. unfold plug. rewrite <- Hsame. split.
    + intros [= HL Hup]. destruct c as [pname pattrs left right].
      cbn [up_name up_attrs left_of right_of] in *. injection HL as -> ->.
      split; [exact Hfresh|]. destruct pe as [node way]. cbn [fst snd] in *. congruence.
    + intros [Hleft ->]. cbn [snd].
      destruct (first_copy_unique _ L R (left_of c) (right_of c) Hcut Hfresh Hleft)
        as [-> ->].
      destruct c; reflexivity.
Qed.

(** X1: for a tag of a parsed page, [xpath_soup] raises nothing, and
    the path it returns, evaluated in that page, selects exactly one
    element; this element is equal to the tag in name, attributes and
    contents. *)
Theorem X1_xpath_soup_selects_a_copy (name : string) (attrs : gmap string string)
    (contents : list soup) (crumbs : list crumb) :
  name <> ""%string ->
  let e : element := (Tag name attrs contents, crumbs) in
  exists steps e',
    xpath_steps e = inr steps
    /\ xpath_soup e = inr (xpath_string steps)
    /\ length steps = length crumbs
    /\ xpath_eval steps (document e) = [e']
    /\ e'.1 = Tag name attrs contents.
Proof.
  intros Hname e. apply nonempty_true in Hname.
  destruct (ascend_locates crumbs name attrs contents)
    as (components & e' & Hascend & Heval & Hcopy & _).
  exists (reverse components), e'.
  assert (xpath_steps e = inr (reverse components)) as Hsteps
    by (unfold xpath_steps, e; cbn [fst snd]; rewrite Hname, Hascend; reflexivity).
  split; [exact Hsteps|]. split; [unfold xpath_soup; rewrite Hsteps; reflexivity|].
  split; [|split; [exact Heval | exact Hcopy]].
  rewrite length_reverse. clear -Hascend. revert name attrs contents components Hascend.
  induction crumbs as [|c up IH]; intros name attrs contents components Hascend;
    cbn [ascend] in Hascend.
  - injection Hascend as <-. reflexivity.
  - destruct (component _ _ _) as [|st]; [discriminate|].
    destruct (ascend _ _ _ up) as [|rest] eqn:Hrest; [discriminate|].
    injection Hascend as <-. cbn [length]. f_equal. eapply IH, Hrest.
Qed.

Lemma X1_witness :
  exists steps e',
    xpath_steps sample_button = inr steps
    /\ xpath_soup sample_button = inr (xpath_string steps)
    /\ length steps = 4%nat
    /\ xpath_eval steps (document sample_button) = [e']
    /\ e'.1 = sample_button.1.
Proof.
  exact (X1_xpath_soup_selects_a_copy "button"
           {[ "data-test-id" := "board-dropdown-select-button" ]} [] sample_button.2
           ltac:(discriminate)).
Defined.

(** X2: the element the path selects is the tag itself exactly when no
    sibling before the tag, or before one of its ancestors, is a copy
    of it; otherwise the path leads to an earlier copy. *)
Theorem X2_xpath_soup_round_trip (name : string) (attrs : gmap string string)
    (contents : list soup) (crumbs : list crumb) (steps : list step) :
  let e : element := (Tag name attrs contents, crumbs) in
  name <> ""%string ->
  xpath_steps e = inr steps ->
  xpath_eval steps (document e) = [e] <-> leftmost (Tag name attrs contents) crumbs.
Proof.
  intros e Hname Hsteps. apply nonempty_true in Hname.
  destruct (ascend_locates crumbs name attrs contents)
    as (components & e' & Hascend & Heval & _ & Hsame).
  unfold xpath_steps, e in Hsteps. cbn [fst snd] in Hsteps.
  rewrite Hname, Hascend in Hsteps. injection Hsteps as <-.
  unfold e. rewrite Heval, <- Hsame. split; [intros [= ->]; reflexivity | intros ->; reflexivity].
Qed.

Lemma X2_witness :
  (exists steps,
     xpath_steps sample_button = inr steps
     /\ xpath_eval steps (document sample_button) = [sample_button])
  /\ (exists steps,
        xpath_steps sample_twin = inr steps
        /\ xpath_eval steps (document sample_twin) <> [sample_twin]).
Proof.
  split.
  - eexists. split; [vm_compute; reflexivity|].
    apply (X2_xpath_soup_round_trip "button"
             {[ "data-test-id" := "board-dropdown-select-button" ]} [] sample_button.2);
      [discriminate | vm_compute; reflexivity |].
    cbn. repeat split; rewrite ?elem_of_cons, ?elem_of_nil;
      intros H; repeat (destruct H as [H|H]; [discriminate H|]); exact H.
  - eexists. split; [vm_compute; reflexivity|].
    intros Hsame.
    apply (X2_xpath_soup_round_trip "div" ∅ [] sample_twin.2) in Hsame;
      [| discriminate | vm_compute; reflexivity].
    destruct Hsame as [Hfresh _]. apply Hfresh. left.
Defined.

(** ** Configuration: what [load_config] can return or raise *)

Lemma update_pairs_keeps seq :
  forall (d d' : config) err,
    update_pairs d seq = (d', err) ->
    (forall k, is_Some (d !! k) -> is_Some (d' !! k))
    /\ (err = None \/ err = Some TypeError \/ err = Some ValueError).
Proof.
  induction seq as [|item rest IH]; intros d d' err Hupdate; cbn [update_pairs] in Hupdate.
  - injection Hupdate as <- <-. split; [tauto | left; reflexivity].
  - destruct (as_pair item) as [e|[k v]] eqn:Hpair.
    + injection Hupdate as <- <-. split; [tauto|].
      unfold as_pair in Hpair.
      destruct item as [| | |str|l|items]; try (injection Hpair as <-; tauto).
      * destruct (chars str) as [|? [|? [|? ?]]]; try discriminate Hpair;
          injection Hpair as <-; tauto.
      * destruct l as [|? [|? [|? ?]]]; try discriminate Hpair;
          injection Hpair as <-; tauto.
      * destruct (map PStr (dict_keys [] items)) as [|? [|? [|? ?]]];
          try discriminate Hpair; injection Hpair as <-; tauto.
    + destruct (as_key k) as [key|].
      * apply IH in Hupdate as [Hkeep Herr]. split; [|exact Herr].
        intros k' Hk'. apply Hkeep. rewrite lookup_insert_is_Some'. right. exact Hk'.
      * injection Hupdate as <- <-. split; [tauto | right; left; reflexivity].
Qed.

Lemma update_items_keeps (d : config) items k :
  is_Some (d !! KStr k) -> is_Some (update_items d items !! KStr k).
Proof.
  intros Hk. rewrite update_items_lookup.
  destruct (last_value items k); [eauto | exact Hk].
Qed.

Lemma load_config_keeps_keys read path s cfg s' :
  load_config read path s = (Ret cfg, s') ->
  forall k, k ∈ CONFIG_KEYS -> is_Some (cfg !! KStr k).
Proof.
  intros Hload. unfold load_config in Hload.
  destruct (PyStr.nonempty path); [|injection Hload as <- _; apply defaults_populated].
  destruct (read path) as [|e|v].
  - injection Hload as <- _. apply defaults_populated.
  - destruct e;
      cbv [try_except raise bind logger_warning emit ret is_ValueError_or_IOError] in Hload;
      try discriminate Hload; injection Hload as <- _; apply defaults_populated.
  - destruct (dict_update defaults v) as [d0 err] eqn:Hupdate.
    assert (forall k, k ∈ CONFIG_KEYS -> is_Some (d0 !! KStr k)) as Hd0.
    { intros k Hk. pose proof (defaults_populated k Hk) as Hdef.
      destruct v as [|b|n|str|l|items]; cbn [dict_update] in Hupdate.
      - injection Hupdate as <- _. exact Hdef.
      - injection Hupdate as <- _. exact Hdef.
      - injection Hupdate as <- _. exact Hdef.
      - apply update_pairs_keeps in Hupdate as [Hkeep _]. apply Hkeep, Hdef.
      - apply update_pairs_keeps in Hupdate as [Hkeep _]. apply Hkeep, Hdef.
      - injection Hupdate as <- _. apply update_items_keeps, Hdef. }
    destruct err as [e|].
    + destruct e;
        cbv [try_except raise bind logger_warning emit ret is_ValueError_or_IOError] in Hload;
        try discriminate Hload; injection Hload as <- _; exact Hd0.
    + cbv [bind logger_info emit ret] in Hload. injection Hload as <- _. exact Hd0.
Qed.

(** X3: whatever the file holds, [load_config] either returns a mapping
    that has all five settings, or raises; it raises only what [open] or
    [json.load] raised outside [ValueError] and [IOError], or
    [TypeError] for a document that is not an object, and then nothing
    was logged. *)
Theorem X3_load_config_outcomes (read : string -> config_source) (config_path : string)
    (s : state) :
  match load_config read config_path s with
  | (Ret cfg, s') =>
      (forall k, k ∈ CONFIG_KEYS -> is_Some (cfg !! KStr k))
      /\ clock s' = clock s
  | (Raise x, s') =>
      s' = s
      /\ config_path <> ""
      /\ ((exists e, read config_path = ConfigUnreadable e /\ x = Err e
                     /\ e <> ValueError /\ e <> IOError)
          \/ (exists v, read config_path = ConfigDocument v /\ x = Err TypeError
                        /\ forall items, v <> PDict items))
  end.
Proof.
  unfold load_config.
  destruct (PyStr.nonempty config_path) eqn:Hpath;
    [apply nonempty_true in Hpath | split; [apply defaults_populated | reflexivity]].
  destruct (read config_path) as [|e|v] eqn:Hread.
  - split; [apply defaults_populated | reflexivity].
  - destruct e; cbn; (split; [try apply defaults_populated; try reflexivity|]);
      try reflexivity;
      (split; [exact Hpath|]); left; eexists; (split; [reflexivity|]);
      (split; [reflexivity|]); split; discriminate.
  - assert (forall seq, update_pairs defaults seq = dict_update defaults v ->
              match
                (let (d, o) := dict_update defaults v in
                 match o with
                 | Some e =>
                     try_except (raise (Err e)) is_ValueError_or_IOError
                       (fun x => logger_warning (ConfigNotRead (error_of x));;; ret d)
                 | None => logger_info (ConfigLoaded config_path);;; ret d
                 end) s
              with
              | (Ret cfg, s') =>
                  (forall k, k ∈ CONFIG_KEYS -> is_Some (cfg !! KStr k))
                  /\ clock s' = clock s
              | (Raise x, s') =>
                  s' = s /\ x = Err TypeError
              end) as Hseq.
    { intros seq Hseq. destruct (dict_update defaults v) as [d err].
      apply update_pairs_keeps in Hseq as [Hkeep Herr].
      assert (forall k, k ∈ CONFIG_KEYS -> is_Some (d !! KStr k)) as Hd
        by (intros k Hk; apply Hkeep, defaults_populated, Hk).
      destruct Herr as [->|[->| ->]]; cbn; tauto. }
    destruct v as [|b|n|str|l|items].
    + cbn. split; [reflexivity|]. split; [exact Hpath|]. right.
      eexists. split; [reflexivity|]. split; [reflexivity | discriminate].
    + cbn. split; [reflexivity|]. split; [exact Hpath|]. right.
      eexists. split; [reflexivity|]. split; [reflexivity | discriminate].
    + cbn. split; [reflexivity|]. split; [exact Hpath|]. right.
      eexists. split; [reflexivity|]. split; [reflexivity | discriminate].
    + specialize (Hseq (chars str) eq_refl).
      destruct (_ s) as [[cfg|x] s']; [exact Hseq|].
      destruct Hseq as [-> ->]. split; [reflexivity|]. split; [exact Hpath|]. right.
      eexists. split; [reflexivity|]. split; [reflexivity | discriminate].
    + specialize (Hseq l eq_refl).
      destruct (_ s) as [[cfg|x] s']; [exact Hseq|].
      destruct Hseq as [-> ->]. split; [reflexivity|]. split; [exact Hpath|]. right.
      eexists. split; [reflexivity|]. split; [reflexivity | discriminate].
    + cbn. split; [|reflexivity].
      intros k Hk. apply update_items_keeps, defaults_populated, Hk.
Qed.

(** ** Metadata: rows naming the same file *)

Lemma kept_last rows k :
  foldl keep_row (∅ : metadata) rows !! k
  = row_entry <$> last (filter (fun row => row_key row = k) (valid_rows rows)).
Proof.
  unfold valid_rows. induction rows as [|row rows IH] using rev_ind.
  - cbn. apply lookup_empty.
  - rewrite foldl_app, (filter_app _ rows [row]). cbn [foldl]. unfold keep_row at 1.
    destruct (PyStr.nonempty (row_key row)) eqn:Hkey.
    + apply nonempty_true in Hkey.
      rewrite (filter_cons_True (fun row => row_key row <> "") _ _ Hkey), filter_nil.
      rewrite filter_app.
      destruct (decide (row_key row = k)) as [Hsame|Hdiff].
      * rewrite (filter_cons_True (fun row => row_key row = k) _ _ Hsame), filter_nil,
          last_snoc.
        rewrite Hsame. apply lookup_insert_eq.
      * rewrite (filter_cons_False (fun row => row_key row = k) _ _ Hdiff), filter_nil,
          app_nil_r.
        rewrite lookup_insert_ne by exact Hdiff. exact IH.
    + assert (~ row_key row <> "") as Hempty.
      { intros Hne. apply nonempty_true in Hne. congruence. }
      rewrite (filter_cons_False (fun row => row_key row <> "") _ _ Hempty), filter_nil,
        app_nil_r.
      exact IH.
Qed.

(** X4: when several rows of the CSV name the same file (by basename),
    the last of them is the one kept; an image is then posted with the
    values of the last row whose trimmed file name has the image's
    basename, whatever directory the row writes before it. *)
Theorem X4_later_row_wins (read : string -> csv_source) (path : string)
    (rows : list csv_row) (failure : option error) (s s' : state) (md : metadata) :
  path <> "" ->
  read path = CsvStream rows failure ->
  Forall well_formed rows ->
  load_csv_metadata read (Some path) s = (Ret md, s') ->
  (forall k,
     md !! k = row_entry <$> last (filter (fun row => row_key row = k) (valid_rows rows)))
  /\ (forall d image_path row,
        last (filter (fun row => row_key row = PyPath.basename image_path) (valid_rows rows))
        = Some row ->
        resolve md d image_path
        = mkValues (get_or (Some (row_entry row)) meta_title (default_title d))
                   (get_or (Some (row_entry row)) meta_description (default_description d))
                   (get_or (Some (row_entry row)) meta_link (default_link d))
                   (get_board_or (Some (row_entry row)) (board_name d))).
Proof.
  intros Hpath Hread Hwf Hload.
  assert (md = foldl keep_row ∅ rows) as ->.
  { unfold load_csv_metadata in Hload. apply nonempty_true in Hpath.
    rewrite Hpath, Hread, (load_rows_well_formed _ _ _ Hwf) in Hload.
    destruct failure as [e|]; [destruct e|];
      cbv [try_except raise bind logger_warning logger_info emit ret is_csv_read_error]
        in Hload;
      congruence. }
  split; [apply kept_last|].
  intros d image_path row Hlast. unfold resolve. rewrite kept_last, Hlast. reflexivity.
Qed.

Lemma X4_witness :
  let r1 : csv_row := {[ "filename" := Some "a.jpg"; "title" := Some "first" ]} in
  let r2 : csv_row := {[ "filename" := Some " old/a.jpg "; "title" := Some "second" ]} in
  let d := mkDefaults "" "" "" (PStr "Pins") in
  exists md s',
    load_csv_metadata (fun _ => CsvStream [r1; r2] None) (Some "pins.csv") initial
    = (Ret md, s')
    /\ pin_title (resolve md d "/pins/a.jpg") = "second".
Proof.
  intros r1 r2 d.
  assert (exists md s',
            load_csv_metadata (fun _ => CsvStream [r1; r2] None) (Some "pins.csv") initial
            = (Ret md, s')) as (md & s' & Hload)
    by (eexists _, _; vm_compute; reflexivity).
  exists md, s'. split; [exact Hload|].
  destruct (X4_later_row_wins (fun _ => CsvStream [r1; r2] None) "pins.csv" [r1; r2] None
              initial s' md ltac:(discriminate) eq_refl) as [_ Hresolve].
  - repeat constructor; intros column Hin;
      unfold CSV_COLUMNS in Hin; rewrite !elem_of_cons, elem_of_nil in Hin;
      destruct Hin as [->|[->|[->|[->|[->|[]]]]]]; vm_compute; discriminate.
  - exact Hload.
  - rewrite (Hresolve d "/pins/a.jpg" r2); [reflexivity|]. vm_compute. reflexivity.
Defined.

(** ** Rows shorter than the header *)

Lemma cell_present (row : csv_row) column :
  row !! column <> Some None -> cell row column = inr (text row column).
Proof.
  unfold cell, text. destruct (row !! column) as [[s|]|]; [reflexivity | congruence | reflexivity].
Qed.

Lemma load_row_short md row : short_row row -> load_row md row = inl AttributeError.
Proof.
  unfold load_row. intros [Hname | (Hname & Hkey & column & Hin & Hcell)].
  - unfold cell. rewrite Hname. reflexivity.
  - rewrite (cell_present _ _ Hname). fold (row_key row).
    apply nonempty_true in Hkey. rewrite Hkey.
    assert (cell row column = inl AttributeError) as Hbreak
      by (unfold cell; rewrite Hcell; reflexivity).
    rewrite !elem_of_cons, elem_of_nil in Hin.
    destruct (cell row "title") as [e|title] eqn:Htitle;
      [unfold cell in Htitle; destruct (row !! "title") as [[?|]|]; congruence|].
    destruct (cell row "description") as [e|description] eqn:Hdescription;
      [unfold cell in Hdescription; destruct (row !! "description") as [[?|]|]; congruence|].
    destruct (cell row "link") as [e|link] eqn:Hlink;
      [unfold cell in Hlink; destruct (row !! "link") as [[?|]|]; congruence|].
    destruct (cell row "board") as [e|board] eqn:Hboard;
      [unfold cell in Hboard; destruct (row !! "board") as [[?|]|]; congruence|].
    destruct Hin as [->|[->|[->|[->|[]]]]]; congruence.
Qed.

Lemma load_row_kept md row : ~ short_row row -> load_row md row = inr (keep_row md row).
Proof.
  intros Hlong. unfold load_row, keep_row.
  assert (row !! "filename" <> Some None) as Hname by (intros H; apply Hlong; left; exact H).
  rewrite (cell_present _ _ Hname). fold (row_key row).
  destruct (PyStr.nonempty (row_key row)) eqn:Hkey; [|reflexivity].
  apply nonempty_true in Hkey.
  assert (forall column, column ∈ ["title"; "description"; "link"; "board"] ->
            row !! column <> Some None) as Hcells.
  { intros column Hin Hcell. apply Hlong. right. split; [exact Hname|].
    split; [exact Hkey|]. exists column. split; [exact Hin | exact Hcell]. }
  rewrite !cell_present by (apply Hcells; rewrite !elem_of_cons; tauto).
  reflexivity.
Qed.

(** X5: a line of the CSV with fewer fields than the header breaks the
    loading when it lacks the [filename] field, or names a file and
    lacks one of the other four: [load_csv_metadata] raises
    [AttributeError], which its handler does not catch, logs nothing
    and the rows already read are lost.  A short line that names no
    file is skipped like any other such line. *)
Theorem X5_short_row_breaks_loading (read : string -> csv_source) (path : string)
    (good rest : list csv_row) (bad : csv_row) (failure : option error) (s : state) :
  path <> "" ->
  read path = CsvStream (good ++ bad :: rest) failure ->
  Forall (fun row => ~ short_row row) good ->
  (short_row bad ->
   load_csv_metadata read (Some path) s = (Raise (Err AttributeError), s))
  /\ (~ short_row bad ->
      load_rows ∅ (good ++ bad :: rest) failure
      = load_rows (keep_row (foldl keep_row ∅ good) bad) rest failure).
Proof.
  intros Hpath Hread Hgood. apply nonempty_true in Hpath.
  assert (forall md, load_rows md (good ++ bad :: rest) failure
                     = match load_row (foldl keep_row md good) bad with
                       | inl e => (foldl keep_row md good, Some e)
                       | inr md' => load_rows md' rest failure
                       end) as Hrows.
  { clear Hread. induction Hgood as [|row good Hrow _ IH]; intros md; [reflexivity|].
    cbn [app load_rows foldl]. rewrite (load_row_kept _ _ Hrow). apply IH. }
  split.
  - intros Hbad. unfold load_csv_metadata. rewrite Hpath, Hread, Hrows.
    rewrite (load_row_short _ _ Hbad). reflexivity.
  - intros Hlong. rewrite Hrows, (load_row_kept _ _ Hlong). reflexivity.
Qed.

Lemma X5_witness :
  let r1 : csv_row := {[ "filename" := Some "a.jpg"; "title" := Some "A" ]} in
  let r2 : csv_row := {[ "filename" := Some "b.jpg"; "title" := Some "B"; "board" := None ]} in
  load_csv_metadata (fun _ => CsvStream [r1; r2] None) (Some "pins.csv") initial
  = (Raise (Err AttributeError), initial).
Proof.
  intros r1 r2.
  assert (Forall (fun row => ~ short_row row) [r1]) as Hgood.
  { apply Forall_cons. split; [|constructor].
    intros [H | (_ & _ & column & Hin & H)].
    - vm_compute in H. discriminate H.
    - rewrite !elem_of_cons, elem_of_nil in Hin.
      destruct Hin as [->|[->|[->|[->|[]]]]]; vm_compute in H; discriminate H. }
  apply (proj1 (X5_short_row_breaks_loading (fun _ => CsvStream [r1; r2] None) "pins.csv"
                  [r1] [] r2 None initial ltac:(discriminate) eq_refl Hgood)).
  right. split; [vm_compute; discriminate|]. split; [vm_compute; discriminate|].
  exists "board". split; [rewrite !elem_of_cons; tauto | vm_compute; reflexivity].
Defined.

(** ** Discovery *)

Lemma sorted_respects_permutation l l' : l ≡ₚ l' -> sorted l = sorted l'.
Proof.
  intros Hperm. apply (StronglySorted_unique String.le); try apply sorted_Sorted.
  rewrite !sorted_perm. exact Hperm.
Qed.

(** X6: the list [discover_images] returns, and so the order in which
    the pins are posted, does not depend on the order in which the
    operating system lists the folder. *)
Theorem X6_discovery_ignores_listing_order
    (iterdir iterdir' : string -> listing) (folder : string)
    (children children' : list dir_entry) (s : state) :
  iterdir folder = Listed children ->
  iterdir' folder = Listed children' ->
  children ≡ₚ children' ->
  discover_images iterdir folder s = discover_images iterdir' folder s.
Proof.
  intros Hdir Hdir' Hperm. unfold discover_images. rewrite Hdir, Hdir'.
  rewrite (sorted_respects_permutation
             (entry_path <$> filter (fun p => is_image p = true) children)
             (entry_path <$> filter (fun p => is_image p = true) children'));
    [reflexivity|].
  rewrite Hperm. reflexivity.
Qed.

Lemma X6_witness :
  let children := [mkEntry "/pins/b.png" true; mkEntry "/pins/a.jpg" true;
                   mkEntry "/pins/c.gif" true] in
  discover_images (fun _ => Listed children) "/pins" initial
  = discover_images (fun _ => Listed (reverse children)) "/pins" initial.
Proof.
  intros children.
  apply (X6_discovery_ignores_listing_order _ _ "/pins" children (reverse children));
    [reflexivity | reflexivity |].
  symmetry. apply reverse_Permutation.
Defined.

(** X7: [discover_images] never returns an empty list; it raises
    [SystemExit(1)] after one error line when the path is not a
    directory or the directory holds no allowed file, and the
    [OSError] of a folder that cannot be read with nothing logged, and
    nothing else; a return logs exactly the count of images; and when
    the folder's children have distinct paths no image is returned
    twice. *)
Theorem X7_discovery_outcomes (iterdir : string -> listing)
    (folder : string) (s : state) :
  match discover_images iterdir folder s with
  | (Ret images, s') =>
      images <> []
      /\ s' = after s [Log INFO (FoundImages (length images) folder)]
      /\ (forall children,
            iterdir folder = Listed children -> NoDup (entry_path <$> children) ->
            NoDup images)
  | (Raise x, s') =>
      (x = SystemExit 1
       /\ iterdir folder = NotADirectory
       /\ s' = after s [Log ERROR (FolderNotFound folder)])
      \/ (x = SystemExit 1
          /\ (exists children,
                iterdir folder = Listed children /\ forall p, p ∈ children -> ~ allowed p)
          /\ s' = after s [Log ERROR (NoImagesFound folder)])
      \/ (exists e, x = Err e /\ iterdir folder = Unreadable e /\ s' = s)
  end.
Proof.
  unfold discover_images. destruct (iterdir folder) as [|children|e] eqn:Hdir.
  - cbn. left. repeat split.
  - pose proof (sorted_perm (entry_path <$> filter (fun p => is_image p = true) children))
      as Hperm.
    destruct (sorted _) as [|image images] eqn:Hsorted.
    + cbn. right. left. split; [reflexivity|]. split; [|reflexivity].
      exists children. split; [reflexivity|]. intros p Hin Hallowed.
      symmetry in Hperm. apply Permutation_nil_r in Hperm. apply fmap_nil_inv in Hperm.
      assert (p ∈ filter (fun p => is_image p = true) children) as Hp
        by (apply list_elem_of_filter; split; [apply is_image_allowed, Hallowed | exact Hin]).
      rewrite Hperm in Hp. apply elem_of_nil in Hp. exact Hp.
    + cbn. split; [discriminate|]. split; [reflexivity|].
      intros ? [= <-] Hnodup. rewrite Hperm.
      assert (forall l : list dir_entry,
                NoDup (entry_path <$> l) ->
                NoDup (entry_path <$> filter (fun p => is_image p = true) l)) as Hfilter.
      { induction l as [|p l IH]; intros Hl; [constructor|].
        rewrite fmap_cons in Hl. apply NoDup_cons in Hl as [Hp Hl].
        destruct (decide (is_image p = true)) as [Hyes|Hno].
        - rewrite filter_cons_True by exact Hyes. rewrite fmap_cons.
          apply NoDup_cons. split; [|apply IH, Hl].
          intros Hin. apply Hp. apply list_elem_of_fmap in Hin as (q & Hq & Hin).
          apply list_elem_of_fmap. exists q. split; [exact Hq|].
          apply list_elem_of_filter in Hin as [_ Hin]. exact Hin.
        - rewrite filter_cons_False by exact Hno. apply IH, Hl. }
      apply Hfilter, Hnodup.
  - cbn. right. right. exists e. destruct s. repeat split.
Qed.

(** A folder that cannot be listed: the error leaves [main] as it
    is. *)
Example unreadable_folder_raises :
  discover_images (fun _ => Unreadable IOError) "/root/pins" initial
  = (Raise (Err IOError), initial).
Proof. reflexivity. Qed.

(** ** Edge values of [login_wait_seconds] *)



(** ** The publish wait, step by step *)

Lemma rounds_left_publish now : rounds_left (now + 1000 * 60) now 2000 = 30%nat.
Proof.
  unfold rounds_left.
  replace (now + 1000 * 60 - now + 2000 - 1) with 61999 by lia. reflexivity.
Qed.

Lemma publish_poll_detects site deadline :
  forall j rounds k s,
    (j < rounds)%nat ->
    clock s + 2000 * Z.of_nat j < deadline ->
    (forall i, (i < j)%nat -> r_saving site (k + i) = Done true) ->
    r_saving site (k + j) = Done false ->
    publish_poll rounds site deadline k s
    = (Ret true, mkState (clock s + 2000 * Z.of_nat j) (trace s)).
Proof.
  induction j as [|j IH]; intros rounds k s Hrounds Hclock Hsaving Hgone;
    (destruct rounds as [|rounds]; [lia|]); cbn [publish_poll];
    unfold bind at 1, time_time at 1;
    (destruct (Z.ltb_spec (clock s) deadline) as [_|Hlate]; [|lia]).
  - rewrite Nat.add_0_r in Hgone. unfold bind at 1. rewrite Hgone. cbn [call ret negb].
    destruct s as [c t]. cbn [clock trace]. do 2 f_equal. lia.
  - pose proof (Hsaving 0%nat ltac:(lia)) as Hfirst. rewrite Nat.add_0_r in Hfirst.
    unfold bind at 1. rewrite Hfirst. cbn [call ret negb].
    unfold bind at 1, advance at 1.
    rewrite (IH rounds (S k) (mkState (clock s + 2000) (trace s))); cbn [clock trace].
    + do 2 f_equal; lia.
    + lia.
    + lia.
    + intros i Hi. replace (S k + i)%nat with (k + S i)%nat by lia. apply Hsaving. lia.
    + replace (S k + j)%nat with (k + S j)%nat by lia. exact Hgone.
Qed.

(** The loop ends by its own test of the deadline, after [rounds]
    reads that show the saving indicator. *)
Lemma publish_poll_times_out site deadline :
  forall rounds fuel k s,
    (rounds < fuel)%nat ->
    (forall i, (i < rounds)%nat -> r_saving site (k + i) = Done true) ->
    rounds = 0%nat \/ clock s + 2000 * Z.of_nat rounds - 2000 < deadline ->
    deadline <= clock s + 2000 * Z.of_nat rounds ->
    publish_poll fuel site deadline k s
    = (Ret false, mkState (clock s + 2000 * Z.of_nat rounds) (trace s)).
Proof.
  induction rounds as [|rounds IH]; intros fuel k s Hfuel Hsaving Hclock Hend;
    (destruct fuel as [|fuel]; [lia|]); cbn [publish_poll];
    unfold bind at 1, time_time at 1.
  - destruct (Z.ltb_spec (clock s) deadline) as [Hearly|_]; [lia|].
    destruct s as [c t]. cbn [ret clock trace]. do 2 f_equal; lia.
  - destruct (Z.ltb_spec (clock s) deadline) as [_|Hlate]; [|lia].
    pose proof (Hsaving 0%nat ltac:(lia)) as Hfirst. rewrite Nat.add_0_r in Hfirst.
    unfold bind at 1. rewrite Hfirst. cbn [call ret negb].
    unfold bind at 1, advance at 1.
    rewrite (IH fuel (S k) (mkState (clock s + 2000) (trace s))); cbn [clock trace].
    + do 2 f_equal; lia.
    + lia.
    + intros i Hi. replace (S k + i)%nat with (k + S i)%nat by lia. apply Hsaving. lia.
    + lia.
    + lia.
Qed.

(** X9: the publish wait reads the page every 2 seconds, at most 30
    times.  It returns [True] at the first read that does not show the
    saving indicator, after 2 seconds for each earlier read and without
    logging; when the first 30 reads all show it, it returns [False]
    after 60 seconds with the timeout warning. *)
Theorem X9_publish_wait (site : pin_replies) (s : state) :
  (forall k,
     (k < 30)%nat ->
     (forall i, (i < k)%nat -> r_saving site i = Done true) ->
     r_saving site k = Done false ->
     wait_for_publish site 60 s
     = (Ret true, mkState (clock s + 2000 * Z.of_nat k) (trace s)))
  /\ ((forall i, (i < 30)%nat -> r_saving site i = Done true) ->
      wait_for_publish site 60 s
      = (Ret false, mkState (clock s + 60000) (trace s ++ [Log WARNING PublishTimeout]))).
Proof.
  split.
  - intros k Hk Hsaving Hgone. unfold wait_for_publish.
    unfold bind at 1, time_time at 1. rewrite rounds_left_publish.
    unfold bind at 1.
    rewrite (publish_poll_detects site _ k 31 0 s);
      [reflexivity | lia | lia | exact Hsaving | exact Hgone].
  - intros Hsaving. unfold wait_for_publish.
    unfold bind at 1, time_time at 1. rewrite rounds_left_publish.
    unfold bind at 1.
    rewrite (publish_poll_times_out site _ 30 31 0 s); [| lia | exact Hsaving | right; lia | lia].
    reflexivity.
Qed.

Lemma X9_witness :
  let site := mkPin (Done tt) (Done tt) (Done tt) (Done tt) (fun _ => Done tt)
                (Done true) (Done tt) (Done tt) (Done true) (Done true)
                (fun k => Done (k <? 3)%nat) in
  wait_for_publish site 60 initial = (Ret true, mkState 6000 [])
  /\ wait_for_publish site_flaky 60 initial
     = (Ret false, mkState 60000 [Log WARNING PublishTimeout]).
Proof.
  intros site. split.
  - apply (proj1 (X9_publish_wait site initial) 3%nat); [lia | | reflexivity].
    intros i Hi. destruct i as [|[|[|i]]]; [reflexivity | reflexivity | reflexivity | lia].
  - apply (proj2 (X9_publish_wait site_flaky initial)). intros i _. reflexivity.
Defined.

(** ** Bounded waits *)









(** ** A board that is not found *)

(** X11: when the board picker opens and the query is typed but no
    board comes up, [select_board] logs no warning: it returns after
    clicking the save button, if there is one, so the pin goes to
    whatever board the site had selected. *)
Theorem X11_board_not_found_is_silent (site : pin_replies) (board : pyval) (save : bool)
    (s : state) :
  r_dropdown site = Done true ->
  r_open site = Done tt ->
  r_search site = Done tt ->
  r_first_board site = Done false ->
  r_save_button site = Done save ->
  select_board site board s
  = (Ret tt,
     mkState (clock s + 3500 + (if save then 1000 else 0))
             (trace s ++ SearchBoard board :: (if save then [ClickSave] else []))).
Proof.
  intros Hdropdown Hopen Hsearch Hfirst Hsave. unfold select_board, try_except.
  rewrite Hdropdown, Hopen, Hsearch, Hfirst, Hsave.
  destruct save;
    cbv [bind call ret emit advance negb]; cbn [clock trace];
    rewrite <- ?app_assoc; do 2 f_equal; lia.
Qed.

Lemma X11_witness :
  let site := mkPin (Done tt) (Done tt) (Done tt) (Done tt) (fun _ => Done tt)
                (Done true) (Done tt) (Done tt) (Done false) (Done true)
                (fun _ => Done false) in
  select_board site (PStr "Travel") initial
  = (Ret tt, mkState 4500 [SearchBoard (PStr "Travel"); ClickSave]).
Proof.
  intros site.
  exact (X11_board_not_found_is_silent site (PStr "Travel") true initial
           eq_refl eq_refl eq_refl eq_refl eq_refl).
Defined.

(** ** What one pin submits, and in which order *)

Lemma submitted_elem e evs : e ∈ submitted evs <-> e ∈ evs /\ is_submission e = true.
Proof.
  unfold submitted. rewrite !list_elem_of_In, filter_In. reflexivity.
Qed.

(** X12: whatever the site answers, one iteration of the loop submits a
    subsequence of: the file, then the title, the description and the
    link the image resolves to, then the board query; so nothing is
    typed before the file is sent, nothing is submitted twice, and with
    an empty board no board is searched. *)
Theorem X12_pin_submission_order (w : world) (cfg : config) (csv_metadata : metadata)
    (d : run_defaults) (total i : nat) (image_path : string) (s : state) :
  let v := resolve csv_metadata d image_path in
  exists c evs r,
    post_one w cfg csv_metadata d total i image_path s = (r, mkState c (trace s ++ evs))
    /\ submitted evs `sublist_of`
         [SendFile image_path; Fill Title (pin_title v); Fill Description (pin_description v);
          Fill Link (pin_link v); SearchBoard (pin_board v)]
    /\ (truthy (pin_board v) = false -> forall board, SearchBoard board ∉ evs).
Proof.
  intros v.
  destruct (post_one_post w cfg csv_metadata d total i image_path s)
    as (c & evs & r & Hrun & body & Hinner & Hsub & Hcase).
  exists c, evs, r. split; [exact Hrun|].
  assert (submitted evs = submitted body) as Hsame.
  { destruct Hcase as [(posted & _ & ->) | (_ & _ & ->)].
    - change (Log INFO (Posting i total (PyPath.basename image_path)) :: body
                ++ [verdict total i (PyPath.basename image_path) posted])
        with ([Log INFO (Posting i total (PyPath.basename image_path))] ++ body
                ++ [verdict total i (PyPath.basename image_path) posted]).
      rewrite !submitted_app. destruct posted; cbn; apply app_nil_r.
    - reflexivity. }
  rewrite Hsame. fold v in Hsub. split.
  - etransitivity; [exact Hsub|]. unfold submission.
    destruct (truthy (pin_board v)).
    + reflexivity.
    + do 4 apply sublist_skip. apply sublist_nil_l.
  - intros Hboard board Hin.
    assert (SearchBoard board ∈ submitted evs) as Hsubmitted
      by (apply submitted_elem; split; [exact Hin | reflexivity]).
    rewrite Hsame in Hsubmitted.
    apply (fun H => elem_of_submseteq _ _ _ H (sublist_submseteq _ _ Hsub)) in Hsubmitted.
    unfold submission in Hsubmitted. rewrite Hboard, app_nil_r in Hsubmitted.
    rewrite !elem_of_cons, elem_of_nil in Hsubmitted.
    destruct Hsubmitted as [H|[H|[H|[H|[]]]]]; discriminate H.
Qed.

(** ** Pins that fail before the upload *)

(** What [time.sleep] does with a value: it sleeps what can be slept
    and raises on everything else, and logs nothing. *)
Lemma time_sleep_outcome can_sleep v :
  wp (time_sleep can_sleep v)
     (fun r evs =>
        evs = []
        /\ ((r = Ret tt /\ sleepable can_sleep v)
            \/ ((exists e, r = Raise (Err e)) /\ ~ sleepable can_sleep v))).
Proof.
  assert (forall n,
             (0 <= n < SLEEP_LIMIT /\ can_sleep n = true ->
              sleepable can_sleep v) ->
             (sleepable can_sleep v -> 0 <= n < SLEEP_LIMIT /\ can_sleep n = true) ->
             wp (if (n <=? - SLEEP_LIMIT) || (SLEEP_LIMIT <=? n)
                 then raise (Err OverflowError)
                 else if n <? 0 then raise (Err ValueError)
                      else if can_sleep n then advance (1000 * n) else raise (Err IOError))
                (fun r evs =>
                   evs = []
                   /\ ((r = Ret tt /\ sleepable can_sleep v)
                       \/ ((exists e, r = Raise (Err e)) /\ ~ sleepable can_sleep v))))
    as Hsleep.
  { intros n Hyes Hno.
    destruct (Z.leb_spec n (- SLEEP_LIMIT)) as [Hlow|Hlow].
    { apply wp_raise. split; [reflexivity|]. right. split; [eexists; reflexivity|].
      intros H. apply Hno in H. unfold SLEEP_LIMIT in *. lia. }
    destruct (Z.leb_spec SLEEP_LIMIT n) as [Hhigh|Hhigh]; cbn [orb].
    { apply wp_raise. split; [reflexivity|]. right. split; [eexists; reflexivity|].
      intros H. apply Hno in H. lia. }
    destruct (Z.ltb_spec n 0) as [Hneg|Hpos].
    { apply wp_raise. split; [reflexivity|]. right. split; [eexists; reflexivity|].
      intros H. apply Hno in H. lia. }
    destruct (can_sleep n) eqn:Hcan.
    - apply wp_advance. split; [reflexivity|]. left. split; [reflexivity|].
      apply Hyes. split; [lia | reflexivity].
    - apply wp_raise. split; [reflexivity|]. right. split; [eexists; reflexivity|].
      intros H. apply Hno in H. destruct H as [_ H]. discriminate H. }
  destruct v as [|b|n|str|l|items]; unfold time_sleep;
    try (apply wp_raise; split; [reflexivity|]; right;
         split; [eexists; reflexivity | intros []]).
  - apply Hsleep; cbn [sleepable].
    + intros [_ H]. exact H.
    + intros H. split; [destruct b; unfold SLEEP_LIMIT; lia | exact H].
  - apply Hsleep; cbn [sleepable]; tauto.
Qed.

Lemma unusable_not_sleepable can_sleep cfg :
  unusable_delay cfg -> ~ sleepable can_sleep (dict_get cfg "delay_between_pins" (PInt 2)).
Proof.
  unfold unusable_delay.
  destruct (dict_get cfg "delay_between_pins" (PInt 2)); cbn [sleepable]; try tauto.
  intros Hdelay [Hn _]. lia.
Qed.

Lemma time_sleep_unusable can_sleep cfg :
  unusable_delay cfg ->
  wp (time_sleep can_sleep (dict_get cfg "delay_between_pins" (PInt 2)))
     (fun r evs => (exists e, r = Raise (Err e)) /\ evs = []).
Proof.
  intros Hdelay. eapply wp_mono; [apply time_sleep_outcome|].
  intros r evs (-> & [(_ & Hsleeps) | (Hraise & _)]); [|split; [exact Hraise | reflexivity]].
  destruct (unusable_not_sleepable can_sleep cfg Hdelay Hsleeps).
Qed.

Lemma time_sleep_silent can_sleep v :
  wp (time_sleep can_sleep v)
     (fun r evs => (r = Ret tt \/ exists e, r = Raise (Err e)) /\ evs = []).
Proof.
  eapply wp_mono; [apply time_sleep_outcome|].
  intros r evs (-> & [(-> & _) | (Hraise & _)]); (split; [|reflexivity]);
    [left; reflexivity | right; exact Hraise].
Qed.

Lemma post_one_fails_early w cfg csv_metadata d total i image_path :
  never_uploads (pin_site w i) cfg ->
  wp (post_one w cfg csv_metadata d total i image_path)
     (fun r evs => r = Ret false /\ evs = failed_early total i image_path).
Proof.
  intros Hnever. unfold post_one, post_body, failed_early.
  apply wp_bind, wp_emit. apply wp_try_except. apply wp_bind. apply wp_bind, wp_emit.
  destruct Hnever as [Hget | (Hget & Hnever)]; rewrite Hget.
  - apply wp_bind, wp_call. cbn [is_Exception]. apply wp_bind, wp_emit, wp_ret.
    split; reflexivity.
  - apply wp_bind, wp_call. apply wp_bind.
    destruct Hnever as [Hdelay | Hnever].
    + eapply wp_mono; [apply time_sleep_unusable, Hdelay|].
      intros r evs ((e & ->) & ->). cbn [is_Exception].
      apply wp_bind, wp_emit, wp_ret. split; reflexivity.
    + eapply wp_mono; [apply time_sleep_silent|].
      intros r evs ([-> | (e & ->)] & ->).
      * destruct Hnever as [Hbuilder | (Hbuilder & Hfile)]; rewrite Hbuilder.
        -- apply wp_bind, wp_call. cbn [is_Exception].
           apply wp_bind, wp_emit, wp_ret. split; reflexivity.
        -- apply wp_bind, wp_call. unfold post_single_pin, upload_image. rewrite Hfile.
           apply wp_bind, wp_bind, wp_call. cbn [is_Exception].
           apply wp_bind, wp_emit, wp_ret. split; reflexivity.
      * cbn [is_Exception]. apply wp_bind, wp_emit, wp_ret. split; reflexivity.
Qed.

(** X13: when the builder page does not load, the configured delay
    cannot be slept or the file input does not show up, the pin is
    counted as failed and nothing of it reaches the site: the log holds
    the announcement, the navigation and the error line. *)
Theorem X13_no_upload_no_submission (w : world) (cfg : config) (csv_metadata : metadata)
    (d : run_defaults) (total i : nat) (image_path : string) (s : state) :
  never_uploads (pin_site w i) cfg ->
  exists c,
    post_one w cfg csv_metadata d total i image_path s
    = (Ret false, mkState c (trace s ++ failed_early total i image_path)).
Proof.
  intros Hnever.
  destruct (post_one_fails_early w cfg csv_metadata d total i image_path Hnever s)
    as (c & evs & r & Hrun & -> & ->).
  exists c. exact Hrun.
Qed.

Lemma X13_witness :
  let w := demo_world None (fun _ => "T") 1 (fun _ => site_ok) in
  let cfg : config := <[KStr "delay_between_pins" := PStr "2"]> defaults in
  exists c,
    post_one w cfg ∅ (mkDefaults "T" "" "" (PStr "Pins")) 3 1 "/pins/a.jpg" initial
    = (Ret false, mkState c (trace initial ++ failed_early 3 1 "/pins/a.jpg")).
Proof.
  intros w cfg. apply X13_no_upload_no_submission.
  right. split; [reflexivity|]. left. vm_compute. exact I.
Defined.

Lemma post_loop_fails_early w cfg csv_metadata d total images :
  (forall j, never_uploads (pin_site w j) cfg) ->
  forall i successful failed,
    wp (post_loop w cfg csv_metadata d total i images successful failed)
       (fun r evs =>
          r = Ret (successful, (failed + length images)%nat)
          /\ evs = concat (imap (fun k image_path => failed_early total (i + k) image_path)
                             images)).
Proof.
  intros Hnever. induction images as [|image_path rest IH]; intros i successful failed;
    cbn [post_loop].
  - apply wp_ret. split; [|reflexivity]. do 2 f_equal. cbn. lia.
  - apply wp_bind. eapply wp_mono; [apply post_one_fails_early, Hnever|].
    intros r evs (-> & ->). eapply wp_mono; [apply IH|].
    intros r evs (-> & ->). split.
    + do 2 f_equal. cbn [length]. lia.
    + cbn [imap concat]. rewrite Nat.add_0_r. f_equal. f_equal.
      apply imap_ext. intros k x _. cbn. f_equal. lia.
Qed.

(** X14: with a [delay_between_pins] that [time.sleep] rejects (negative,
    too large, or not a number, as the string "2"), every pin of the run fails
    before its upload: the loop counts no pin as posted and all as
    failed, and submits nothing. *)
Theorem X14_unusable_delay_fails_every_pin (w : world) (cfg : config)
    (csv_metadata : metadata) (d : run_defaults) (images : list string) (s : state) :
  unusable_delay cfg ->
  (forall j, r_get (pin_site w j) <> Interrupts) ->
  exists c evs,
    post_loop w cfg csv_metadata d (length images) 1 images 0 0 s
    = (Ret (0%nat, length images), mkState c (trace s ++ evs))
    /\ submitted evs = []
    /\ postings evs = announced 1 images
    /\ closed_as false evs = length images.
Proof.
  intros Hdelay Hget.
  assert (forall j, never_uploads (pin_site w j) cfg) as Hnever.
  { intros j. specialize (Hget j). unfold never_uploads.
    destruct (r_get (pin_site w j)) as [[]| |]; [right | left | congruence]; tauto. }
  destruct (post_loop_fails_early w cfg csv_metadata d (length images) images Hnever 1 0 0 s)
    as (c & evs & r & Hrun & -> & ->).
  eexists c, _. split; [exact Hrun|]. clear Hrun.
  generalize 1%nat as i. generalize (length images) at 1 2 3 as total.
  induction images as [|image_path rest IH]; intros total i; [repeat split|].
  cbn [imap concat]. rewrite submitted_app, postings_app.
  unfold closed_as. rewrite verdicts_app, filter_app, List.length_app.
  assert (imap (fun k x => failed_early total (i + S k) x) rest
          = imap (fun k x => failed_early total (S i + k) x) rest) as Hshift
    by (apply imap_ext; intros k x _; cbn; f_equal; lia).
  change (imap ((fun k x => failed_early total (i + k) x) ∘ S) rest)
    with (imap (fun k x => failed_early total (i + S k) x) rest).
  rewrite Hshift. destruct (IH total (S i)) as (Hs & Hp & Hc).
  rewrite Hs, Hp. fold (closed_as false (concat (imap (fun k x => failed_early total (S i + k) x) rest))).
  rewrite Hc, Nat.add_0_r. repeat split.
Qed.

Lemma X14_witness :
  let w := demo_world None (fun _ => "T") 1 (fun _ => site_ok) in
  let cfg : config := <[KStr "delay_between_pins" := PInt (-1)]> defaults in
  let images := ["/pins/a.jpg"; "/pins/b.jpg"] in
  exists c evs,
    post_loop w cfg ∅ (mkDefaults "T" "" "" (PStr "Pins")) 2 1 images 0 0 initial
    = (Ret (0%nat, 2%nat), mkState c (trace initial ++ evs))
    /\ submitted evs = []
    /\ postings evs = announced 1 images
    /\ closed_as false evs = 2%nat.
Proof.
  intros w cfg images.
  apply (X14_unusable_delay_fails_every_pin w cfg ∅ _ images initial).
  - vm_compute. left. reflexivity.
  - intros j. cbn. discriminate.
Defined.

(** A delay beyond what [time.sleep] takes fails every pin as well. *)
Example huge_delay_fails_the_pin :
  let w := demo_world None (fun _ => "T") 1 (fun _ => site_ok) in
  let cfg : config := <[KStr "delay_between_pins" := PInt 9223372037]> defaults in
  (post_one w cfg ∅ (mkDefaults "T" "" "" (PStr "Pins")) 1 1 "/pins/a.jpg" initial).1
  = Ret false.
Proof. vm_compute. reflexivity. Qed.

(** ** When a pin counts as posted *)






(** ** What [main] hands to the posting phase *)

(** X16: when the first part of [main] gets through, the settings
    mapping holds all five keys; the command line has precedence over
    it: [--headless] or a true [headless] setting, a non-empty [--board]
    else the [board_name] setting, a non-empty [--images] else the
    [images_folder] setting; a relative folder is looked up below the
    script's directory; and the images handed over are those of that
    folder, at least one, in ascending order. *)
Theorem X16_main_hands_over (w : world) (p : prepared) (s : state) :
  prepare w initial = (Ret p, s) ->
  let cfg := run_config p in
  (forall k, k ∈ CONFIG_KEYS -> is_Some (cfg !! KStr k))
  /\ run_headless p = args_headless (cli w) || truthy (dict_get cfg "headless" (PBool false))
  /\ run_board p = chosen_board w cfg
  /\ (exists folder children,
        images_folder w cfg = PStr folder
        /\ iterdir w (resolved_folder w folder) = Listed children
        /\ run_images p ≡ₚ entry_path <$> filter (fun e => is_image e = true) children)
  /\ run_images p <> []
  /\ StronglySorted String.le (run_images p).
Proof.
  unfold prepare. intros Hrun.
  unfold bind at 1, print at 1, emit at 1 in Hrun. unfold bind at 1 in Hrun.
  unfold parse_args in Hrun.
  destruct (command_line w); cbv [sys_exit raise] in Hrun; try discriminate Hrun.
  unfold ret at 1 in Hrun. unfold bind at 1 in Hrun.
  destruct (load_config (read_config w) (args_config (cli w)) _) as [[cfg|x] s1] eqn:Hconfig;
    [|discriminate Hrun].
  fold (images_folder w cfg) in Hrun.
  unfold bind at 1 in Hrun.
  destruct (images_folder w cfg) as [| | |folder| |] eqn:Hfolder;
    cbn [as_path ret raise] in Hrun; try discriminate Hrun.
  fold (resolved_folder w folder) in Hrun. unfold bind at 1 in Hrun.
  destruct (discover_images (iterdir w) (resolved_folder w folder) s1)
    as [[images|x] s2] eqn:Himages; [|discriminate Hrun].
  unfold bind at 1 in Hrun.
  destruct (load_csv_metadata (read_csv w) (args_csv (cli w)) s2)
    as [[csv_metadata|x] s3]; [|discriminate Hrun].
  injection Hrun as <- <-. cbn [run_config run_headless run_board run_images].
  split.
  { exact (load_config_keeps_keys _ _ _ _ _ Hconfig). }
  split.
  { unfold py_or. cbn [truthy]. destruct (args_headless (cli w)); reflexivity. }
  split.
  { unfold chosen_board, py_or, opt_str. destruct (args_board (cli w)) as [board|];
      cbn [truthy]; [destruct (PyStr.nonempty board)|]; reflexivity. }
  unfold discover_images in Himages.
  destruct (iterdir w (resolved_folder w folder)) as [|children|e] eqn:Hdir;
    [cbv [bind logger_error emit sys_exit raise] in Himages; discriminate Himages
    | | discriminate Himages].
  pose proof (sorted_perm (entry_path <$> filter (fun e => is_image e = true) children))
    as Hperm.
  pose proof (sorted_Sorted (entry_path <$> filter (fun e => is_image e = true) children))
    as Hsorted.
  destruct (sorted _) as [|image more];
    [cbv [bind logger_error emit sys_exit raise] in Himages; discriminate Himages|].
  cbv [bind logger_info emit ret] in Himages. injection Himages as <- _.
  split; [exists folder, children; split; [exact Hfolder|]; split; [exact Hdir | exact Hperm]|].
  split; [discriminate | exact Hsorted].
Qed.

Lemma X16_witness :
  let w := demo_world (Some "pins.csv") (fun _ => "") 1 (fun _ => site_ok) in
  exists p s,
    prepare w initial = (Ret p, s)
    /\ run_board p = PStr "Pins"
    /\ run_images p <> []
    /\ StronglySorted String.le (run_images p).
Proof.
  intros w.
  assert (exists p s, prepare w initial = (Ret p, s)) as (p & s & Hprepare)
    by (eexists _, _; vm_compute; reflexivity).
  exists p, s. split; [exact Hprepare|].
  destruct (X16_main_hands_over w p s Hprepare) as (_ & _ & Hboard & _ & Himages & Hsorted).
  split; [exact Hboard | split; [exact Himages | exact Hsorted]].
Defined.

(** ** The console comes first *)

Section Only.
Variable P : event -> Prop.

Lemma only_bind {A B} (m : M B) (k : B -> M A) :
  wp m (only P) -> (forall b, wp (k b) (only P)) -> wp (bind m k) (only P).
Proof.
  intros Hm Hk. apply wp_bind. eapply wp_mono; [exact Hm|].
  intros [b|x] e1 H1; [|exact H1].
  eapply wp_mono; [apply Hk|]. intros r e2 H2. apply Forall_app. split; assumption.
Qed.

Lemma only_emit e : P e -> wp (emit e) (only P (A := unit)).
Proof. intros He. apply wp_emit. repeat constructor. exact He. Qed.

Lemma only_ret {A} (a : A) : wp (ret a) (only P).
Proof. apply wp_ret. constructor. Qed.

Lemma only_raise {A} (x : exn) : wp (raise (A := A) x) (only P).
Proof. apply wp_raise. constructor. Qed.

Lemma only_try {A} (m : M A) handles (h : exn -> M A) :
  wp m (only P) -> (forall x, wp (h x) (only P)) -> wp (try_except m handles h) (only P).
Proof.
  intros Hm Hh. apply wp_try_except. eapply wp_mono; [exact Hm|].
  intros [a|x] e1 H1; [exact H1|]. destruct (handles x); [|exact H1].
  eapply wp_mono; [apply Hh|]. intros r e2 H2. apply Forall_app. split; assumption.
Qed.

End Only.

Lemma load_config_console read config_path :
  wp (load_config read config_path) (only console_event).
Proof.
  unfold load_config. destruct (PyStr.nonempty config_path); [|apply only_ret].
  destruct (read config_path) as [|e|user_config]; [apply only_ret| |].
  - apply only_try; [apply only_raise|]. intros x.
    apply only_bind; [apply only_emit; exact I | intros _; apply only_ret].
  - destruct (dict_update defaults user_config) as [cfg [e|]].
    + apply only_try; [apply only_raise|]. intros x.
      apply only_bind; [apply only_emit; exact I | intros _; apply only_ret].
    + apply only_bind; [apply only_emit; exact I | intros _; apply only_ret].
Qed.

Lemma load_csv_metadata_console read csv_path :
  wp (load_csv_metadata read csv_path) (only console_event).
Proof.
  unfold load_csv_metadata. destruct csv_path as [path|]; [|apply only_ret].
  destruct (PyStr.nonempty path); [|apply only_ret].
  destruct (read path) as [|rows failure]; [apply only_ret|].
  destruct (load_rows ∅ rows failure) as [md [e|]].
  - apply only_try; [apply only_raise|]. intros x.
    apply only_bind; [apply only_emit; exact I | intros _; apply only_ret].
  - apply only_bind; [apply only_emit; exact I | intros _; apply only_ret].
Qed.

Lemma discover_images_console iterdir folder :
  wp (discover_images iterdir folder) (only console_event).
Proof.
  unfold discover_images. destruct (iterdir folder) as [|children|e].
  - apply only_bind; [apply only_emit; exact I | intros _; apply only_raise].
  - destruct (sorted _) as [|image images].
    + apply only_bind; [apply only_emit; exact I | intros _; apply only_raise].
    + apply only_bind; [apply only_emit; exact I | intros _; apply only_ret].
  - apply only_raise.
Qed.

Lemma prepare_console w : wp (prepare w) (only console_event).
Proof.
  unfold prepare.
  apply only_bind; [apply only_emit; exact I | intros _].
  apply only_bind;
    [unfold parse_args, sys_exit; destruct (command_line w);
     first [apply only_ret | apply only_raise] | intros args].
  apply only_bind; [apply load_config_console | intros cfg].
  apply only_bind; [destruct (py_or _ _); first [apply only_ret | apply only_raise] | intros folder].
  apply only_bind; [apply discover_images_console | intros images].
  apply only_bind; [apply load_csv_metadata_console | intros csv_metadata].
  apply only_ret.
Qed.

Lemma input_console w p : wp (input w p) (only console_event).
Proof.
  unfold input. apply only_bind; [apply only_emit; exact I | intros _].
  destruct (keyboard w p); first [apply only_ret | apply only_raise].
Qed.

Lemma collect_defaults_console w csv_metadata board :
  wp (collect_defaults w csv_metadata board) (only console_event).
Proof.
  unfold collect_defaults. apply only_bind.
  - destruct (bool_decide _); [|apply only_ret].
    do 2 (apply only_bind; [apply only_emit; exact I | intros _]).
    do 3 (apply only_bind; [apply input_console | intros ?]).
    apply only_bind; [apply only_emit; exact I | intros _; apply only_ret].
  - intros d. destruct (negb (truthy board)); [|apply only_ret].
    apply only_bind; [apply input_console | intros answer].
    apply only_bind; [apply only_emit; exact I | intros _; apply only_ret].
Qed.

Lemma create_driver_unattended starts headless :
  wp (create_driver starts headless)
     (fun r evs => exists rest, evs = LaunchChrome headless :: rest /\ Forall unattended rest
                                /\ (r = Ret tt -> rest = [])).
Proof.
  unfold create_driver. intros s. destruct starts as [[]| |].
  - cbv [try_except bind emit call ret]. eexists _, _, _. split; [reflexivity|].
    exists []. split; [reflexivity|]. split; [constructor | reflexivity].
  - cbv [try_except bind emit call ret raise is_Exception logger_error logger_info sys_exit].
    cbn [clock trace]. eexists _, _, _. split; [rewrite <- !app_assoc; reflexivity|].
    eexists. split; [reflexivity|]. split; [repeat constructor | discriminate].
  - cbv [try_except bind emit call ret raise is_Exception]. eexists _, _, _.
    split; [reflexivity|]. exists []. split; [reflexivity|].
    split; [constructor | reflexivity].
Qed.

Lemma login_event_unattended e : login_event e -> unattended e.
Proof. destruct e as [[] []|[]|[]| | | | | | | |]; cbn; tauto. Qed.

Lemma loop_event_unattended e : loop_event e -> unattended e.
Proof. destruct e as [[] []|[]|[]| | | | | | | |]; cbn; tauto. Qed.

Lemma session_unattended w cfg images csv_metadata d :
  wp (session w cfg images csv_metadata d) (only unattended).
Proof.
  eapply wp_mono; [apply session_outcome|].
  intros r evs (pre & Hpre & Hshape). unfold only.
  pose proof (Forall_impl _ _ _ Hpre login_event_unattended) as Hquiet.
  destruct Hshape
    as [(_ & _ & ->) | [(_ & ->) | [(_ & ->) | [(_ & Hdone) | (_ & Hcut)]]]].
  - apply Forall_app. split; [exact Hquiet | repeat constructor].
  - apply Forall_app. split; [exact Hquiet | repeat constructor].
  - apply Forall_app. split; [exact Hquiet | repeat constructor].
  - destruct Hdone as (pins & successful & failed & (Hpins & _) & ->).
    apply Forall_app. split; [exact Hquiet|]. apply Forall_cons. split; [exact I|].
    apply Forall_app. split; [|repeat constructor].
    exact (Forall_impl _ _ _ Hpins loop_event_unattended).
  - destruct Hcut as (pins & Hpins & _ & ->).
    apply Forall_app. split; [exact Hquiet|]. apply Forall_cons. split; [exact I|].
    apply Forall_app. split; [|repeat constructor].
    exact (Forall_impl _ _ _ Hpins loop_event_unattended).
Qed.

Lemma console_then {A B} (m : M B) (k : B -> M A) :
  wp m (only console_event) -> (forall b, wp (k b) two_phases) -> wp (bind m k) two_phases.
Proof.
  intros Hm Hk. apply wp_bind. eapply wp_mono; [exact Hm|].
  intros [b|x] e1 H1.
  - eapply wp_mono; [apply Hk|].
    intros r e2 (console & browser & -> & Hconsole & Hbrowser & Hlaunch).
    exists (e1 ++ console), browser. split; [apply app_assoc|].
    split; [apply Forall_app; split; assumption|]. split; assumption.
  - exists e1, []. split; [symmetry; apply app_nil_r|]. split; [exact H1|].
    split; [constructor | left; reflexivity].
Qed.

Lemma main_two_phases w : wp (main w) two_phases.
Proof.
  unfold main. apply console_then; [apply prepare_console | intros p].
  unfold post_all.
  apply console_then; [apply collect_defaults_console | intros d].
  apply console_then; [apply only_emit; exact I | intros _].
  apply wp_bind. eapply wp_mono; [apply create_driver_unattended|].
  intros r e1 (rest & -> & Hrest & Hstarted).
  destruct r as [[]|x].
  - rewrite (Hstarted eq_refl).
    eapply wp_mono; [apply session_unattended|]. intros r e2 H2.
    exists [], (LaunchChrome (run_headless p) :: e2).
    split; [reflexivity|]. split; [constructor|].
    split; [apply Forall_cons; split; [exact I | exact H2]|]. right. eauto.
  - exists [], (LaunchChrome (run_headless p) :: rest).
    split; [reflexivity|]. split; [constructor|].
    split; [apply Forall_cons; split; [exact I | exact Hrest]|]. right. eauto.
Qed.

(** X17: every run is in two phases.  First the console: the trace
    holds only log lines, prints and prompts, and nothing touches a
    browser.  Then, if the run gets that far, Chrome is launched, and
    from then on the only question ever asked is the confirmation of
    the login: the defaults and the board are asked for before the
    browser opens. *)
Theorem X17_console_then_browser (w : world) :
  exists console browser,
    trace (run w).2 = console ++ browser
    /\ Forall console_event console
    /\ Forall unattended browser
    /\ (browser = [] \/ exists headless rest, browser = LaunchChrome headless :: rest)
    /\ (forall p, p <> AskLoggedIn -> Input p ∉ browser).
Proof.
  destruct (main_two_phases w initial)
    as (c & evs & r & Hrun & console & browser & -> & Hconsole & Hbrowser & Hlaunch).
  exists console, browser. unfold run. rewrite Hrun. cbn [snd trace initial app].
  split; [reflexivity|]. split; [exact Hconsole|]. split; [exact Hbrowser|].
  split; [exact Hlaunch|].
  intros p Hp Hin. rewrite Forall_forall in Hbrowser. exact (Hp (Hbrowser _ Hin)).
Qed.

(** ** No pin without login *)

Lemma wait_for_login_true w timeout_seconds :
  wp (wait_for_login w timeout_seconds)
     (fun r evs => r = Ret true -> login_confirmed w evs).
Proof.
  unfold wait_for_login, login_confirmed.
  apply wp_bind, wp_emit. apply wp_bind, wp_call.
  destruct (login_page w) as [[]| |]; [|discriminate|discriminate].
  do 3 apply wp_bind, wp_emit. apply wp_bind. unfold format.
  destruct (printable timeout_seconds); [apply wp_ret | apply wp_raise; discriminate].
  do 2 apply wp_bind, wp_emit. apply wp_bind.
  assert (forall timeout : Z,
             wp (now <- time_time;;
                 let deadline := now + timeout in
                 detected <- login_poll (S (rounds_left deadline now 1000)) w deadline 0;;
                 if detected then ret true
                 else
                   answer <- input w AskLoggedIn;;
                   let choice := PyStr.lower (PyStr.strip answer) in
                   if String.eqb choice "y" then ret true
                   else logger_error LoginNotConfirmed;;; ret false)
                (fun r e2 =>
                   r = Ret true ->
                   Log INFO LoginDetected ∈ e2 \/ (Input AskLoggedIn ∈ e2 /\ confirmed w)))
    as Hrest.
  { intros timeout. apply wp_bind, wp_time_time. intros now. apply wp_bind.
    eapply wp_mono; [apply login_poll_outcome|].
    intros r evs [(-> & ->) | ([-> | [-> | ->]] & ->)]; try discriminate.
    - apply wp_ret. intros _. left. rewrite !elem_of_app, !elem_of_cons. tauto.
    - apply wp_bind, wp_input.
      destruct (keyboard w AskLoggedIn) eqn:Hkeys; try discriminate.
      cbv zeta. fold (choice w). destruct (String.eqb_spec (choice w) "y") as [Hyes|Hno].
      + apply wp_ret. intros _. right. split; [|split; [exact Hkeys | exact Hyes]].
        rewrite !elem_of_app, !elem_of_cons. tauto.
      + apply wp_bind, wp_emit, wp_ret. discriminate. }
  destruct timeout_seconds as [|b|n|str|l|items]; cbn [seconds];
    try destruct (fits_float n);
    first [ apply wp_raise; discriminate
          | apply wp_ret; eapply wp_mono; [apply Hrest|];
            intros r e2 H Htrue; destruct (H Htrue) as [H1 | [H1 H2]];
            [left | right; split; [|exact H2]]; rewrite !elem_of_app; tauto ].
Qed.

Lemma login_confirmed_app w e1 e2 : login_confirmed w e1 -> login_confirmed w (e1 ++ e2).
Proof.
  unfold login_confirmed. rewrite !elem_of_app. tauto.
Qed.

Lemma login_event_not_posting e : login_event e -> ~ posting_event e.
Proof. destruct e as [[] []|[]|[]| | | | | | | |]; cbn; tauto. Qed.

(** X18: the login gate guards the posting phase: in every run of the
    guarded phase, if the count of pins is printed, a pin is announced
    or anything is submitted to the site, then the browser was seen off
    the login page or the operator confirmed the login. *)
Theorem X18_no_pin_without_login (w : world) (cfg : config) (images : list string)
    (csv_metadata : metadata) (d : run_defaults) (s : state) :
  exists c evs r,
    session w cfg images csv_metadata d s = (r, mkState c (trace s ++ evs))
    /\ (Exists posting_event evs -> login_confirmed w evs).
Proof.
  revert s. change (wp (session w cfg images csv_metadata d)
                      (fun _ evs => Exists posting_event evs -> login_confirmed w evs)).
  assert (forall pre tail,
            Forall login_event pre -> Forall (fun e => ~ posting_event e) tail ->
            Exists posting_event (pre ++ tail) -> login_confirmed w (pre ++ tail))
    as Hquiet.
  { intros pre tail Hpre Htail Hex. exfalso.
    apply Exists_exists in Hex as (e & Hin & He).
    apply elem_of_app in Hin as [Hin|Hin].
    - rewrite Forall_forall in Hpre. exact (login_event_not_posting e (Hpre e Hin) He).
    - rewrite Forall_forall in Htail. exact (Htail e Hin He). }
  unfold session.
  apply wp_try_finally, wp_try_except, wp_bind.
  eapply wp_mono;
    [apply wp_and; [apply wait_for_login_post | apply wait_for_login_true]|].
  intros r evs
    ((pre & Hpre & [(-> & ->) | [(-> & Hno & ->) | [((e & ->) & ->) | (-> & ->)]]]) & Htrue);
    cbn [negb is_KeyboardInterrupt].
  - specialize (Htrue eq_refl).
    apply wp_bind, wp_ret. apply wp_bind, wp_emit. apply wp_bind.
    eapply wp_mono; [apply post_loop_post|].
    intros r pins (_ & _ & [(successful & failed & -> & _) | (-> & _)]).
    + do 2 apply wp_bind, wp_emit. apply wp_emit. apply wp_bind, wp_emit. apply wp_emit.
      intros _. rewrite <- !app_assoc. apply login_confirmed_app, Htrue.
    + cbn [is_KeyboardInterrupt]. apply wp_emit. apply wp_bind, wp_emit. apply wp_emit.
      intros _. rewrite <- !app_assoc. apply login_confirmed_app, Htrue.
  - apply wp_bind. apply wp_bind, wp_emit. apply wp_raise. cbn [is_KeyboardInterrupt].
    apply wp_bind, wp_emit. apply wp_emit. rewrite <- !app_assoc.
    apply Hquiet; [exact Hpre|]. repeat constructor; intros [].
  - apply wp_bind, wp_emit. apply wp_emit. rewrite <- ?app_assoc.
    apply Hquiet; [exact Hpre|]. repeat constructor; intros [].
  - apply wp_emit. apply wp_bind, wp_emit. apply wp_emit. rewrite <- ?app_assoc.
    apply Hquiet; [exact Hpre|]. repeat constructor; intros [].
Qed.

(** ** The browser is always released *)






(** The operator answers "n": the browser is closed twice. *)
Example refused_login_quits_twice :
  let w := demo_world None (fun _ => "n") 100 (fun _ => site_ok) in
  quits (trace (run w).2) = 2%nat.
Proof. vm_compute. reflexivity. Qed.

(** ** Exit status *)


(** Ctrl-C at the prompt for the title leaves [main]: no browser was
    started, and nothing is closed. *)
Example ctrl_c_at_title_prompt :
  let w := ctrl_c_at AskTitle (demo_world None (fun _ => "T") 1 (fun _ => site_ok)) in
  (run w).1 = Raise KeyboardInterrupt
  /\ exit_status (run w).1 = 130
  /\ quits (trace (run w).2) = 0%nat.
Proof. vm_compute. repeat split. Qed.
